(** * hjs-file: a shallow embedding of [lib/file.js]

    The development follows the source file top-down: the JavaScript values
    and exceptions the module manipulates, the [path] helpers and the native
    [fs] layer it calls, then [handleError]/[handleSuccess], the static
    primitives of [File], the methods of a [File] handle and the
    [FileInputStream].  Theorems come after all definitions.

    Conventions.
    - A JavaScript function that may throw is a computation [M A]: it takes
      the machine [state] and gives an [outcome] (a returned value or a thrown
      error) together with the new state.  A throw keeps the state reached so
      far, as in JavaScript.
    - An asynchronous native call [f(args, k)] is run by [async]: the native
      operation is performed and its completion callback [k] is entered with
      the error or the result.  In [file.js] every asynchronous dispatch is the
      last statement of the function that issues it, so running the completion
      in sequence keeps the order of effects of the event loop.
    - Numbers are integers ([Z]); byte buffers are lists of integers.
    - A string is kept as Rocq keeps a string literal: by the bytes of its
      UTF-8 form.  For an ASCII string these are its characters. *)

From Stdlib Require Import ZArith List String Ascii Bool Lia.
Import ListNotations.
Local Open Scope string_scope.
Local Open Scope Z_scope.

(** ** JavaScript values, errors and computations *)

(** Error codes of the native layer that the model can raise. *)
Inductive errno : Type :=
  | ENOENT | EEXIST | ENOTDIR | ENOTEMPTY | EISDIR | EBADF.

(** The error objects of the module: the three JavaScript error classes it
    constructs itself and the system errors thrown by [fs]. *)
Inductive error : Type :=
  | ReferenceError (msg : string)
  | TypeError (msg : string)
  | RangeError (msg : string)
  | SystemError (code : errno).

Inductive kind : Type := KFile | KDir.

(** What [fs.Stats] exposes to this module: [isFile()], [isDirectory()] and
    [size]. *)
Record Stats : Type := mkStats { stats_kind : kind; stats_size : Z }.

Definition isDirectory (s : Stats) : bool :=
  match stats_kind s with KDir => true | KFile => false end.

Definition stats_isFile (s : Stats) : bool :=
  match stats_kind s with KFile => true | KDir => false end.

Inductive value : Type :=
  | VUndefined
  | VNull
  | VBool (b : bool)
  | VNum (n : Z)
  | VStr (s : string)
  | VErr (e : error)
  | VStats (s : Stats)
  | VNames (l : list string)
  | VBytes (l : list Z)
  | VPair (a b : value)
  | VReadStream (source : Z + string) (range : option (Z * Z)).

(** [export const SUCCESS = 0x1; ERROR = 0x0; FILE = 0x3; DIR = 0x4] *)
Definition SUCCESS : value := VNum 1.
Definition ERROR : value := VNum 0.
Definition FILE : Z := 3.
Definition DIR : Z := 4.

(** [v === ERROR] and [v === SUCCESS]: strict equality with a number. *)
Definition is_ERROR (v : value) : bool :=
  match v with VNum n => n =? 0 | _ => false end.

Definition is_SUCCESS (v : value) : bool :=
  match v with VNum n => n =? 1 | _ => false end.

(** JavaScript truthiness, used by [if (path)], [err ? .. : ..], [EX || ..]. *)
Definition truthy (v : value) : bool :=
  match v with
  | VUndefined | VNull => false
  | VBool b => b
  | VNum n => negb (n =? 0)
  | VStr s => negb (s =? EmptyString)%string
  | _ => true
  end.

Inductive outcome (A : Type) : Type :=
  | Ret (a : A)
  | Throw (e : error).
Arguments Ret {A} a.
Arguments Throw {A} e.

(** ** The file tree behind the native layer *)

#[warnings="-register-all"]
Inductive node : Type :=
  | FileNode (data : list Z)
  | DirNode (entries : list (string * node)).

(** ** Objects of the module *)

(** A [File] handle: the four fields assigned by [setup]. *)
Record File : Type := mkFile {
  path : string;
  onUnwatchDelete : bool;
  watcher : option nat;
  fd : Z
}.

(** The cursor part of a [FileInputStream]; its [file] field is the handle
    kept in the machine state. *)
Record FileInputStream : Type := mkStream {
  buf : option (list Z);
  pos : Z;
  count : Z;
  markPos : Z
}.

(** The machine state: the file tree and working directory of the process,
    the table of open descriptors (descriptor, path segments from the root),
    the module-level [EX] slot, the record of the calls made to the caller's
    callback, and the two objects under consideration. *)
Record state : Type := mkState {
  root : node;
  cwd : list string;
  fds : list (Z * list string);
  EX : value;
  calls : list (value * value);
  self : File;
  stream : FileInputStream
}.

Definition M (A : Type) : Type := state -> outcome A * state.

Definition ret {A} (a : A) : M A := fun st => (Ret a, st).

Definition throw {A} (e : error) : M A := fun st => (Throw e, st).

Definition bind {A B} (m : M A) (f : A -> M B) : M B :=
  fun st =>
    match m st with
    | (Ret a, st') => f a st'
    | (Throw e, st') => (Throw e, st')
    end.

Declare Scope js_scope.
Delimit Scope js_scope with js.
Notation "x <- m ;; k" := (bind m (fun x => k))
  (at level 61, m at next level, right associativity) : js_scope.
Notation "m ;; k" := (bind m (fun _ => k))
  (at level 61, right associativity) : js_scope.
Local Open Scope js_scope.

Definition get : M state := fun st => (Ret st, st).

Definition modify (f : state -> state) : M unit := fun st => (Ret tt, f st).

(** [try { body } catch (ex) { handler ex }] *)
Definition try_catch {A} (body : M A) (handler : error -> M A) : M A :=
  fun st =>
    match body st with
    | (Throw e, st') => handler e st'
    | r => r
    end.

(** The pattern used by every synchronous primitive:
    [[
      let code = SUCCESS;
      try { x = body } catch (ex) { code = ERROR; handler(ex) }
      finally { return code !== ERROR ? x : ERROR }
    ]]
    The [return] in [finally] discards whatever the handler throws. *)
Definition try_catch_finally (body : M value) (handler : error -> M unit)
  : M value :=
  fun st =>
    match body st with
    | (Ret x, st') => (Ret x, st')
    | (Throw e, st') => (Ret ERROR, snd (handler e st'))
    end.

(** A callback [(code, payload) => ...]. *)
Definition callback : Type := value -> value -> M unit.

(** An asynchronous native call: perform [op], then enter its completion
    callback with [(err, result)]. *)
Definition async {A} (op : M A) (k : option error -> option A -> M unit)
  : M unit :=
  fun st =>
    match op st with
    | (Ret a, st') => k None (Some a) st'
    | (Throw e, st') => k (Some e) None st'
    end.

(** State updates. *)
Definition set_root (r : node) (st : state) : state :=
  mkState r (cwd st) (fds st) (EX st) (calls st) (self st) (stream st).

Definition set_fds (t : list (Z * list string)) (st : state) : state :=
  mkState (root st) (cwd st) t (EX st) (calls st) (self st) (stream st).

Definition set_EX (v : value) (st : state) : state :=
  mkState (root st) (cwd st) (fds st) v (calls st) (self st) (stream st).

Definition set_calls (c : list (value * value)) (st : state) : state :=
  mkState (root st) (cwd st) (fds st) (EX st) c (self st) (stream st).

Definition set_self (f : File) (st : state) : state :=
  mkState (root st) (cwd st) (fds st) (EX st) (calls st) f (stream st).

Definition set_stream (s : FileInputStream) (st : state) : state :=
  mkState (root st) (cwd st) (fds st) (EX st) (calls st) (self st) s.

(** The callback a caller passes in: it records the pair it is called with. *)
Definition record_call : callback :=
  fun code payload => modify (fun st => set_calls (calls st ++ [(code, payload)]) st).

(** ** Identifier resolution

    The body of a function sees its own parameters, the bindings of the
    module and the globals of the runtime.  Reading any other identifier
    throws [ReferenceError: x is not defined]. *)

(** Imports and top-level declarations of [file.js] (lines 2-63, 65, 67,
    231-263, 265, 310, 312). *)
Definition module_bindings : list string :=
  [ "execFile"; "execFileSync";
    "access"; "accessSync"; "appendFile"; "appendFileSync"; "close";
    "closeSync"; "chmod"; "chmodSync"; "constants"; "createReadStream";
    "fdatasync"; "fdatasyncSync"; "fstat"; "fstatSync"; "fsync"; "fsyncSync";
    "ftruncate"; "ftruncateSync"; "futimes"; "futimesSync"; "mkdir";
    "mkdirSync"; "mkdtemp"; "mkdtempSync"; "open"; "openSync"; "read";
    "readSync"; "readdir"; "readdirSync"; "readFile"; "readFileSync";
    "realpath"; "realpathSync"; "rename"; "renameSync"; "rmdir"; "rmdirSync";
    "statSync"; "stat"; "symlink"; "symlinkSync"; "truncate"; "truncateSync";
    "unlink"; "unlinkSync"; "utimes"; "utimesSync"; "watch"; "unwatch";
    "write"; "writeSync"; "writeFileSync";
    "basename"; "dirname"; "extname"; "isAbsolute"; "join"; "normalize";
    "parse"; "resolve"; "sep";
    "EventEmitter"; "homedir"; "tmpdir"; "util"; "ByteBuffer"; "InputStream";
    "IS_WIN"; "FileInputStream";
    "READ"; "READ_WRITE"; "READ_SYNC"; "READ_WRITE_SYNC"; "WRITE";
    "WRITE_EXCLUSIVE"; "WRITE_CREATE"; "WRITE_CREATE_EXCLUSIVE"; "APPEND";
    "APPEND_EXCLUSIVE"; "APPEND_READ"; "APPEND_READ_EXCLUSIVE";
    "SUCCESS"; "ERROR"; "FILE"; "DIR";
    "handleError"; "handleSuccess"; "FilenameFilter"; "EX"; "File" ]%string.

(** Globals of the runtime that [file.js] refers to. *)
Definition runtime_globals : list string :=
  [ "process"; "console"; "Buffer"; "Math"; "Date"; "isNaN"; "Uint8Array";
    "ReferenceError"; "TypeError"; "RangeError"; "undefined" ]%string.

Definition in_scope (params : list string) (x : string) : bool :=
  existsb (String.eqb x) (params ++ module_bindings ++ runtime_globals).

(** [ident params x v]: evaluate the identifier [x] inside a function whose
    parameters are [params]; [v] is what the binding holds when there is
    one. *)
Definition ident {A} (params : list string) (x : string) (v : A) : M A :=
  if in_scope params x then ret v
  else throw (ReferenceError (x ++ " is not defined")).

(** ** FileInputStream: the cursor operations (lines 76-104, 165-201) *)

(** [available() { return this.count - this.pos; }] *)
Definition available (s : FileInputStream) : Z := count s - pos s.

(** [ensureOpen()] *)
Definition ensureOpen (s : FileInputStream) : outcome unit :=
  match buf s with
  | None => Throw (ReferenceError "Stream closed")
  | Some _ => Ret tt
  end.

(** [mark(readAheadLimit) { this.markPos = this.pos; }] *)
Definition mark (s : FileInputStream) : FileInputStream :=
  mkStream (buf s) (pos s) (count s) (pos s).

(** [markSupported() { return true; }] *)
Definition markSupported (s : FileInputStream) : bool := true.

(** [reset() { this.pos = this.markPos; }] *)
Definition reset (s : FileInputStream) : FileInputStream :=
  mkStream (buf s) (markPos s) (count s) (markPos s).

(** [skip(n)] returns the number of bytes skipped and the new cursor. *)
Definition skip (n : Z) (s : FileInputStream) : Z * FileInputStream :=
  let n := if pos s + n >? count s then count s - pos s else n in
  if n <? 0 then (0, s)
  else (n, mkStream (buf s) (pos s + n) (count s) (markPos s)).

(** Element read [a[i]] of a byte array; an index outside the array reads
    [undefined]. *)
Definition element (a : list Z) (i : Z) : option Z :=
  if i <? 0 then None else nth_error a (Z.to_nat i).

(** [undefined & 0xff] is [0]. *)
Definition and_0xff (x : option Z) : Z :=
  match x with Some b => Z.land b 255 | None => 0 end.

(** Element write [a[i] = v] on a fixed-length byte array; a write outside the
    array is dropped. *)
Fixpoint store_nat (a : list Z) (i : nat) (v : Z) : list Z :=
  match a, i with
  | [], _ => []
  | _ :: r, O => v :: r
  | x :: r, S i' => x :: store_nat r i' v
  end.

Definition store (a : list Z) (i : Z) (v : Z) : list Z :=
  if i <? 0 then a else store_nat a (Z.to_nat i) v.

(** Copying [len] elements one by one, from the lowest index up. *)
Fixpoint arraycopy_nat (src : list Z) (srcPos : Z) (dst : list Z) (dstPos : Z)
  (len : nat) : list Z :=
  match len with
  | O => dst
  | S len' =>
      arraycopy_nat src (srcPos + 1)
        (store dst dstPos (match element src srcPos with Some b => b | None => 0 end))
        (dstPos + 1) len'
  end.

(** Modelled from the spec: [util.arraycopy(src, srcPos, dst, dstPos, len)]
    of the package hjs-core, which [read] calls and which is not part of
    [lib/file.js].  The spec has [read] copy the bytes it counts (section
    4.5: it copies up to the lesser of the requested length and the
    remaining bytes), so the helper is taken to copy [len] elements.  No
    theorem below says what lands in the destination of [read]: they are
    about the number it returns and the cursors it moves. *)
Definition arraycopy (src : list Z) (srcPos : Z) (dst : list Z) (dstPos : Z)
  (len : Z) : list Z :=
  arraycopy_nat src srcPos dst dstPos (Z.to_nat len).

(** The result of [read]: the returned number, the destination array after the
    call and the stream after the call. *)
Record read_result : Type := mkRead {
  read_value : Z;
  read_dest : option (list Z);
  read_stream : FileInputStream
}.

(** [read(b = null, off = 0, len = 0)] *)
Definition read (b : option (list Z)) (off len : Z) (s : FileInputStream)
  : outcome read_result :=
  match buf s with
  | None => Throw (ReferenceError "Stream closed")
  | Some data =>
      match b with
      | Some dest =>
          let blen := Z.of_nat (List.length dest) in
          let len := if len =? 0 then blen else len in
          if (off <? 0) || (len <? 0) || (len >? blen - off) then
            Throw (RangeError "IndexOutOfBoundsException")
          else if pos s >=? count s then
            Ret (mkRead (-1) b s)
          else
            let len := if pos s + len >? count s then count s - pos s else len in
            if len <=? 0 then Ret (mkRead 0 b s)
            else
              Ret (mkRead len
                     (Some (arraycopy data (pos s) dest off len))
                     (mkStream (buf s) (pos s + len) (count s) (markPos s)))
      | None =>
          if pos s <? count s then
            Ret (mkRead (and_0xff (element data (pos s))) None
                   (mkStream (buf s) (pos s + 1) (count s) (markPos s)))
          else Ret (mkRead (-1) None s)
      end
  end.

(** The cursor part of [close]: [this.buf = null; this.pos = this.count =
    this.markPos = 0]. *)
Definition close_cursor (s : FileInputStream) : FileInputStream :=
  mkStream None 0 0 0.

(** The window set at the end of [open], in both strategies (lines 125-131
    and 144-150). *)
Definition set_window (offset length size : Z) (s : FileInputStream)
  : FileInputStream :=
  if (offset >? 0) && (length >? 0) then
    mkStream (buf s) offset (Z.min (offset + length) size) (markPos s)
  else
    mkStream (buf s) 0 size (markPos s).

(** ** The [path] module, POSIX flavour

    [file.js] imports [join], [normalize], [resolve] and [sep] from the
    runtime.  The model covers the paths the runtime leaves as they are up
    to empty and [.] segments: paths without [..] segments and without a
    trailing separator.  Empty and [.] segments are dropped.  (The runtime
    resolves a [..] segment against the segment before it and keeps a
    trailing separator, with which a path names a directory only; here a
    [..] segment is kept as a name and a trailing separator is dropped.) *)


Definition is_sep (c : ascii) : bool := Ascii.eqb c "/".

(** [s.split(sep)] *)
Fixpoint split (s : string) : list string :=
  match s with
  | EmptyString => [EmptyString]
  | String c r =>
      if is_sep c then EmptyString :: split r
      else
        match split r with
        | [] => [String c EmptyString]
        | h :: t => String c h :: t
        end
  end.

Definition nonempty (x : string) : bool := negb (x =? EmptyString)%string.

(** A segment that names an entry: neither empty nor [.]. *)
Definition names_entry (x : string) : bool :=
  negb (x =? EmptyString)%string && negb (x =? ".")%string.

Definition segments (s : string) : list string := filter names_entry (split s).

Definition isAbsolute (s : string) : bool :=
  match s with
  | String c _ => is_sep c
  | EmptyString => false
  end.

(** Segments written back with [sep] between them. *)
Fixpoint unsplit (l : list string) : string :=
  match l with
  | [] => EmptyString
  | [x] => x
  | x :: r => x ++ "/" ++ unsplit r
  end.

(** No separator occurs in [s]. *)
Fixpoint slash_free (s : string) : bool :=
  match s with
  | EmptyString => true
  | String c r => negb (is_sep c) && slash_free r
  end.

(** [normalize(s)] *)
Definition normalize (s : string) : string :=
  let body := unsplit (segments s) in
  if isAbsolute s then "/" ++ body
  else if (body =? EmptyString)%string then "." else body.

(** [join(...args)]: the non-empty arguments glued with [sep], normalized;
    ["."] when nothing is left. *)
Definition join (args : list string) : string :=
  match filter nonempty args with
  | [] => "."
  | l => normalize (unsplit l)
  end.

(** [resolve(...args)] against the working directory [wd] (as segments): an
    absolute argument restarts from the root. *)
Fixpoint resolve_segments (acc : list string) (args : list string)
  : list string :=
  match args with
  | [] => acc
  | a :: r =>
      resolve_segments (if isAbsolute a then segments a else acc ++ segments a) r
  end.

Definition resolve (wd : list string) (args : list string) : string :=
  "/" ++ unsplit (resolve_segments wd args).

(** ** The global [isNaN] on the values [File.stat] receives

    A string is a number for [isNaN] when, trimmed of blanks, it is empty or
    a numeric literal: signed decimal with optional fraction and exponent,
    [Infinity], or an unsigned [0x]/[0o]/[0b] integer. *)

Definition is_digit (c : ascii) : bool :=
  let n := nat_of_ascii c in (48 <=? n)%nat && (n <=? 57)%nat.

Definition is_hex_digit (c : ascii) : bool :=
  let n := nat_of_ascii c in
  is_digit c || ((65 <=? n)%nat && (n <=? 70)%nat)
  || ((97 <=? n)%nat && (n <=? 102)%nat).

Definition is_blank (c : ascii) : bool :=
  let n := nat_of_ascii c in
  (n =? 32)%nat || ((9 <=? n)%nat && (n <=? 13)%nat).

Fixpoint drop_while (f : ascii -> bool) (l : list ascii) : list ascii :=
  match l with
  | c :: r => if f c then drop_while f r else l
  | [] => []
  end.

Definition trim (l : list ascii) : list ascii :=
  rev (drop_while is_blank (rev (drop_while is_blank l))).

Definition all_of (f : ascii -> bool) (l : list ascii) : bool :=
  match l with [] => false | _ => forallb f l end.

Definition drop_sign (l : list ascii) : list ascii :=
  match l with
  | c :: r => if (Ascii.eqb c "+" || Ascii.eqb c "-")%bool then r else l
  | [] => []
  end.

Definition exponent_ok (l : list ascii) : bool :=
  match l with
  | [] => true
  | c :: r =>
      (Ascii.eqb c "e" || Ascii.eqb c "E") && all_of is_digit (drop_sign r)
  end.

Definition decimal_ok (l : list ascii) : bool :=
  let r := drop_while is_digit l in
  let int_part := negb (List.length r =? List.length l)%nat in
  match r with
  | c :: r2 =>
      if Ascii.eqb c "." then
        let r3 := drop_while is_digit r2 in
        let frac_part := negb (List.length r3 =? List.length r2)%nat in
        (int_part || frac_part) && exponent_ok r3
      else int_part && exponent_ok r
  | [] => int_part
  end.

Definition radix_ok (l : list ascii) : bool :=
  match l with
  | z :: x :: r =>
      Ascii.eqb z "0" &&
      (((Ascii.eqb x "x" || Ascii.eqb x "X") && all_of is_hex_digit r)
       || ((Ascii.eqb x "o" || Ascii.eqb x "O")
           && all_of (fun c => is_digit c && negb (Ascii.eqb c "8") && negb (Ascii.eqb c "9")) r)
       || ((Ascii.eqb x "b" || Ascii.eqb x "B")
           && all_of (fun c => Ascii.eqb c "0" || Ascii.eqb c "1") r))
  | _ => false
  end.

Definition numeric_string (s : string) : bool :=
  let l := trim (list_ascii_of_string s) in
  match l with
  | [] => true
  | _ =>
      radix_ok l
      || (string_of_list_ascii (drop_sign l) =? "Infinity")%string
      || decimal_ok (drop_sign l)
  end.

(** [isNaN(v)] *)
Definition isNaN (v : value) : bool :=
  match v with
  | VNum _ | VNull | VBool _ => false
  | VStr s => negb (numeric_string s)
  | _ => true
  end.

(** ** The native [fs] layer

    Every entry of the tree is readable and writable: a native call fails
    only for the shape of the tree (missing entry, wrong kind, directory not
    empty, descriptor not open).  Permission bits ([mode]) are carried but
    not interpreted. *)

Fixpoint assoc (k : string) (es : list (string * node)) : option node :=
  match es with
  | [] => None
  | (k', c) :: r => if (k' =? k)%string then Some c else assoc k r
  end.

Fixpoint set_entry (k : string) (v : node) (es : list (string * node))
  : list (string * node) :=
  match es with
  | [] => [(k, v)]
  | (k', c) :: r =>
      if (k' =? k)%string then (k', v) :: r else (k', c) :: set_entry k v r
  end.

Fixpoint remove_entry (k : string) (es : list (string * node))
  : list (string * node) :=
  match es with
  | [] => []
  | (k', c) :: r =>
      if (k' =? k)%string then r else (k', c) :: remove_entry k r
  end.

(** Follow the segments [p] down from [n]. *)
Fixpoint walk (p : list string) (n : node) : errno + node :=
  match p with
  | [] => inr n
  | k :: p' =>
      match n with
      | FileNode _ => inl ENOTDIR
      | DirNode es =>
          match assoc k es with
          | Some c => walk p' c
          | None => inl ENOENT
          end
      end
  end.

(** Set the entry at [p] to [v]; the parent of [p] has to be a directory. *)
Fixpoint put (p : list string) (v : node) (n : node) : node :=
  match p with
  | [] => v
  | k :: p' =>
      match n with
      | FileNode _ => n
      | DirNode es =>
          match assoc k es with
          | Some c => DirNode (set_entry k (put p' v c) es)
          | None =>
              match p' with
              | [] => DirNode (set_entry k v es)
              | _ => n
              end
          end
      end
  end.

(** Remove the entry at [p]. *)
Fixpoint del (p : list string) (n : node) : node :=
  match p with
  | [] => n
  | k :: p' =>
      match n with
      | FileNode _ => n
      | DirNode es =>
          match p' with
          | [] => DirNode (remove_entry k es)
          | _ =>
              match assoc k es with
              | Some c => DirNode (set_entry k (del p' c) es)
              | None => n
              end
          end
      end
  end.

(** The segments, from the root, that a path string denotes for the
    process. *)
Definition locate (st : state) (s : string) : list string :=
  (if isAbsolute s then [] else cwd st) ++ segments s.

(** Path resolution of a native call: the empty string names nothing. *)
Definition native_path (s : string) : M (list string) :=
  fun st =>
    if (s =? EmptyString)%string then (Throw (SystemError ENOENT), st)
    else (Ret (locate st s), st).

Definition native_walk (s : string) : M node :=
  p <- native_path s ;;
  st <- get ;;
  match walk p (root st) with
  | inr n => ret n
  | inl e => throw (SystemError e)
  end.

(** The path [q] resolves to an entry of the tree. *)
Definition accessible (st : state) (q : string) : Prop :=
  q <> EmptyString /\ exists n, walk (locate st q) (root st) = inr n.

(** The path [src] is read from the working directory: it is relative, or
    the working directory is the root. *)
Definition from_cwd (st : state) (src : string) : Prop :=
  isAbsolute src = false \/ cwd st = [].

(** [accessSync(path, mode)] *)
Definition accessSync (s : string) (mode : Z) : M unit :=
  _ <- native_walk s ;; ret tt.

Definition stats_of (n : node) : Stats :=
  match n with
  | FileNode d => mkStats KFile (Z.of_nat (List.length d))
  | DirNode es => mkStats KDir (Z.of_nat (List.length es))
  end.

(** [statSync(path)] *)
Definition statSync (s : string) : M Stats :=
  n <- native_walk s ;; ret (stats_of n).

Fixpoint fd_lookup (d : Z) (t : list (Z * list string)) : option (list string) :=
  match t with
  | [] => None
  | (d', p) :: r => if d' =? d then Some p else fd_lookup d r
  end.

(** [fstatSync(fd)]: the argument has to be a number. *)
Definition fstatSync (v : value) : M Stats :=
  match v with
  | VNum d =>
      st <- get ;;
      match fd_lookup d (fds st) with
      | Some p =>
          match walk p (root st) with
          | inr n => ret (stats_of n)
          | inl _ => throw (SystemError EBADF)
          end
      | None => throw (SystemError EBADF)
      end
  | _ => throw (TypeError "The fd argument must be of type number")
  end.

Definition parent_of (p : list string) : list string := removelast p.

(** Create the entry [v] at [s]: the entry must be absent and its parent a
    directory. *)
Definition create_entry (s : string) (v : node) : M unit :=
  p <- native_path s ;;
  st <- get ;;
  match walk p (root st) with
  | inr _ => throw (SystemError EEXIST)
  | inl ENOENT =>
      match walk (parent_of p) (root st) with
      | inr (DirNode _) => modify (set_root (put p v (root st)))
      | inr (FileNode _) => throw (SystemError ENOTDIR)
      | inl e => throw (SystemError e)
      end
  | inl e => throw (SystemError e)
  end.

(** [mkdirSync(path, mode)] *)
Definition mkdirSync (s : string) (mode : Z) : M unit :=
  create_entry s (DirNode []).

(** [rmdirSync(path)] *)
Definition rmdirSync (s : string) : M unit :=
  p <- native_path s ;;
  st <- get ;;
  match walk p (root st) with
  | inr (DirNode []) =>
      match p with
      | [] => throw (SystemError ENOTEMPTY)
      | _ => modify (set_root (del p (root st)))
      end
  | inr (DirNode _) => throw (SystemError ENOTEMPTY)
  | inr (FileNode _) => throw (SystemError ENOTDIR)
  | inl e => throw (SystemError e)
  end.

(** [unlinkSync(path)] *)
Definition unlinkSync (s : string) : M unit :=
  p <- native_path s ;;
  st <- get ;;
  match walk p (root st) with
  | inr (FileNode _) => modify (set_root (del p (root st)))
  | inr (DirNode _) => throw (SystemError EISDIR)
  | inl e => throw (SystemError e)
  end.

(** [readdirSync(path, options)] *)
Definition readdirSync (s : string) : M (list string) :=
  n <- native_walk s ;;
  match n with
  | DirNode es => ret (map fst es)
  | FileNode _ => throw (SystemError ENOTDIR)
  end.

(** [readFileSync(path)]: the bytes of the file.  (With an encoding the
    caller gets [utf8_text] of them, see [readFileOrDir].) *)
Definition readFileSync (s : string) : M (list Z) :=
  n <- native_walk s ;;
  match n with
  | FileNode d => ret d
  | DirNode _ => throw (SystemError EISDIR)
  end.

(** Open flags: [r], [r+], [rs], [rs+] need the file to exist; a flag with
    [x] refuses an existing file; [w] flags truncate. *)
Definition has_char (c : ascii) (s : string) : bool :=
  existsb (Ascii.eqb c) (list_ascii_of_string s).

Definition first_char_is (c : ascii) (s : string) : bool :=
  match s with String c' _ => Ascii.eqb c c' | EmptyString => false end.

Definition next_fd (t : list (Z * list string)) : Z :=
  1 + fold_right (fun e m => Z.max (fst e) m) 2 t.

Definition allocate_fd (p : list string) : M Z :=
  st <- get ;;
  let d := next_fd (fds st) in
  modify (set_fds ((d, p) :: fds st)) ;;
  ret d.

(** [openSync(path, flags, mode)] *)
Definition openSync (s : string) (flags : string) (mode : Z) : M Z :=
  p <- native_path s ;;
  st <- get ;;
  match walk p (root st) with
  | inr (DirNode _) =>
      if first_char_is "r" flags && negb (has_char "+" flags) then allocate_fd p
      else throw (SystemError EISDIR)
  | inr (FileNode _) =>
      if has_char "x" flags then throw (SystemError EEXIST)
      else if first_char_is "w" flags then
        modify (set_root (put p (FileNode []) (root st))) ;; allocate_fd p
      else allocate_fd p
  | inl ENOENT =>
      if first_char_is "r" flags then throw (SystemError ENOENT)
      else create_entry s (FileNode []) ;; allocate_fd p
  | inl e => throw (SystemError e)
  end.

Fixpoint fd_remove (d : Z) (t : list (Z * list string)) : list (Z * list string) :=
  match t with
  | [] => []
  | (d', p) :: r => if d' =? d then r else (d', p) :: fd_remove d r
  end.

(** [closeSync(fd)] *)
Definition closeSync (d : Z) : M unit :=
  st <- get ;;
  match fd_lookup d (fds st) with
  | Some _ => modify (set_fds (fd_remove d (fds st)))
  | None => throw (SystemError EBADF)
  end.

(** The file behind an open descriptor. *)
Definition fd_file (d : Z) : M (list string * list Z) :=
  st <- get ;;
  match fd_lookup d (fds st) with
  | Some p =>
      match walk p (root st) with
      | inr (FileNode data) => ret (p, data)
      | inr (DirNode _) => throw (SystemError EISDIR)
      | inl _ => throw (SystemError EBADF)
      end
  | None => throw (SystemError EBADF)
  end.

(** [data] with [bytes] written at index [at_], zero-filled when the write
    starts past the end. *)
Definition overwrite (data : list Z) (at_ : nat) (bytes : list Z) : list Z :=
  firstn at_ (data ++ repeat 0 (at_ - List.length data)%nat)
  ++ bytes ++ skipn (at_ + List.length bytes) data.

(** [writeSync(fd, buffer, offset, length, position)] for a byte buffer. *)
Definition writeSync (d : Z) (buffer : list Z) (offset length position : Z)
  : M Z :=
  if (offset <? 0) || (length <? 0)
     || (offset + length >? Z.of_nat (List.length buffer)) || (position <? 0)
  then throw (RangeError "ERR_OUT_OF_RANGE")
  else
    f <- fd_file d ;;
    let bytes := firstn (Z.to_nat length) (skipn (Z.to_nat offset) buffer) in
    st <- get ;;
    modify (set_root (put (fst f)
                        (FileNode (overwrite (snd f) (Z.to_nat position) bytes))
                        (root st))) ;;
    ret (Z.of_nat (List.length bytes)).

(** [buffer] with [bytes] put at index [offset]. *)
Definition received (bytes buffer : list Z) (offset : Z) : list Z :=
  arraycopy_nat bytes 0 buffer offset (List.length bytes).

(** [readSync(fd, buffer, offset, length, position)]: the buffer after the
    read and the number of bytes read. *)
Definition readSync (d : Z) (buffer : list Z) (offset length position : Z)
  : M (list Z * Z) :=
  if (offset <? 0) || (length <? 0)
     || (offset + length >? Z.of_nat (List.length buffer)) || (position <? 0)
  then throw (RangeError "ERR_OUT_OF_RANGE")
  else
    f <- fd_file d ;;
    let bytes := firstn (Z.to_nat length) (skipn (Z.to_nat position) (snd f)) in
    ret (received bytes buffer offset, Z.of_nat (List.length bytes)).

(** The bytes of a string; for an ASCII string they are the code units
    that [charCodeAt] gives. *)
Definition char_codes (s : string) : list Z :=
  map (fun c => Z.of_nat (nat_of_ascii c)) (list_ascii_of_string s).

Definition string_of_codes (l : list Z) : string :=
  string_of_list_ascii (map (fun b => ascii_of_nat (Z.to_nat b)) l).

(** *** Decoding UTF-8

    With an encoding the runtime hands out strings: [readFileSync(path,
    { encoding: 'utf8' })] decodes the whole file, and a read stream created
    with [encoding: 'utf8'] decodes chunk by chunk, keeping the bytes of a
    character that a chunk leaves unfinished for the next one.  The decoder
    below is the one of the Encoding Standard: a byte that cannot start or
    continue a character gives U+FFFD. *)

(** The decoder between two bytes: no character under way, or one of which
    [more] bytes are missing, the next of them within [lower .. upper]. *)
Inductive utf8_state : Type :=
  | Idle
  | Pending (code_point : Z) (more : nat) (lower upper : Z).

Definition replacement : Z := 65533.

(** A byte read when no character is under way. *)
Definition utf8_lead (b : Z) : utf8_state * list Z :=
  if b <=? 127 then (Idle, [b])
  else if (194 <=? b) && (b <=? 223) then
    (Pending (Z.land b 31) 1 128 191, [])
  else if (224 <=? b) && (b <=? 239) then
    (Pending (Z.land b 15) 2
       (if b =? 224 then 160 else 128) (if b =? 237 then 159 else 191), [])
  else if (240 <=? b) && (b <=? 244) then
    (Pending (Z.land b 7) 3
       (if b =? 240 then 144 else 128) (if b =? 244 then 143 else 191), [])
  else (Idle, [replacement]).

(** One byte: the new state and the code points that are complete. *)
Definition utf8_step (s : utf8_state) (b : Z) : utf8_state * list Z :=
  match s with
  | Idle => utf8_lead b
  | Pending cp more lower upper =>
      if (lower <=? b) && (b <=? upper) then
        let cp' := Z.lor (Z.shiftl cp 6) (Z.land b 63) in
        match more with
        | S (S m) => (Pending cp' (S m) 128 191, [])
        | _ => (Idle, [cp'])
        end
      else (fst (utf8_lead b), replacement :: snd (utf8_lead b))
  end.

(** [decoder.write(chunk)] *)
Fixpoint utf8_write (s : utf8_state) (chunk : list Z) : utf8_state * list Z :=
  match chunk with
  | [] => (s, [])
  | b :: r =>
      (fst (utf8_write (fst (utf8_step s b)) r),
       snd (utf8_step s b) ++ snd (utf8_write (fst (utf8_step s b)) r))%list
  end.

Definition is_pending (s : utf8_state) : bool :=
  match s with Idle => false | Pending _ _ _ _ => true end.

(** [decoder.end()] *)
Definition utf8_end (s : utf8_state) : list Z :=
  match s with
  | Idle => []
  | Pending _ _ _ _ => [replacement]
  end.

(** The code points of a whole byte sequence. *)
Definition utf8_decode (data : list Z) : list Z :=
  (snd (utf8_write Idle data) ++ utf8_end (fst (utf8_write Idle data)))%list.

(** A code point as UTF-16 code units, which is what [charCodeAt] reads, and
    as UTF-8 bytes. *)
Definition utf16_units (cp : Z) : list Z :=
  if cp <? 65536 then [cp]
  else [55296 + Z.shiftr (cp - 65536) 10; 56320 + Z.land (cp - 65536) 1023].

Definition utf8_bytes (cp : Z) : list Z :=
  if cp <? 128 then [cp]
  else if cp <? 2048 then [192 + Z.shiftr cp 6; 128 + Z.land cp 63]
  else if cp <? 65536 then
    [224 + Z.shiftr cp 12; 128 + Z.land (Z.shiftr cp 6) 63; 128 + Z.land cp 63]
  else
    [240 + Z.shiftr cp 18; 128 + Z.land (Z.shiftr cp 12) 63;
     128 + Z.land (Z.shiftr cp 6) 63; 128 + Z.land cp 63].

(** The string that the bytes [data] decode to. *)
Definition utf8_text (data : list Z) : string :=
  string_of_codes (flat_map utf8_bytes (utf8_decode data)).

(** The strings that a stream with [encoding: 'utf8'] delivers for the
    chunks of bytes it reads, each as the list of its code units: one for
    every chunk that completes a character, and one for the character left
    unfinished at the end of the data. *)
Fixpoint utf8_strings (s : utf8_state) (chunks : list (list Z))
  : list (list Z) :=
  match chunks with
  | [] =>
      match utf8_end s with
      | [] => []
      | cps => [flat_map utf16_units cps]
      end
  | c :: r =>
      match snd (utf8_write s c) with
      | [] => utf8_strings (fst (utf8_write s c)) r
      | cps => flat_map utf16_units cps :: utf8_strings (fst (utf8_write s c)) r
      end
  end.

(** [writeFileSync(path, data, options)] with the default flag [w]. *)
Definition writeFileSync (s : string) (data : list Z) : M unit :=
  p <- native_path s ;;
  st <- get ;;
  match walk p (root st) with
  | inr (DirNode _) => throw (SystemError EISDIR)
  | inr (FileNode _) => modify (set_root (put p (FileNode data) (root st)))
  | inl ENOENT => create_entry s (FileNode data)
  | inl e => throw (SystemError e)
  end.

(** What a read stream created by [createReadStream(path, {fd, start, end})]
    delivers: the bytes [start..end] (both inclusive) of the file behind
    [fd], in chunks of at most [highWaterMark] bytes. *)
Definition highWaterMark : nat := Z.to_nat 65536.

Fixpoint chunks_of (fuel : nat) (size : nat) (l : list Z) : list (list Z) :=
  match fuel, l with
  | _, [] => []
  | O, _ => [l]
  | S fuel', _ => firstn size l :: chunks_of fuel' size (skipn size l)
  end.

Definition stream_chunks (d : Z) (start end_ : Z) : M (list (list Z)) :=
  f <- fd_file d ;;
  let window :=
    firstn (Z.to_nat (end_ - start + 1)) (skipn (Z.to_nat start) (snd f)) in
  ret (chunks_of (List.length window) highWaterMark window).

(** [constants.F_OK], [R_OK], [W_OK], [X_OK] *)
Definition F_OK : Z := 0.
Definition R_OK : Z := 4.
Definition W_OK : Z := 2.
Definition X_OK : Z := 1.

(** ** [handleError] and [handleSuccess] (lines 249-263) *)

Definition handleError (ex : value) (cb : option callback) : M unit :=
  match cb with
  | Some f => f ERROR ex
  | None => modify (set_EX ex)
  end.

Definition handleSuccess (result : value) (cb : option callback) : M value :=
  match cb with
  | None => ret result
  | Some f => f SUCCESS result ;; ret VNull
  end.

(** The completion callback [(err, x) => { err ? handleError(err, cb1) :
    handleSuccess(payload x, cb2) }] shared by the asynchronous branches. *)
Definition completion {A} (cb1 cb2 : option callback) (payload : A -> value)
  : option error -> option A -> M unit :=
  fun err x =>
    match err, x with
    | Some e, _ => handleError (VErr e) cb1
    | None, Some a => _ <- handleSuccess (payload a) cb2 ;; ret tt
    | None, None => _ <- handleSuccess VUndefined cb2 ;; ret tt
    end.

(** ** Static primitives of [File] *)

Definition undefined_after (m : M unit) : M value := m ;; ret VUndefined.

(** [static access({ src, mode, onExists, sync })] (lines 333-357).  The
    synchronous branch calls [accessSync(src)] without a mode. *)
Definition access (src : option string) (mode : Z) (onExists : option callback)
  (sync : bool) : M value :=
  match src with
  | None =>
      undefined_after
        (handleError (VErr (ReferenceError "SourceNotFoundException")) onExists)
  | Some src =>
      if sync then
        try_catch_finally
          (accessSync src F_OK ;; ret SUCCESS)
          (fun ex => handleError (VErr ex) onExists)
      else
        undefined_after
          (async (accessSync src mode)
             (completion onExists onExists (fun _ => VNull)))
  end.

(** [static closeFd({ src, onClose, sync })] (lines 484-502).  The
    asynchronous completion calls [handleError(err)] with no callback. *)
Definition closeFd (src : option Z) (onClose : option callback) (sync : bool)
  : M value :=
  match src with
  | None =>
      undefined_after
        (handleError (VErr (ReferenceError "FileNotFoundException")) onClose)
  | Some src =>
      if sync then
        try_catch_finally
          (closeSync src ;; ret SUCCESS)
          (fun ex => handleError (VErr ex) onClose)
      else
        undefined_after
          (async (closeSync src) (completion None onClose (fun _ => VNull)))
  end.

(** [static mkdir({ src, mode, onCreate, sync })] (lines 1194-1218).  The
    asynchronous completion calls [handleError(err)] with no callback. *)
Definition mkdir (src : option string) (mode : Z) (onCreate : option callback)
  (sync : bool) : M value :=
  match src with
  | None =>
      undefined_after
        (handleError (VErr (ReferenceError "SourceNotFoundException")) onCreate)
  | Some src =>
      if sync then
        try_catch_finally
          (mkdirSync src mode ;; ret SUCCESS)
          (fun ex => handleError (VErr ex) onCreate)
      else
        undefined_after
          (async (mkdirSync src mode) (completion None onCreate (fun _ => VNull)))
  end.

(** [static splitPaths(path)] (lines 1895-1904) *)
Definition splitPaths (path : string) : list string :=
  let parts := split path in
  let len := List.length parts in
  map (fun i => join (firstn i parts)) (seq 1 len).

(** The [for] loop of the synchronous branch of [mkdirs] (lines 1236-1247):
    [rest] holds [queue[i..]]. *)
Fixpoint mkdirs_for (len i : nat) (rest : list string) (mode : Z) : M unit :=
  match rest with
  | [] => ret tt
  | path :: rest' =>
      (if (i =? len - 1)%nat then mkdirSync path mode
       else try_catch (accessSync path R_OK) (fun _ => mkdirSync path mode)) ;;
      mkdirs_for len (S i) rest' mode
  end.

(** The closure [next] of the asynchronous branch of [mkdirs] (lines
    1259-1288); [queue] is what [queue.shift()] has not yet taken. *)
Fixpoint mkdirs_next (queue : list string) (mode : Z) (onCreate : option callback)
  : M unit :=
  match queue with
  | [] => _ <- handleSuccess VNull onCreate ;; ret tt
  | path :: queue' =>
      if truthy (VStr path) then
        match queue' with
        | [] =>
            async (mkdirSync path mode)
              (fun err _ =>
                 match err with
                 | Some e => handleError (VErr e) None
                 | None => mkdirs_next queue' mode onCreate
                 end)
        | _ =>
            async (accessSync path R_OK)
              (fun err _ =>
                 match err with
                 | None => mkdirs_next queue' mode onCreate
                 | Some _ =>
                     async (mkdirSync path mode)
                       (fun err _ =>
                          match err with
                          | Some e => handleError (VErr e) None
                          | None => mkdirs_next queue' mode onCreate
                          end)
                 end)
        end
      else _ <- handleSuccess VNull onCreate ;; ret tt
  end.

(** [queue[0]] as the argument of a native call: [undefined] is refused. *)
Definition first_of (queue : list string) : M string :=
  match queue with
  | q :: _ => ret q
  | [] => throw (TypeError "The path argument must be of type string")
  end.

(** [static mkdirs({ src, mode, onCreate, sync })] (lines 1220-1293) *)
Definition mkdirs (src : option string) (mode : Z) (onCreate : option callback)
  (sync : bool) : M value :=
  match src with
  | None =>
      undefined_after
        (handleError (VErr (ReferenceError "SourceNotFoundException")) onCreate)
  | Some src =>
      let queue := splitPaths src in
      let len := List.length queue in
      if sync then
        try_catch_finally
          ((if (len <? 2)%nat then q <- first_of queue ;; mkdirSync q mode
            else mkdirs_for len 0 queue mode) ;;
           ret SUCCESS)
          (fun ex => handleError (VErr ex) onCreate)
      else
        undefined_after
          (if (len <? 2)%nat then
             q <- first_of queue ;;
             async (mkdirSync q mode) (completion None onCreate (fun _ => VNull))
           else mkdirs_next queue mode onCreate)
  end.

(** [static openFd({ src, flags, mode, onOpen, sync })] (lines 1332-1355) *)
Definition openFd (src : option string) (flags : string) (mode : Z)
  (onOpen : option callback) (sync : bool) : M value :=
  match src with
  | None =>
      undefined_after
        (handleError (VErr (ReferenceError "SourceNotFoundException")) onOpen)
  | Some src =>
      if sync then
        try_catch_finally
          (d <- openSync src flags mode ;; ret (VNum d))
          (fun ex => handleError (VErr ex) onOpen)
      else
        undefined_after
          (async (openSync src flags mode) (completion None onOpen VNum))
  end.

(** [static readFileOrDir({ src, mode, options, onRead, sync })] (lines
    1445-1480).  [options] is taken at its default [{ encoding: 'utf8' }],
    which every caller in [file.js] leaves in place.  The synchronous
    branch passes it to [readFileSync], so the content of a file comes back
    as a string; the asynchronous branch calls [readFile(src, callback)]
    without it, so the callback gets the bytes. *)
Definition readFileOrDir (src : option string) (mode : Z)
  (onRead : option callback) (sync : bool) : M value :=
  match src with
  | None =>
      undefined_after
        (handleError (VErr (ReferenceError "SourceNotFoundException")) onRead)
  | Some src =>
      if sync then
        try_catch_finally
          (if mode =? DIR then l <- readdirSync src ;; ret (VNames l)
           else d <- readFileSync src ;; ret (VStr (utf8_text d)))
          (fun ex => handleError (VErr ex) onRead)
      else
        undefined_after
          (if mode =? DIR then
             async (readdirSync src) (completion onRead onRead VNames)
           else
             async (readFileSync src) (completion onRead onRead VBytes))
  end.

(** [static removeFileOrDir({ src, mode, onRemove, sync })] (lines
    1509-1549) *)
Definition removeFileOrDir (src : option string) (mode : Z)
  (onRemove : option callback) (sync : bool) : M value :=
  match src with
  | None =>
      undefined_after
        (handleError (VErr (ReferenceError "FileNotFoundException")) onRemove)
  | Some src =>
      if sync then
        try_catch_finally
          (accessSync src (Z.lor R_OK W_OK) ;;
           (if mode =? DIR then rmdirSync src else unlinkSync src) ;;
           ret SUCCESS)
          (fun ex => handleError (VErr ex) onRemove)
      else
        undefined_after
          (async (accessSync src (Z.lor R_OK W_OK))
             (fun err _ =>
                match err with
                | Some e => handleError (VErr e) onRemove
                | None =>
                    if mode =? DIR then
                      async (rmdirSync src)
                        (completion onRemove onRemove (fun _ => VNull))
                    else
                      async (unlinkSync src)
                        (completion onRemove onRemove (fun _ => VNull))
                end))
  end.

(** [statSync(src)] and [fstat]/[stat] check the type of their argument
    before anything else. *)
Definition statSync_value (v : value) : M Stats :=
  match v with
  | VStr s => statSync s
  | _ => throw (TypeError "The path argument must be of type string")
  end.

(** [static stat({ src, onStat, sync })] (lines 1906-1931) *)
Definition stat (src : value) (onStat : option callback) (sync : bool)
  : M value :=
  match src with
  | VNull =>
      undefined_after
        (handleError (VErr (ReferenceError "StatNotFoundException")) onStat)
  | _ =>
      if sync then
        try_catch_finally
          (s <- (if negb (isNaN src) then fstatSync src else statSync_value src) ;;
           ret (VStats s))
          (fun ex => handleError (VErr ex) onStat)
      else
        undefined_after
          (if negb (isNaN src) then
             match src with
             | VNum _ => async (fstatSync src) (completion onStat onStat VStats)
             | _ => throw (TypeError "The fd argument must be of type number")
             end
           else
             match src with
             | VStr _ =>
                 async (statSync_value src) (completion onStat onStat VStats)
             | _ => throw (TypeError "The path argument must be of type string")
             end)
  end.

(** The closure [next] of the synchronous branch of [rimraf] (lines
    1604-1625): [queue] is what [queue.shift()] has not yet taken, [rimraf_]
    is the nested call [File.rimraf({ src: path, sync: true })]. *)
Fixpoint rimraf_sync_next (rimraf_ : string -> M value) (src : string)
  (queue : list string) : M value :=
  match queue with
  | [] => removeFileOrDir (Some src) DIR None true
  | path :: queue' =>
      if truthy (VStr path) then
        code <- stat (VStr path) None true ;;
        if negb (is_ERROR code) then
          match code with
          | VStats s =>
              if isDirectory s then
                code <- rimraf_ path ;;
                if negb (is_ERROR code) then rimraf_sync_next rimraf_ src queue'
                else ret code
              else
                code <- removeFileOrDir (Some path) FILE None true ;;
                if negb (is_ERROR code) then rimraf_sync_next rimraf_ src queue'
                else ret code
          | _ => throw (TypeError "code.isDirectory is not a function")
          end
        else ret code
      else removeFileOrDir (Some src) DIR None true
  end.

(** The callback [(code, reason) => { code === SUCCESS ? k : handleError(reason,
    onRemove) }] of the asynchronous branch. *)
Definition on_removed (onRemove : option callback) (k : value -> M unit)
  : option callback :=
  Some (fun code reason =>
          if is_SUCCESS code then k code else handleError reason onRemove).

(** The closure [next] of the asynchronous branch of [rimraf] (lines
    1642-1682); [rimraf_] is the nested call [File.rimraf({ src: path,
    onRemove })]. *)
Fixpoint rimraf_async_next (rimraf_ : string -> option callback -> M value)
  (src : string) (onRemove : option callback) (queue : list string) : M unit :=
  match queue with
  | [] =>
      removeFileOrDir (Some src) DIR
        (on_removed onRemove
           (fun code => _ <- handleSuccess code onRemove ;; ret tt))
        false ;;
      ret tt
  | path :: queue' =>
      if truthy (VStr path) then
        stat (VStr path)
          (Some (fun code stats =>
             if is_ERROR code then handleError stats onRemove
             else
               match stats with
               | VStats s =>
                   if isDirectory s then
                     rimraf_ path
                       (on_removed onRemove
                          (fun _ => rimraf_async_next rimraf_ src onRemove queue')) ;;
                     ret tt
                   else
                     removeFileOrDir (Some path) FILE
                       (on_removed onRemove
                          (fun _ => rimraf_async_next rimraf_ src onRemove queue'))
                       false ;;
                     ret tt
               | _ => throw (TypeError "stats.isDirectory is not a function")
               end))
          false ;;
        ret tt
      else
        removeFileOrDir (Some src) DIR
          (on_removed onRemove
             (fun code => _ <- handleSuccess code onRemove ;; ret tt))
          false ;;
        ret tt
  end.

(** [static rimraf({ src, onRemove, sync })] (lines 1591-1691).  [rimraf]
    calls itself on every sub-directory; [fuel] bounds the depth of these
    nested calls, and running out of it is the stack overflow of the
    runtime. *)
Fixpoint rimraf (fuel : nat) (src : option string) (onRemove : option callback)
  (sync : bool) {struct fuel} : M value :=
  match fuel with
  | O => throw (RangeError "Maximum call stack size exceeded")
  | S fuel' =>
      match src with
      | None =>
          undefined_after
            (handleError (VErr (ReferenceError "FileNotFoundException")) onRemove)
      | Some src =>
          if sync then
            try_catch_finally
              (result <- readFileOrDir (Some src) DIR None true ;;
               if negb (is_ERROR result) then
                 match result with
                 | VNames files =>
                     let queue := map (fun file => join [src; file]) files in
                     rimraf_sync_next
                       (fun path => rimraf fuel' (Some path) None true)
                       src queue
                 | _ => throw (TypeError "result.map is not a function")
                 end
               else ret result)
              (fun ex => handleError (VErr ex) onRemove)
          else
            readFileOrDir (Some src) DIR
              (Some (fun code files =>
                 if is_SUCCESS code then
                   match files with
                   | VNames files =>
                       let queue := map (fun file => join [src; file]) files in
                       if (List.length queue =? 0)%nat then
                         _ <- handleSuccess VNull onRemove ;; ret tt
                       else
                         rimraf_async_next
                           (fun path cb => rimraf fuel' (Some path) cb false)
                           src onRemove queue
                   | _ => throw (TypeError "files.map is not a function")
                   end
                 else handleError VNull onRemove))
              false
      end
  end.

(** [writeSync] on the two kinds of buffer [writeFd] distinguishes. *)
Definition buffer_length (buffer : value) : Z :=
  match buffer with
  | VStr s => Z.of_nat (String.length s)
  | VBytes l => Z.of_nat (List.length l)
  | _ => 0
  end.

Definition is_string (buffer : value) : bool :=
  match buffer with VStr _ => true | _ => false end.

Definition writeSync_value (d : Z) (buffer : value) (offset length position : Z)
  : M Z :=
  match buffer with
  | VStr s => writeSync d (char_codes s) 0 (Z.of_nat (String.length s)) position
  | VBytes l => writeSync d l offset length position
  | _ => throw (TypeError "The buffer argument must be a string or a Buffer")
  end.

Definition writeFd_params : list string :=
  [ "src"; "buffer"; "offset"; "length"; "position"; "encoding"; "onWrite";
    "sync" ]%string.

(** [static writeFd({ src, buffer, offset, length, position, encoding,
    onWrite, sync })] (lines 2108-2149).  The guard on [src] passes the
    identifier [onRead] to [handleError]. *)
Definition writeFd (src : option Z) (buffer : value) (offset length position : Z)
  (onWrite : option callback) (sync : bool) : M value :=
  match src with
  | None =>
      cb <- ident writeFd_params "onRead" None ;;
      undefined_after
        (handleError (VErr (ReferenceError "SourceNotFoundException")) cb)
  | Some src =>
      let length := if length =? 0 then buffer_length buffer else length in
      let isString := is_string buffer in
      if sync then
        try_catch_finally
          (n <- writeSync_value src buffer offset length position ;; ret (VNum n))
          (fun ex => handleError (VErr ex) onWrite)
      else
        undefined_after
          (async (writeSync_value src buffer offset length position)
             (completion onWrite onWrite (fun n => VPair buffer (VNum n))))
  end.

Definition writeFile_params : list string :=
  [ "src"; "buffer"; "encoding"; "mode"; "flag"; "onWrite"; "sync" ]%string.

(** [static writeFile({ src, buffer, encoding, mode, flag, onWrite, sync })]
    (lines 2151-2178).  The asynchronous branch hands the path to [fs.write],
    which refuses a descriptor that is not a number. *)
Definition writeFile (src : option string) (buffer : list Z)
  (onWrite : option callback) (sync : bool) : M value :=
  match src with
  | None =>
      cb <- ident writeFile_params "onRead" None ;;
      undefined_after
        (handleError (VErr (ReferenceError "SourceNotFoundException")) cb)
  | Some src =>
      if sync then
        try_catch_finally
          (writeFileSync src buffer ;; ret SUCCESS)
          (fun ex => handleError (VErr ex) onWrite)
      else throw (TypeError "The fd argument must be of type number")
  end.

Definition execFile_params : list string :=
  [ "src"; "args"; "options"; "onAccess"; "sync" ]%string.

Section Exec.

(** Running a program is left to the runtime: [execFileSync] gives the
    standard output and standard error of the child, or throws. *)
Variable execFileSync : string -> list string -> M (list Z * list Z).

(** [static execFile({ src, args, options, onAccess, sync })] (lines
    784-814).  The guard on [src] passes the identifier [onCreate] to
    [handleError]; the asynchronous completion calls [handleError(err)]
    with no callback. *)
Definition execFile (src : option string) (args : list string)
  (onAccess : option callback) (sync : bool) : M value :=
  match src with
  | None =>
      cb <- ident execFile_params "onCreate" None ;;
      undefined_after
        (handleError (VErr (ReferenceError "SourceNotFoundException")) cb)
  | Some src =>
      if sync then
        try_catch_finally
          (out <- execFileSync src args ;; ret (VBytes (fst out)))
          (fun ex => handleError (VErr ex) onAccess)
      else
        undefined_after
          (async (execFileSync src args)
             (completion None onAccess
                (fun out => VPair (VBytes (fst out)) (VBytes (snd out)))))
  end.

End Exec.

(** [static exception() { return EX; }] (lines 754-756) *)
Definition exception : M value := st <- get ;; ret (EX st).

(** [static readFd({ src, buffer, offset, length, position, onRead, sync })]
    (lines 1412-1443).  The bytes read land in the caller's [buffer]: the
    result is paired with that buffer as it is when the function returns,
    which in the asynchronous mode is before the completion. *)
Definition readFd (src : option Z) (buffer : list Z) (offset length position : Z)
  (onRead : option callback) (sync : bool) : M (value * list Z) :=
  match src with
  | None =>
      handleError (VErr (ReferenceError "SourceNotFoundException")) onRead ;;
      ret (VUndefined, buffer)
  | Some src =>
      let length := if length =? 0 then Z.of_nat (List.length buffer) else length in
      if sync then
        fun st =>
          match readSync src buffer offset length position st with
          | (Ret data, st') => (Ret (VNum (snd data), fst data), st')
          | (Throw ex, st') =>
              (Ret (ERROR, buffer), snd (handleError (VErr ex) onRead st'))
          end
      else
        async (readSync src buffer offset length position)
          (completion onRead onRead
             (fun data => VPair (VBytes (fst data)) (VNum (snd data)))) ;;
        ret (VUndefined, buffer)
  end.


Section Mkdtemp.

(** Making a directory with a unique name is left to the runtime:
    [mkdtempSync] gives the name of the directory it made, or throws. *)
Variable mkdtempSync : string -> string -> M string.


End Mkdtemp.




(** ** Methods of a [File] handle

    [this] is the handle kept in the machine state ([self]). *)

Definition set_fd (d : Z) (f : File) : File :=
  mkFile (path f) (onUnwatchDelete f) (watcher f) d.

(** [isOpen() { return this.fd !== 0; }] *)
Definition isOpen (f : File) : bool := negb (fd f =? 0).

(** [isWatched() { return this.watcher !== null; }] *)
Definition isWatched (f : File) : bool :=
  match watcher f with Some _ => true | None => false end.

(** [getPath() { return this.path; }] *)
Definition getPath (f : File) : string := path f.

(** [getFd() { return this.fd; }] *)
Definition getFd (f : File) : Z := fd f.

(** [EX = EX || new ReferenceError(msg)] *)
Definition EX_or (e : error) : M unit :=
  modify (fun st => set_EX (if truthy (EX st) then EX st else VErr e) st).

(** The [parent] argument of the constructor: [null], a [File], or a path
    string. *)
Inductive parent_arg : Type :=
  | ParentNull
  | ParentFile (f : File)
  | ParentPath (s : string).

Module Handle.

(** [setup({ path, parent, onUnwatchDelete })] (lines 1838-1858).  With
    [parent === ''] the method calls [process.pwd()], which the runtime
    does not have. *)
Definition setup (p : option string) (parent : parent_arg)
  (onUnwatchDelete : bool) : M unit :=
  match p with
  | None => throw (ReferenceError "NullPointerException")
  | Some p =>
      st <- get ;;
      new_path <-
        match parent with
        | ParentNull => ret (normalize p)
        | ParentFile f => ret (resolve (cwd st) [path f; normalize p])
        | ParentPath s =>
            if (s =? EmptyString)%string then
              throw (TypeError "process.pwd is not a function")
            else ret (resolve (cwd st) [normalize s; normalize p])
        end ;;
      modify (set_self (mkFile new_path onUnwatchDelete None 0))
  end.

(** [constructor({ path, parent, onUnwatchDelete })] (lines 314-316) *)
Definition constructor (p : option string) (parent : parent_arg)
  (onUnwatchDelete : bool) : M unit :=
  setup p parent onUnwatchDelete.

(** [exists(onAccess)] (lines 816-827) *)
Definition exists_ (onAccess : option callback) : M value :=
  st <- get ;;
  match onAccess with
  | None => access (Some (path (self st))) (Z.lor R_OK W_OK) None true
  | Some _ =>
      access (Some (path (self st))) (Z.lor R_OK W_OK) onAccess false ;;
      ret VUndefined
  end.

(** [isDir(onAccess)] (lines 1018-1038) *)
Definition isDir (onAccess : option callback) : M value :=
  st <- get ;;
  match onAccess with
  | None =>
      stats <- stat (VStr (path (self st))) None true ;;
      if negb (is_ERROR stats) then
        match stats with
        | VStats s => ret (VBool (isDirectory s))
        | _ => throw (TypeError "stats.isDirectory is not a function")
        end
      else ret stats
  | Some onAccess =>
      stat (VStr (path (self st)))
        (Some (fun status stats =>
           if is_SUCCESS status then
             match stats with
             | VStats s =>
                 if isDirectory s then onAccess SUCCESS VUndefined
                 else onAccess ERROR (VErr (TypeError "NotDirectoryException"))
             | _ => throw (TypeError "stats.isDirectory is not a function")
             end
           else onAccess status stats))
        false ;;
      ret VUndefined
  end.

(** [isFile(onAccess)] (lines 1040-1060) *)
Definition isFile (onAccess : option callback) : M value :=
  st <- get ;;
  match onAccess with
  | None =>
      stats <- stat (VStr (path (self st))) None true ;;
      if negb (is_ERROR stats) then
        match stats with
        | VStats s => ret (VBool (stats_isFile s))
        | _ => throw (TypeError "stats.isFile is not a function")
        end
      else ret stats
  | Some onAccess =>
      stat (VStr (path (self st)))
        (Some (fun status stats =>
           if is_SUCCESS status then
             match stats with
             | VStats s =>
                 if stats_isFile s then onAccess SUCCESS VUndefined
                 else onAccess ERROR (VErr (TypeError "NotFileException"))
             | _ => throw (TypeError "stats.isFile is not a function")
             end
           else onAccess status stats))
        false ;;
      ret VUndefined
  end.

(** [close(onClose)] (lines 453-482) *)
Definition close (onClose : option callback) : M value :=
  st <- get ;;
  match onClose with
  | None =>
      if isOpen (self st) then
        code <- closeFd (Some (fd (self st))) None true ;;
        modify (fun st => set_self (set_fd 0 (self st)) st) ;;
        if negb (is_ERROR code) then ret code
        else EX_or (ReferenceError "FileExistException") ;; ret ERROR
      else
        modify (set_EX (VErr (ReferenceError "FileNotOpenedException"))) ;;
        ret ERROR
  | Some onClose =>
      if isOpen (self st) then
        closeFd (Some (fd (self st)))
          (Some (fun code reason =>
             modify (fun st => set_self (set_fd 0 (self st)) st) ;;
             onClose code reason))
          false ;;
        ret VUndefined
      else
        onClose ERROR (VErr (ReferenceError "FileNotOpenedException")) ;;
        ret VUndefined
  end.

(** The number a descriptor-valued result holds. *)
Definition number_of (v : value) : Z :=
  match v with VNum n => n | _ => 0 end.

(** [open({ flags, onOpen })] (lines 1295-1330) *)
Definition open (flags : string) (onOpen : option callback) : M value :=
  st <- get ;;
  match onOpen with
  | None =>
      is_file <- isFile None ;;
      if truthy is_file then
        d <- openFd (Some (path (self st))) flags 438 None true ;;
        modify (fun st => set_self (set_fd (number_of d) (self st)) st) ;;
        if negb (is_ERROR d) then ret d
        else EX_or (ReferenceError "FileExistException") ;; ret ERROR
      else EX_or (ReferenceError "FileExistException") ;; ret ERROR
  | Some onOpen =>
      isFile
        (Some (fun code reason =>
           if negb (is_ERROR code) then
             openFd (Some (path (self st))) flags 438
               (Some (fun code d =>
                  if negb (is_ERROR code) then
                    modify (fun st => set_self (set_fd (number_of d) (self st)) st) ;;
                    onOpen code d
                  else onOpen code d))
               false ;;
             ret tt
           else
             onOpen ERROR
               (if truthy reason then reason
                else VErr (ReferenceError "FileNotFoundException")))) ;;
      ret VUndefined
  end.

(** [length(onAccess)] (lines 1094-1106) *)
Definition length (onAccess : option callback) : M value :=
  st <- get ;;
  match onAccess with
  | None =>
      stats <- stat (VStr (path (self st))) None true ;;
      if negb (is_ERROR stats) then
        match stats with
        | VStats s => ret (VNum (stats_size s))
        | _ => ret VUndefined
        end
      else ret stats
  | Some onAccess =>
      stat (VStr (path (self st)))
        (Some (fun code stats =>
           onAccess code
             (if is_SUCCESS code then
                match stats with
                | VStats s => VNum (stats_size s)
                | _ => VUndefined
                end
              else stats)))
        false ;;
      ret VUndefined
  end.

(** [createReadStream(path, { fd, start, end, ... })]: the range is given
    only when [start !== -1 && end !== -1]. *)
Definition createReadStream (p : string) (d : option Z) (start end_ : Z)
  : value :=
  VReadStream (match d with Some d => inl d | None => inr p end)
    (if negb (start =? -1) && negb (end_ =? -1) then Some (start, end_)
     else None).

(** [getInputStream({ start, end, encoding, mode, autoClose, onAccess })]
    (lines 900-952) *)
Definition getInputStream (start end_ : Z) (autoClose : bool)
  (onAccess : option callback) : M value :=
  st <- get ;;
  let p := path (self st) in
  if autoClose then
    match onAccess with
    | None =>
        code <- isFile None ;;
        if negb (is_ERROR code) then ret (createReadStream p None start end_)
        else ret code
    | Some onAccess =>
        isFile
          (Some (fun code reason =>
             if is_SUCCESS code then
               onAccess code (createReadStream p None start end_)
             else onAccess code reason)) ;;
        ret VUndefined
    end
  else
    match onAccess with
    | None =>
        d <- open "r" None ;;
        if negb (is_ERROR d) then
          ret (createReadStream p (Some (number_of d)) start end_)
        else ret d
    | Some onAccess =>
        open "r"
          (Some (fun code d =>
             if is_SUCCESS code then
               onAccess code (createReadStream p (Some (number_of d)) start end_)
             else onAccess code d)) ;;
        ret VUndefined
    end.

(** [canExecute(onAccess)], [canRead(onAccess)], [canWrite(onAccess)] (lines
    388-431): [File.access] with the mode of the question. *)
Definition can (mode : Z) (onAccess : option callback) : M value :=
  st <- get ;;
  match onAccess with
  | None => access (Some (path (self st))) mode None true
  | Some _ =>
      access (Some (path (self st))) mode onAccess false ;;
      ret VUndefined
  end.

Definition canExecute : option callback -> M value := can X_OK.

Definition canRead : option callback -> M value := can R_OK.

Definition canWrite : option callback -> M value := can W_OK.

(** [reason || new ReferenceError(msg)] *)
Definition reason_or (reason : value) (msg : string) : value :=
  if truthy reason then reason else VErr (ReferenceError msg).

(** [createDir(onAccess)] (lines 504-526) *)
Definition createDir (onAccess : option callback) : M value :=
  st <- get ;;
  match onAccess with
  | None =>
      code <- exists_ None ;;
      if is_ERROR code then mkdir (Some (path (self st))) 511 None true
      else EX_or (ReferenceError "FileExistException") ;; ret ERROR
  | Some onAccess =>
      exists_
        (Some (fun code reason =>
           if is_ERROR code then
             this <- get ;;
             mkdir (Some (path (self this))) 511
               (Some (fun code reason => onAccess code reason)) false ;;
             ret tt
           else onAccess ERROR (reason_or reason "FileExistException"))) ;;
      ret VUndefined
  end.





(** [getContent(onAccess)] (lines 863-886) *)
Definition getContent (onAccess : option callback) : M value :=
  st <- get ;;
  match onAccess with
  | None =>
      code <- isFile None ;;
      if negb (is_ERROR code) then
        readFileOrDir (Some (path (self st))) FILE None true
      else ret code
  | Some f =>
      isFile
        (Some (fun code reason =>
           if is_SUCCESS code then
             this <- get ;;
             readFileOrDir (Some (path (self this))) FILE onAccess false ;;
             ret tt
           else f code reason)) ;;
      ret VUndefined
  end.

(** [result.filter(fileName => accept(this, fileName))]: the names for which
    [accept] answers a truthy value, in order. *)
Fixpoint filter_names (accept : File -> string -> M value) (names : list string)
  : M (list string) :=
  match names with
  | [] => ret []
  | name :: rest =>
      this <- get ;;
      v <- accept (self this) name ;;
      kept <- filter_names accept rest ;;
      ret (if truthy v then name :: kept else kept)
  end.

(** [accept === null ? result : result.filter(...)] on what [readFileOrDir]
    gave. *)
Definition accepted (accept : option (File -> string -> M value))
  (result : value) : M value :=
  match accept with
  | None => ret result
  | Some f =>
      match result with
      | VNames names => kept <- filter_names f names ;; ret (VNames kept)
      | _ => throw (TypeError "result.filter is not a function")
      end
  end.

(** [list(accept, onAccess)] (lines 1108-1148) *)
Definition list_ (accept : option (File -> string -> M value))
  (onAccess : option callback) : M value :=
  st <- get ;;
  match onAccess with
  | None =>
      code <- isDir None ;;
      if negb (is_ERROR code) then
        result <- readFileOrDir (Some (path (self st))) DIR None true ;;
        if negb (is_ERROR result) then accepted accept result
        else ret result
      else ret code
  | Some onAccess =>
      isDir
        (Some (fun code reason =>
           if is_SUCCESS code then
             this <- get ;;
             readFileOrDir (Some (path (self this))) DIR
               (Some (fun code reason =>
                  if is_SUCCESS code then
                    kept <- accepted accept reason ;;
                    onAccess code kept
                  else onAccess code reason))
               false ;;
             ret tt
           else onAccess code reason)) ;;
      ret VUndefined
  end.

(** [read({ buffer, offset, length, position, onRead })] (lines 1357-1410).
    The callback-less form goes on to [File.openFd] when [isFile()] failed. *)
Definition read (buffer : list Z) (offset length position : Z)
  (onRead : option callback) : M (value * list Z) :=
  st <- get ;;
  match onRead with
  | None =>
      code <- isFile None ;;
      if is_ERROR code then
        code <- openFd (Some (path (self st))) "r+" 438 None true ;;
        if negb (is_ERROR code) then
          readFd (Some (number_of code)) buffer offset length position None true
        else EX_or (ReferenceError "FileExistException") ;; ret (ERROR, buffer)
      else EX_or (ReferenceError "FileExistException") ;; ret (ERROR, buffer)
  | Some onRead =>
      isFile
        (Some (fun code reason =>
           if negb (is_ERROR code) then
             this <- get ;;
             openFd (Some (path (self this))) "r+" 438
               (Some (fun code d =>
                  if is_SUCCESS code then
                    readFd (Some (number_of d)) buffer offset length position
                      (Some onRead) false ;;
                    ret tt
                  else onRead code d))
               false ;;
             ret tt
           else onRead ERROR (reason_or reason "FileNotFoundException"))) ;;
      ret (VUndefined, buffer)
  end.

(** [write({ src, buffer, offset, length, position, encoding, onWrite })]
    (lines 2049-2106).  The callback-less form goes on to [File.openFd] when
    [isFile()] failed. *)
Definition write (buffer : value) (offset length position : Z)
  (onWrite : option callback) : M value :=
  st <- get ;;
  match onWrite with
  | None =>
      code <- isFile None ;;
      if is_ERROR code then
        code <- openFd (Some (path (self st))) "r+" 438 None true ;;
        if negb (is_ERROR code) then
          writeFd (Some (number_of code)) buffer offset length position None true
        else EX_or (ReferenceError "FileExistException") ;; ret ERROR
      else EX_or (ReferenceError "FileExistException") ;; ret ERROR
  | Some onWrite =>
      isFile
        (Some (fun code reason =>
           if negb (is_ERROR code) then
             this <- get ;;
             openFd (Some (path (self this))) "r+" 438
               (Some (fun code d =>
                  if is_SUCCESS code then
                    writeFd (Some (number_of d)) buffer offset length position
                      (Some onWrite) false ;;
                    ret tt
                  else onWrite code d))
               false ;;
             ret tt
           else onWrite ERROR (reason_or reason "FileNotFoundException"))) ;;
      ret VUndefined
  end.




Section HandleExec.

Variable execFileSync : string -> list string -> M (list Z * list Z).

(** [exec({ args, options, onAccess })] (lines 758-782) *)
Definition exec (args : list string) (onAccess : option callback) : M value :=
  st <- get ;;
  match onAccess with
  | None =>
      code <- canExecute None ;;
      if negb (is_ERROR code) then
        execFile execFileSync (Some (path (self st))) args None true
      else ret code
  | Some f =>
      canExecute
        (Some (fun code reason =>
           if is_SUCCESS code then
             this <- get ;;
             execFile execFileSync (Some (path (self this))) args onAccess false ;;
             ret tt
           else f code reason)) ;;
      ret VUndefined
  end.

End HandleExec.

Section HandleTmp.

Variable mkdtempSync : string -> string -> M string.


End HandleTmp.

End Handle.

(** ** [FileInputStream]: [open] and [close] *)

(** What a read stream delivers (see [stream_chunks]).  Without a
    descriptor the stream opens the path itself; without a range it covers
    the whole file.  [getInputStream] creates every stream with its default
    [encoding = 'utf8'], which [open] leaves in place, so the stream
    delivers strings, not buffers: each is kept as the list of its code
    units, which is what [chunk.charCodeAt] reads. *)
Definition stream_data (s : value) : M (list (list Z)) :=
  match s with
  | VReadStream source range =>
      d <- match source with
           | inl d => ret d
           | inr p => openSync p "r" 438
           end ;;
      chunks <- match range with
                | Some (start, end_) => stream_chunks d start end_
                | None =>
                    f <- fd_file d ;;
                    ret (chunks_of (List.length (snd f)) highWaterMark (snd f))
                end ;;
      ret (utf8_strings Idle chunks)
  | _ => throw (TypeError "stream.on is not a function")
  end.

(** [for (let i = 0; i < len; i++) this.buf[i] = chunk.charCodeAt(i)] *)
Fixpoint fill_from (i : Z) (chunk : list Z) (b : list Z) : list Z :=
  match chunk with
  | [] => b
  | c :: r => fill_from (i + 1) r (store b i c)
  end.

Module Stream.

Definition update (f : FileInputStream -> FileInputStream) : M unit :=
  modify (fun st => set_stream (f (stream st)) st).

Definition set_buf (b : option (list Z)) (s : FileInputStream)
  : FileInputStream :=
  mkStream b (pos s) (count s) (markPos s).

(** Calling the [onReadable] argument, which has no default. *)
Definition call (onReadable : option (value -> M unit)) (arg : value)
  : M unit :=
  match onReadable with
  | Some f => f arg
  | None => throw (TypeError "onReadable is not a function")
  end.

(** [constructor({ path, parent })] (lines 69-74) *)
Definition constructor (p : option string) (parent : parent_arg) : M unit :=
  update (set_buf None) ;;
  Handle.constructor p parent false ;;
  update (fun s => mkStream (buf s) 0 0 0).

(** [open({ offset, length, blocking, onReadable })] (lines 106-163).  In
    the blocking strategy the handler of [readable] takes the first string
    of the stream and stores its code units.  In the other strategy the
    handler of [end] passes the strings received to [Buffer.concat], which
    takes buffers only: with no string at all (an empty file) it gives the
    empty buffer, and otherwise it throws a [TypeError], before anything is
    assigned. *)
Definition open (offset length : Z) (blocking : bool)
  (onReadable : option (value -> M unit)) : M value :=
  Handle.length
    (Some (fun status size =>
       if is_SUCCESS status then
         let start := 0 in
         let end_ := Handle.number_of size in
         Handle.getInputStream start end_ false
           (Some (fun code strm =>
              if negb (is_ERROR code) then
                if blocking then
                  chunks <- stream_data strm ;;
                  update (set_buf (Some (repeat 0 (Z.to_nat end_)))) ;;
                  match chunks with
                  | [] => throw (TypeError "Cannot read property length of null")
                  | chunk :: _ =>
                      update (fun s =>
                        set_buf (option_map (fill_from 0 chunk) (buf s)) s) ;;
                      update (set_window offset length end_) ;;
                      call onReadable VUndefined
                  end
                else
                  async (stream_data strm)
                    (fun err chunks =>
                       match err, chunks with
                       | Some e, _ => call onReadable (VErr e)
                       | None, Some [] =>
                           update (set_buf (Some [])) ;;
                           update (set_window offset length end_) ;;
                           call onReadable VUndefined
                       | None, Some (_ :: _) =>
                           throw (TypeError "ERR_INVALID_ARG_TYPE")
                       | None, None => ret tt
                       end)
              else call onReadable strm)) ;;
         ret tt
       else call onReadable size)).

(** [close(onClose)] (lines 86-96) *)
Definition close (onClose : option callback) : M value :=
  update close_cursor ;;
  match onClose with
  | None => Handle.close None
  | Some onClose =>
      Handle.close (Some (fun code reason => onClose code reason)) ;;
      ret VUndefined
  end.

End Stream.

(** ** [FilenameFilter] (lines 265-308)

    The filter works on the handle of the machine state; [emit] stands for
    the listener of the [filter] event. *)

Module Filter.

(** [accept(dir, name) { }]: the method of the class, which returns
    [undefined]. *)
Definition accept : File -> string -> M value := fun _ _ => ret VUndefined.

(** The [accept] of an instance: the one given to the constructor, or the
    method of the class. *)
Definition accept_of (given : option (File -> string -> M value))
  : File -> string -> M value :=
  match given with
  | Some f => f
  | None => accept
  end.

(** [filter(sync)] (lines 278-289): the callback-less [list] is the one
    called when [sync] is false. *)
Definition filter (given : option (File -> string -> M value)) (emit : callback)
  (sync : bool) : M unit :=
  if negb sync then
    result <- Handle.list_ (Some (fun dir name => accept_of given dir name)) None ;;
    if is_ERROR result then
      ex <- exception ;;
      emit result ex
    else emit SUCCESS result
  else
    Handle.list_ (Some (fun dir name => accept_of given dir name))
      (Some (fun code result => emit code result)) ;;
    ret tt.

End Filter.

(** [k] single-byte reads in a row: the values returned and the stream they
    leave. *)
Fixpoint read_bytes (k : nat) (s : FileInputStream) : list Z * FileInputStream :=
  match k with
  | O => ([], s)
  | S k' =>
      match read None 0 0 s with
      | Ret r =>
          (read_value r :: fst (read_bytes k' (read_stream r)),
           snd (read_bytes k' (read_stream r)))
      | Throw _ => ([], s)
      end
  end.

(** ** Sample states

    The tree of the scenarios: [/tmp/x/f.txt] holding ["hello"], an empty
    directory [d] and a directory [e] with an empty sub-directory and a
    file.  The working directory is the root. *)

Definition hello : list Z := char_codes "hello".

Definition sample_tree : node :=
  DirNode
    [ ("tmp", DirNode [ ("x", DirNode [ ("f.txt", FileNode hello) ]) ]);
      ("d", DirNode []);
      ("e", DirNode [ ("g", DirNode []); ("h", FileNode [1; 2]) ]) ].

Definition fresh_stream : FileInputStream := mkStream None 0 0 0.

Definition sample_state (p : string) : state :=
  mkState sample_tree [] [] VNull [] (mkFile p false None 0) fresh_stream.

(** The [onReadable] callback of the scenarios: it records its argument. *)
Definition ready : value -> M unit := fun v => record_call (VStr "ready") v.

(** The call [onReadable()] as [ready] records it. *)
Definition ready_pair : value * value := (VStr "ready", VUndefined).

(** What [open] can leave behind, with [ready] as [onReadable]: nothing of
    the stream changed and readiness was not signalled (the path is no plain
    file, or the handler of [end] stopped at [Buffer.concat]); or, in the
    blocking strategy on an empty file, the buffer was allocated and the
    handler stopped at [chunk.length]; or the buffer [b] and the window are
    set and readiness was signalled. *)
Inductive open_result (st : state) (offset length : Z) (blocking : bool)
  (st' : state) : Prop :=
  | open_failed :
      stream st' = stream st ->
      calls st' <> (calls st ++ [ready_pair])%list ->
      blocking = false
      \/ ~ (isNaN (VStr (path (self st))) = true
            /\ path (self st) <> EmptyString
            /\ exists d, walk (locate st (path (self st))) (root st)
                          = inr (FileNode d)) ->
      open_result st offset length blocking st'
  | open_no_chunk :
      blocking = true ->
      walk (locate st (path (self st))) (root st) = inr (FileNode []) ->
      stream st' = Stream.set_buf (Some []) (stream st) ->
      calls st' = calls st ->
      open_result st offset length blocking st'
  | open_ready :
      forall d b,
        walk (locate st (path (self st))) (root st) = inr (FileNode d) ->
        blocking = true \/ d = [] ->
        List.length b = List.length d ->
        stream st'
        = set_window offset length (Z.of_nat (List.length d))
            (Stream.set_buf (Some b) (stream st)) ->
        calls st' = (calls st ++ [ready_pair])%list ->
        open_result st offset length blocking st'.

(** [buffer.length], taking the released buffer as empty. *)
Definition buf_length (s : FileInputStream) : Z :=
  match buf s with
  | Some b => Z.of_nat (List.length b)
  | None => 0
  end.

(** The invariant of the cursors. *)
Definition cursor_inv (s : FileInputStream) : Prop :=
  0 <= markPos s <= count s /\ 0 <= pos s <= count s /\ count s <= buf_length s.

(** Operations on a stream, and the run of a sequence of them. *)
Inductive stream_op : Type :=
  | OpOpen (offset length : Z) (blocking : bool)
  | OpRead (b : option (list Z)) (off len : Z)
  | OpSkip (n : Z)
  | OpMark
  | OpReset
  | OpClose.

Definition step (o : stream_op) (st : state) : state :=
  match o with
  | OpOpen offset length blocking =>
      snd (Stream.open offset length blocking (Some ready) st)
  | OpRead b off len =>
      match read b off len (stream st) with
      | Ret r => set_stream (read_stream r) st
      | Throw _ => st
      end
  | OpSkip n => set_stream (snd (skip n (stream st))) st
  | OpMark => set_stream (mark (stream st)) st
  | OpReset => set_stream (reset (stream st)) st
  | OpClose => snd (Stream.close None st)
  end.

Fixpoint trace (ops : list stream_op) (st : state) : list state :=
  match ops with
  | [] => []
  | o :: r => step o st :: trace r (step o st)
  end.

(** [open] is issued on a stream whose cursors are at zero (never opened, or
    closed) and, when a window is requested on a plain file, its offset is
    not beyond the size of the file. *)
Definition open_in_range (offset length : Z) (st : state) : bool :=
  (pos (stream st) =? 0) && (count (stream st) =? 0) && (markPos (stream st) =? 0)
  && (negb ((offset >? 0) && (length >? 0))
      || match walk (locate st (path (self st))) (root st) with
         | inr (FileNode d) => offset <=? Z.of_nat (List.length d)
         | _ => true
         end).

Fixpoint admissible (ops : list stream_op) (st : state) : bool :=
  match ops with
  | [] => true
  | o :: r =>
      match o with
      | OpOpen offset length _ => open_in_range offset length st
      | _ => true
      end
      && admissible r (step o st)
  end.

(** A segment that can stand in a normalized path: it contains no separator
    and names an entry. *)
Definition entry_name (x : string) : Prop :=
  slash_free x = true /\ names_entry x = true.

(** The computation [m] leaves the stored path of the handle as it is. *)
Definition keeps_path {A} (m : M A) : Prop :=
  forall st, path (self (snd (m st))) = path (self st).

Definition callback_keeps_path (cb : option callback) : Prop :=
  forall f, cb = Some f -> forall code payload, keeps_path (f code payload).

(** No character of the list is the separator. *)
Definition sep_free_chars (l : list ascii) : bool :=
  forallb (fun c => negb (is_sep c)) l.

(** The depth of nested directories. *)
Fixpoint height (n : node) : nat :=
  match n with
  | FileNode _ => 0%nat
  | DirNode es =>
      S ((fix below (es : list (string * node)) : nat :=
            match es with
            | [] => 0%nat
            | (_, c) :: r => Nat.max (height c) (below r)
            end) es)
  end.

(** Every name of the tree is an entry name. *)
Fixpoint well_named (n : node) : Prop :=
  match n with
  | FileNode _ => True
  | DirNode es =>
      (fix all (es : list (string * node)) : Prop :=
         match es with
         | [] => True
         | (k, c) :: r => entry_name k /\ well_named c /\ all r
         end) es
  end.

(** In every directory of the tree the names are distinct. *)
Fixpoint unique_names (n : node) : Prop :=
  match n with
  | FileNode _ => True
  | DirNode es =>
      NoDup (map fst es)
      /\ (fix all (es : list (string * node)) : Prop :=
            match es with
            | [] => True
            | (_, c) :: r => unique_names c /\ all r
            end) es
  end.

(** No directory of the tree is empty. *)
Fixpoint no_empty_dir (n : node) : Prop :=
  match n with
  | FileNode _ => True
  | DirNode es =>
      es <> []
      /\ (fix all (es : list (string * node)) : Prop :=
            match es with
            | [] => True
            | (_, c) :: r => no_empty_dir c /\ all r
            end) es
  end.

(** The children of a directory hold no empty directory. *)
Definition no_empty_below (es : list (string * node)) : Prop :=
  Forall (fun e => no_empty_dir (snd e)) es.

(** The directory [src], at segments [p], is ready for [rimraf]: it is not
    the root, its path carries a separator or a name, and the names below it
    are entry names. *)
Definition removable (st : state) (src : string) (es : list (string * node))
  : Prop :=
  src <> EmptyString
  /\ (isAbsolute src = true \/ segments src <> [])
  /\ locate st src <> []
  /\ walk (locate st src) (root st) = inr (DirNode es)
  /\ well_named (DirNode es).

(** A sequence of reads and skips only. *)
Definition moves_only (ops : list stream_op) : bool :=
  forallb (fun o => match o with
                    | OpRead _ _ _ | OpSkip _ => true
                    | _ => false
                    end) ops.

(** The state after a sequence of operations. *)
Definition run (ops : list stream_op) (st : state) : state :=
  fold_left (fun st o => step o st) ops st.

(** The path [q] names a missing entry [k] of an existing directory, which is
    at the segments [par]. *)
Definition missing_in (st : state) (q : string) (par : list string) (k : string)
  : Prop :=
  q <> EmptyString /\ locate st q = (par ++ [k])%list
  /\ exists es, walk par (root st) = inr (DirNode es) /\ assoc k es = None.

(** The computation [m] leaves the part [f] of the machine state as it
    is. *)
Definition preserves {A B} (f : state -> B) (m : M A) : Prop :=
  forall st, f (snd (m st)) = f st.

(** What a call with a callback that records its arguments leaves behind
    when it has called back exactly once: it returned [undefined], and one
    pair was recorded, [(SUCCESS, payload)] or [(ERROR, error)]. *)
Definition called_back_once (st : state) (r : outcome value * state) : Prop :=
  fst r = Ret VUndefined
  /\ exists code payload,
       calls (snd r) = (calls st ++ [(code, payload)])%list
       /\ (code = SUCCESS \/ (code = ERROR /\ exists e, payload = VErr e)).

(** What a synchronous call leaves behind when it follows the convention of
    the module: either it returned something other than [ERROR], the
    callback was not called and the [EX] slot was not written; or it
    returned [ERROR] and the error went to the callback, once, when there is
    one, and to the [EX] slot otherwise. *)
Definition reported_sync (with_callback : bool) (st : state)
  (r : outcome value * state) : Prop :=
  (exists v, fst r = Ret v /\ is_ERROR v = false
             /\ calls (snd r) = calls st /\ EX (snd r) = EX st)
  \/ (fst r = Ret ERROR
      /\ exists e,
           if with_callback
           then calls (snd r) = (calls st ++ [(ERROR, VErr e)])%list
                /\ EX (snd r) = EX st
           else calls (snd r) = calls st /\ EX (snd r) = VErr e).


(** ** Theorems *)

(** *** Missing [src]: [writeFd], [writeFile], [execFile] *)

(** C4 (fails on the code).  With [src = null], [writeFd] and [writeFile]
    evaluate the undeclared identifier [onRead], and [execFile] the undeclared
    identifier [onCreate], while building the arguments of [handleError]: a
    [ReferenceError] escapes to the caller, in either mode, and neither the
    callback nor the [EX] slot receives anything. *)
Theorem null_src_throws_past_boundary :
  forall (st : state) (buffer : value) (bytes : list Z) (offset length position : Z)
         (args : list string) (cb : option callback) (sync : bool)
         (run : string -> list string -> M (list Z * list Z)),
    writeFd None buffer offset length position cb sync st
      = (Throw (ReferenceError "onRead is not defined"), st)
    /\ writeFile None bytes cb sync st
      = (Throw (ReferenceError "onRead is not defined"), st)
    /\ execFile run None args cb sync st
      = (Throw (ReferenceError "onCreate is not defined"), st).
Proof.
  intros. repeat split; reflexivity.
Qed.

(** *** Closing a [File] handle *)

Lemma close_sync_unopened :
  forall st, fd (self st) = 0 ->
    Handle.close None st
      = (Ret ERROR, set_EX (VErr (ReferenceError "FileNotOpenedException")) st).
Proof.
  intros st H. unfold Handle.close, bind, get, isOpen. simpl.
  rewrite H. reflexivity.
Qed.

Lemma close_async_unopened :
  forall st (cb : callback), fd (self st) = 0 ->
    Handle.close (Some cb) st
      = bind (cb ERROR (VErr (ReferenceError "FileNotOpenedException")))
             (fun _ => ret VUndefined) st.
Proof.
  intros st cb H. unfold Handle.close, bind, get, isOpen. simpl.
  rewrite H. reflexivity.
Qed.

Lemma close_sync_open :
  forall st p, fd (self st) <> 0 -> fd_lookup (fd (self st)) (fds st) = Some p ->
    Handle.close None st
      = (Ret SUCCESS,
         set_self (set_fd 0 (self st))
           (set_fds (fd_remove (fd (self st)) (fds st)) st)).
Proof.
  intros st p Hfd Hp.
  unfold Handle.close, bind, get, isOpen. simpl.
  apply Z.eqb_neq in Hfd. rewrite Hfd. simpl.
  unfold try_catch_finally, closeSync, bind, get. simpl.
  rewrite Hp. reflexivity.
Qed.

Lemma close_async_open :
  forall st p, fd (self st) <> 0 -> fd_lookup (fd (self st)) (fds st) = Some p ->
    Handle.close (Some record_call) st
      = (Ret VUndefined,
         set_calls (calls st ++ [(SUCCESS, VNull)])
           (set_self (set_fd 0 (self st))
              (set_fds (fd_remove (fd (self st)) (fds st)) st))).
Proof.
  intros st p Hfd Hp.
  unfold Handle.close, bind, get, isOpen. simpl.
  apply Z.eqb_neq in Hfd. rewrite Hfd. simpl.
  unfold undefined_after, async, closeSync, bind, get. simpl.
  rewrite Hp. reflexivity.
Qed.

(** C8.  On a handle with no tracked descriptor ([fd = 0]), [close] returns
    [ERROR] and stores [FileNotOpenedException] in the [EX] slot (no
    callback), or calls the callback once with [(ERROR,
    FileNotOpenedException)]; nothing is thrown.  A close that succeeds, in
    either form, leaves [fd = 0], so closing again reports
    [FileNotOpenedException] once more. *)
Theorem close_reports_file_not_open :
  forall st, fd (self st) = 0 ->
    Handle.close None st
      = (Ret ERROR, set_EX (VErr (ReferenceError "FileNotOpenedException")) st)
    /\ Handle.close (Some record_call) st
      = (Ret VUndefined,
         set_calls (calls st ++ [(ERROR, VErr (ReferenceError "FileNotOpenedException"))]) st)
    /\ (forall st0 p,
          fd (self st0) <> 0 ->
          fd_lookup (fd (self st0)) (fds st0) = Some p ->
          let st1 := snd (Handle.close None st0) in
          let st2 := snd (Handle.close (Some record_call) st0) in
          fst (Handle.close None st0) = Ret SUCCESS
          /\ fd (self st1) = 0 /\ isOpen (self st1) = false
          /\ calls st2 = (calls st0 ++ [(SUCCESS, VNull)])%list
          /\ fd (self st2) = 0 /\ isOpen (self st2) = false
          /\ Handle.close None st1
             = (Ret ERROR, set_EX (VErr (ReferenceError "FileNotOpenedException")) st1)
          /\ Handle.close (Some record_call) st2
             = (Ret VUndefined,
                set_calls (calls st2 ++ [(ERROR, VErr (ReferenceError "FileNotOpenedException"))]) st2)).
Proof.
  intros st H. split; [ apply close_sync_unopened; exact H | ].
  split; [ rewrite close_async_unopened by exact H; reflexivity | ].
  intros st0 p Hfd Hp st1 st2. subst st1 st2.
  rewrite (close_sync_open st0 p Hfd Hp), (close_async_open st0 p Hfd Hp).
  simpl. repeat split.
Qed.

(** A handle on [/tmp/x/f.txt] that was never opened. *)
Lemma close_reports_file_not_open_witness :
  fd (self (sample_state "/tmp/x/f.txt")) = 0
  /\ Handle.close None (sample_state "/tmp/x/f.txt")
     = (Ret ERROR,
        set_EX (VErr (ReferenceError "FileNotOpenedException"))
          (sample_state "/tmp/x/f.txt")).
Proof.
  split; [ reflexivity | ].
  apply (close_reports_file_not_open (sample_state "/tmp/x/f.txt")).
  reflexivity.
Defined.

(** *** A closed [FileInputStream] *)

Lemma snd_bind_ret :
  forall {A B} (m : M A) (v : B) st,
    snd (bind m (fun _ => ret v) st) = snd (m st).
Proof.
  intros A B m v st. unfold bind, ret.
  destruct (m st) as [[a|e] st']; reflexivity.
Qed.

Lemma handle_close_keeps_stream :
  forall st, stream (snd (Handle.close None st)) = stream st
             /\ stream (snd (Handle.close (Some record_call) st)) = stream st.
Proof.
  intros st. unfold Handle.close, bind, get. simpl.
  destruct (isOpen (self st)); simpl.
  - unfold try_catch_finally, undefined_after, async, closeSync, bind, get.
    simpl. destruct (fd_lookup (fd (self st)) (fds st)); simpl; split; reflexivity.
  - split; reflexivity.
Qed.

Lemma skip_at_zero : forall n b, skip n (mkStream b 0 0 0) = (0, mkStream b 0 0 0).
Proof.
  intros n b. unfold skip. simpl.
  destruct (n >? 0) eqn:Hgt; simpl; [ reflexivity | ].
  destruct (n <? 0) eqn:Hlt; [ reflexivity | ].
  assert (n = 0) as ->; [ | reflexivity ].
  apply Z.ltb_ge in Hlt. rewrite Z.gtb_ltb in Hgt. apply Z.ltb_ge in Hgt. lia.
Qed.

(** C9.  After [close] (with or without a callback) the stream has
    [buf = null] and [pos = count = markPos = 0]; on that stream
    [available()] is [0] and [skip(n)] returns [0] for every [n] and leaves
    the stream as it is, neither raising anything, whereas every [read]
    throws [ReferenceError("Stream closed")], as [ensureOpen] does. *)
Theorem closed_stream_available_skip_read :
  forall st,
    let s1 := stream (snd (Stream.close None st)) in
    let s2 := stream (snd (Stream.close (Some record_call) st)) in
    s1 = mkStream None 0 0 0 /\ s2 = mkStream None 0 0 0
    /\ available s1 = 0
    /\ (forall n, skip n s1 = (0, s1))
    /\ (forall b off len, read b off len s1 = Throw (ReferenceError "Stream closed"))
    /\ ensureOpen s1 = Throw (ReferenceError "Stream closed").
Proof.
  intros st s1 s2.
  assert (H1 : s1 = mkStream None 0 0 0).
  { subst s1. unfold Stream.close, Stream.update, bind, modify. simpl.
    destruct (handle_close_keeps_stream (set_stream (close_cursor (stream st)) st))
      as [H _].
    exact H. }
  assert (H2 : s2 = mkStream None 0 0 0).
  { subst s2. unfold Stream.close, Stream.update.
    change (stream (snd (bind (Handle.close (Some record_call))
                              (fun _ => ret VUndefined)
                              (set_stream (close_cursor (stream st)) st)))
            = mkStream None 0 0 0).
    rewrite snd_bind_ret.
    destruct (handle_close_keeps_stream (set_stream (close_cursor (stream st)) st))
      as [_ H].
    exact H. }
  rewrite H1. repeat split; try assumption.
  intros n. apply skip_at_zero.
Qed.

(** *** [isFile] and [isDir] on an entry of the other kind *)

Lemma stat_sync_existing :
  forall st s n,
    isNaN (VStr s) = true -> s <> EmptyString ->
    walk (locate st s) (root st) = inr n ->
    stat (VStr s) None true st = (Ret (VStats (stats_of n)), st).
Proof.
  intros st s n Hnan Hne Hw.
  unfold stat, try_catch_finally, bind. rewrite Hnan. simpl.
  unfold statSync, native_walk, native_path, bind, get.
  apply String.eqb_neq in Hne. rewrite Hne. simpl. rewrite Hw. reflexivity.
Qed.

Lemma stat_async_existing :
  forall st s n (k : callback),
    isNaN (VStr s) = true -> s <> EmptyString ->
    walk (locate st s) (root st) = inr n ->
    stat (VStr s) (Some k) false st
    = bind (k SUCCESS (VStats (stats_of n))) (fun _ => ret VUndefined) st.
Proof.
  intros st s n k Hnan Hne Hw.
  unfold stat, undefined_after, async, bind. rewrite Hnan. simpl.
  unfold statSync, native_walk, native_path, bind, get.
  apply String.eqb_neq in Hne. rewrite Hne. simpl. rewrite Hw. simpl.
  unfold bind. destruct (k SUCCESS (VStats (stats_of n)) st) as [[[]|e] st']; reflexivity.
Qed.

(** C5 (fails on the code, synchronous form).  When the path of the handle
    is an existing directory, [isFile()] without a callback returns the
    boolean [false], which is not [ERROR], and leaves the state, [EX]
    included, untouched: no [NotFileException] is recorded.  With a callback
    the same handle reports [(ERROR, TypeError("NotFileException"))].
    Likewise [isDir] on an existing plain file returns [false], against
    [(ERROR, TypeError("NotDirectoryException"))] with a callback. *)
Theorem wrong_kind_sync_returns_false :
  forall st,
    isNaN (VStr (path (self st))) = true ->
    path (self st) <> EmptyString ->
    (forall es,
        walk (locate st (path (self st))) (root st) = inr (DirNode es) ->
        Handle.isFile None st = (Ret (VBool false), st)
        /\ is_ERROR (VBool false) = false
        /\ Handle.isFile (Some record_call) st
           = (Ret VUndefined,
              set_calls (calls st ++ [(ERROR, VErr (TypeError "NotFileException"))]) st))
    /\ (forall d,
        walk (locate st (path (self st))) (root st) = inr (FileNode d) ->
        Handle.isDir None st = (Ret (VBool false), st)
        /\ Handle.isDir (Some record_call) st
           = (Ret VUndefined,
              set_calls (calls st ++ [(ERROR, VErr (TypeError "NotDirectoryException"))]) st)).
Proof.
  intros st Hnan Hne. split.
  - intros es Hw. repeat split.
    + unfold Handle.isFile, bind, get. cbv beta iota.
      rewrite (stat_sync_existing st _ _ Hnan Hne Hw). reflexivity.
    + unfold Handle.isFile, bind, get. cbv beta iota.
      rewrite (stat_async_existing st _ _ _ Hnan Hne Hw). reflexivity.
  - intros d Hw. repeat split.
    + unfold Handle.isDir, bind, get. cbv beta iota.
      rewrite (stat_sync_existing st _ _ Hnan Hne Hw). reflexivity.
    + unfold Handle.isDir, bind, get. cbv beta iota.
      rewrite (stat_async_existing st _ _ _ Hnan Hne Hw). reflexivity.
Qed.

(** [new File({ path: "/tmp/x" }).isFile()] on the directory [/tmp/x]. *)
Lemma wrong_kind_sync_returns_false_witness :
  isNaN (VStr (path (self (sample_state "/tmp/x")))) = true
  /\ path (self (sample_state "/tmp/x")) <> EmptyString
  /\ walk (locate (sample_state "/tmp/x") "/tmp/x") sample_tree
     = inr (DirNode [ ("f.txt", FileNode hello) ])
  /\ Handle.isFile None (sample_state "/tmp/x")
     = (Ret (VBool false), sample_state "/tmp/x").
Proof.
  split; [ reflexivity | ]. split; [ discriminate | ]. split; [ reflexivity | ].
  destruct (wrong_kind_sync_returns_false (sample_state "/tmp/x"))
    as [Hdir _]; [ reflexivity | discriminate | ].
  destruct (Hdir [ ("f.txt", FileNode hello) ]) as [H _]; [ reflexivity | ].
  exact H.
Defined.

(** *** Paths: [split], [join] and the segments they denote *)

Lemma split_not_nil : forall s, split s <> [].
Proof.
  induction s as [ | c r IH ]; simpl; [ discriminate | ].
  destruct (is_sep c); [ discriminate | ].
  destruct (split r); discriminate.
Qed.

Lemma split_slash_free : forall x, slash_free x = true -> split x = [x].
Proof.
  induction x as [ | c r IH ]; simpl; intros H; [ reflexivity | ].
  apply andb_true_iff in H. destruct H as [Hc Hr].
  apply negb_true_iff in Hc. rewrite Hc, (IH Hr). reflexivity.
Qed.

Lemma split_app_sep :
  forall x s, slash_free x = true -> split (x ++ String "/" s) = x :: split s.
Proof.
  induction x as [ | c r IH ]; simpl; intros s H; [ reflexivity | ].
  apply andb_true_iff in H. destruct H as [Hc Hr].
  apply negb_true_iff in Hc. rewrite Hc, (IH s Hr). reflexivity.
Qed.

Lemma split_parts_slash_free :
  forall s, Forall (fun x => slash_free x = true) (split s).
Proof.
  induction s as [ | c r IH ]; simpl.
  - constructor; [ reflexivity | constructor ].
  - destruct (is_sep c) eqn:Hc.
    + constructor; [ reflexivity | exact IH ].
    + destruct (split r) as [ | h t ].
      * constructor; [ simpl; rewrite Hc; reflexivity | constructor ].
      * inversion IH; subst. constructor; [ simpl; rewrite Hc; assumption | assumption ].
Qed.

Lemma split_unsplit :
  forall l, l <> [] -> Forall (fun x => slash_free x = true) l ->
            split (unsplit l) = l.
Proof.
  induction l as [ | x r IH ]; intros Hne Hall; [ contradiction | ].
  inversion Hall as [ | ? ? Hx Hr ]; subst.
  destruct r as [ | y r' ].
  - simpl. apply split_slash_free. exact Hx.
  - change (unsplit (x :: y :: r')) with (x ++ String "/" (unsplit (y :: r'))).
    rewrite split_app_sep by exact Hx.
    rewrite IH; [ reflexivity | discriminate | exact Hr ].
Qed.

Lemma isAbsolute_slash_free_app :
  forall x s, x <> EmptyString -> slash_free x = true -> isAbsolute (x ++ s) = false.
Proof.
  intros [ | c r ] s Hne H; [ contradiction | ].
  simpl in *. apply andb_true_iff in H. destruct H as [Hc _].
  apply negb_true_iff in Hc. exact Hc.
Qed.

Lemma unsplit_cons_app :
  forall x r, exists s, unsplit (x :: r) = x ++ s.
Proof.
  intros x [ | y r ].
  - exists EmptyString. simpl. induction x; simpl; congruence.
  - exists (String "/" (unsplit (y :: r))). reflexivity.
Qed.

Lemma app_not_empty : forall x s, x <> EmptyString -> x ++ s <> EmptyString.
Proof. intros [ | c r ] s H; [ contradiction | discriminate ]. Qed.

Lemma nonempty_true : forall x, nonempty x = true <-> x <> EmptyString.
Proof.
  intros x. unfold nonempty. rewrite negb_true_iff. apply String.eqb_neq.
Qed.

Lemma names_entry_nonempty : forall x, names_entry x = true -> nonempty x = true.
Proof.
  intros x H. unfold names_entry in H. apply andb_true_iff in H. tauto.
Qed.

Lemma filter_names_nonempty :
  forall l, filter names_entry (filter nonempty l) = filter names_entry l.
Proof.
  induction l as [ | x r IH ]; simpl; [ reflexivity | ].
  destruct (nonempty x) eqn:Hx; simpl.
  - rewrite IH. reflexivity.
  - destruct (names_entry x) eqn:Hn; [ | exact IH ].
    apply names_entry_nonempty in Hn. congruence.
Qed.

Lemma filter_idem : forall (f : string -> bool) l, filter f (filter f l) = filter f l.
Proof.
  intros f. induction l as [ | x r IH ]; simpl; [ reflexivity | ].
  destruct (f x) eqn:Hx; simpl; [ rewrite Hx, IH | ]; auto.
Qed.

Lemma Forall_filter :
  forall (P : string -> Prop) f l, Forall P l -> Forall P (filter f l).
Proof.
  intros P f l H. induction H; simpl; [ constructor | ].
  destruct (f x); [ constructor | ]; assumption.
Qed.

Lemma filter_all : forall (f : string -> bool) l, Forall (fun x => f x = true) (filter f l).
Proof.
  intros f. induction l as [ | x r IH ]; simpl; [ constructor | ].
  destruct (f x) eqn:Hx; [ constructor | ]; assumption.
Qed.

(** Facts about a path built by [unsplit] from segments that name entries. *)
Lemma unsplit_entries :
  forall k, k <> [] ->
    Forall (fun x => slash_free x = true) k ->
    Forall (fun x => names_entry x = true) k ->
    unsplit k <> EmptyString /\ isAbsolute (unsplit k) = false
    /\ segments (unsplit k) = k.
Proof.
  intros k Hne Hsf Hn.
  destruct k as [ | y k' ]; [ contradiction | ].
  assert (Hy : y <> EmptyString).
  { inversion Hn; subst. apply nonempty_true, names_entry_nonempty. assumption. }
  destruct (unsplit_cons_app y k') as [s Hs].
  repeat split.
  - rewrite Hs. apply app_not_empty. exact Hy.
  - rewrite Hs. apply isAbsolute_slash_free_app; [ exact Hy | inversion Hsf; assumption ].
  - unfold segments. rewrite split_unsplit by (assumption || discriminate).
    clear -Hn. induction Hn; simpl; [ reflexivity | ].
    rewrite H. f_equal. exact IHHn.
Qed.

(** What [join] gives on slash-free arguments (such as the parts of a
    [split]): a non-empty relative path whose segments are the arguments
    that name an entry. *)
Lemma join_parts :
  forall l, Forall (fun x => slash_free x = true) l ->
    join l <> EmptyString /\ isAbsolute (join l) = false
    /\ segments (join l) = filter names_entry l.
Proof.
  intros l Hsf. unfold join.
  destruct (filter nonempty l) as [ | x r ] eqn:Hf.
  - rewrite <- filter_names_nonempty, Hf. repeat split. discriminate.
  - assert (Hsf' : Forall (fun x => slash_free x = true) (x :: r)).
    { rewrite <- Hf. apply Forall_filter. exact Hsf. }
    assert (Hx : x <> EmptyString).
    { apply nonempty_true.
      pose proof (filter_all nonempty l) as Ha. rewrite Hf in Ha.
      inversion Ha; assumption. }
    assert (Habs : isAbsolute (unsplit (x :: r)) = false).
    { destruct (unsplit_cons_app x r) as [s ->].
      apply isAbsolute_slash_free_app; [ exact Hx | inversion Hsf'; assumption ]. }
    assert (Hseg : segments (unsplit (x :: r)) = filter names_entry l).
    { unfold segments. rewrite split_unsplit by (assumption || discriminate).
      rewrite <- Hf. apply filter_names_nonempty. }
    unfold normalize. rewrite Habs, Hseg.
    destruct (filter names_entry l) as [ | y k ] eqn:Hk.
    + simpl. repeat split. discriminate.
    + assert (Hk1 : Forall (fun x => slash_free x = true) (y :: k)).
      { rewrite <- Hk. apply Forall_filter. exact Hsf. }
      assert (Hk2 : Forall (fun x => names_entry x = true) (y :: k)).
      { rewrite <- Hk. apply filter_all. }
      destruct (unsplit_entries (y :: k)) as (Hne & Ha & Hs);
        [ discriminate | assumption | assumption | ].
      apply String.eqb_neq in Hne. rewrite Hne.
      apply String.eqb_neq in Hne. repeat split; assumption.
Qed.

Lemma segments_entry_names : forall s, Forall entry_name (segments s).
Proof.
  intros s. unfold segments.
  pose proof (Forall_filter _ names_entry _ (split_parts_slash_free s)) as H1.
  pose proof (filter_all names_entry (split s)) as H2.
  apply Forall_forall. intros x Hx. split.
  - exact (proj1 (Forall_forall _ _) H1 x Hx).
  - exact (proj1 (Forall_forall _ _) H2 x Hx).
Qed.

Lemma Forall_entry_split :
  forall l, Forall entry_name l ->
    Forall (fun x => slash_free x = true) l
    /\ Forall (fun x => names_entry x = true) l.
Proof.
  intros l H. split; apply Forall_forall; intros x Hx;
    apply (proj1 (Forall_forall _ _) H x Hx).
Qed.


(** Segments of a path written from entry names. *)
Lemma segments_unsplit :
  forall l, Forall entry_name l -> segments (unsplit l) = l.
Proof.
  intros l H. destruct (Forall_entry_split l H) as [Hsf Hn].
  destruct l as [ | x r ]; [ reflexivity | ].
  apply unsplit_entries; [ discriminate | assumption | assumption ].
Qed.

Lemma segments_rooted :
  forall l, Forall entry_name l -> segments ("/" ++ unsplit l) = l.
Proof.
  intros l H. unfold segments. simpl.
  apply (segments_unsplit l H).
Qed.

Lemma normalize_rooted :
  forall l, Forall entry_name l -> normalize ("/" ++ unsplit l) = "/" ++ unsplit l.
Proof.
  intros l H. unfold normalize. rewrite (segments_rooted l H). reflexivity.
Qed.

Lemma normalize_idempotent : forall s, normalize (normalize s) = normalize s.
Proof.
  intros s. pose proof (segments_entry_names s) as H.
  unfold normalize at 2 3. destruct (isAbsolute s).
  - apply normalize_rooted. exact H.
  - destruct (String.eqb_spec (unsplit (segments s)) EmptyString) as [He | Hne].
    + reflexivity.
    + destruct (segments s) as [ | x r ] eqn:Hs; [ contradiction Hne; reflexivity | ].
      destruct (Forall_entry_split _ H) as [Hsf Hn].
      destruct (unsplit_entries (x :: r)) as (_ & Ha & Hseg);
        [ discriminate | assumption | assumption | ].
      unfold normalize. rewrite Ha, Hseg.
      apply String.eqb_neq in Hne. rewrite Hne. reflexivity.
Qed.

Lemma resolve_segments_entry_names :
  forall args acc, Forall entry_name acc -> Forall entry_name (resolve_segments acc args).
Proof.
  induction args as [ | a r IH ]; intros acc H; simpl; [ exact H | ].
  apply IH. destruct (isAbsolute a).
  - apply segments_entry_names.
  - apply Forall_app. split; [ exact H | apply segments_entry_names ].
Qed.

Lemma normalize_resolve :
  forall wd args, Forall entry_name wd ->
    normalize (resolve wd args) = resolve wd args.
Proof.
  intros wd args H. unfold resolve.
  apply normalize_rooted, resolve_segments_entry_names, H.
Qed.

Lemma walk_prefix :
  forall a b n m, walk (a ++ b) n = inr m -> exists m', walk a n = inr m'.
Proof.
  induction a as [ | k a IH ]; intros b n m H; simpl in *.
  - eauto.
  - destruct n as [ d | es ]; [ discriminate | ].
    destruct (assoc k es); [ eauto | discriminate ].
Qed.

Lemma Forall_firstn_of :
  forall (P : string -> Prop) i l, Forall P l -> Forall P (firstn i l).
Proof.
  intros P i l H. rewrite <- (firstn_skipn i l) in H.
  apply Forall_app in H. tauto.
Qed.

Lemma locate_join :
  forall st l, Forall (fun x => slash_free x = true) l ->
    locate st (join l) = (cwd st ++ filter names_entry l)%list.
Proof.
  intros st l H. destruct (join_parts l H) as (_ & Ha & Hs).
  unfold locate. rewrite Ha, Hs. reflexivity.
Qed.

Lemma locate_from_cwd :
  forall st src, from_cwd st src ->
    locate st src = (cwd st ++ filter names_entry (split src))%list.
Proof.
  intros st src [H | H]; unfold locate, segments.
  - rewrite H. reflexivity.
  - rewrite H. destruct (isAbsolute src); reflexivity.
Qed.

Lemma from_cwd_same :
  forall st st' src, cwd st' = cwd st -> from_cwd st src -> from_cwd st' src.
Proof.
  intros st st' src Hcwd [H | H]; [ left; exact H | right; congruence ].
Qed.

Lemma splitPaths_accessible :
  forall st src n,
    from_cwd st src ->
    walk (locate st src) (root st) = inr n ->
    Forall (accessible st) (splitPaths src).
Proof.
  intros st src n Habs Hw. unfold splitPaths.
  apply Forall_map, Forall_forall. intros i _.
  pose proof (Forall_firstn_of _ i _ (split_parts_slash_free src)) as Hsf.
  split; [ apply (join_parts _ Hsf) | ].
  rewrite locate_join by exact Hsf.
  rewrite locate_from_cwd in Hw by exact Habs.
  rewrite <- (firstn_skipn i (split src)) in Hw at 1.
  rewrite filter_app, app_assoc in Hw.
  apply walk_prefix in Hw. exact Hw.
Qed.

Lemma splitPaths_not_nil : forall src, splitPaths src <> [].
Proof.
  intros src H. unfold splitPaths in H.
  apply (f_equal (@List.length string)) in H.
  rewrite length_map, length_seq in H.
  apply length_zero_iff_nil in H. exact (split_not_nil src H).
Qed.

Lemma native_walk_accessible :
  forall st q n, q <> EmptyString -> walk (locate st q) (root st) = inr n ->
    native_walk q st = (Ret n, st).
Proof.
  intros st q n Hne Hw. unfold native_walk, native_path, bind, get.
  apply String.eqb_neq in Hne. rewrite Hne. simpl. rewrite Hw. reflexivity.
Qed.

Lemma accessSync_accessible :
  forall st q m, accessible st q -> accessSync q m st = (Ret tt, st).
Proof.
  intros st q m [Hne [n Hw]]. unfold accessSync, bind.
  rewrite (native_walk_accessible st q n Hne Hw). reflexivity.
Qed.

Lemma mkdirSync_accessible :
  forall st q m, accessible st q ->
    mkdirSync q m st = (Throw (SystemError EEXIST), st).
Proof.
  intros st q m [Hne [n Hw]].
  unfold mkdirSync, create_entry, native_path, bind, get.
  apply String.eqb_neq in Hne. rewrite Hne. simpl. rewrite Hw. reflexivity.
Qed.

Lemma mkdirs_for_accessible :
  forall st mode len rest i,
    Forall (accessible st) rest -> rest <> [] ->
    (i + List.length rest = len)%nat ->
    mkdirs_for len i rest mode st = (Throw (SystemError EEXIST), st).
Proof.
  intros st mode len. induction rest as [ | q rest IH ]; intros i Hall Hne Hlen.
  - contradiction.
  - inversion Hall as [ | ? ? Hq Hrest ]; subst. cbn [mkdirs_for].
    destruct rest as [ | q' rest' ].
    + replace (i =? i + List.length [q] - 1)%nat with true
        by (symmetry; apply Nat.eqb_eq; simpl; lia).
      unfold bind. rewrite (mkdirSync_accessible st q mode Hq). reflexivity.
    + replace (i =? i + List.length (q :: q' :: rest') - 1)%nat with false
        by (symmetry; apply Nat.eqb_neq; simpl; lia).
      unfold bind at 1. unfold try_catch.
      rewrite (accessSync_accessible st q R_OK Hq).
      apply IH; [ assumption | discriminate | simpl; lia ].
Qed.

Lemma mkdirs_next_accessible :
  forall st mode cb queue,
    Forall (accessible st) queue -> queue <> [] ->
    mkdirs_next queue mode cb st
    = (Ret tt, set_EX (VErr (SystemError EEXIST)) st).
Proof.
  intros st mode cb. induction queue as [ | q queue IH ]; intros Hall Hne.
  - contradiction.
  - inversion Hall as [ | ? ? Hq Hrest ]; subst. cbn [mkdirs_next truthy].
    assert (Ht : negb (q =? EmptyString)%string = true).
    { destruct Hq as [Hq _]. apply negb_true_iff, String.eqb_neq. exact Hq. }
    rewrite Ht.
    destruct queue as [ | q' queue' ].
    + unfold async. rewrite (mkdirSync_accessible st q mode Hq). reflexivity.
    + unfold async at 1. rewrite (accessSync_accessible st q R_OK Hq).
      apply IH; [ assumption | discriminate ].
Qed.

Lemma mkdirs_sync_existing :
  forall st src mode cb n,
    from_cwd st src ->
    walk (locate st src) (root st) = inr n ->
    mkdirs (Some src) mode cb true st
    = (Ret ERROR, snd (handleError (VErr (SystemError EEXIST)) cb st)).
Proof.
  intros st src mode cb n Habs Hw.
  pose proof (splitPaths_accessible st src n Habs Hw) as Hall.
  pose proof (splitPaths_not_nil src) as Hne.
  unfold mkdirs, try_catch_finally.
  destruct (splitPaths src) as [ | q [ | q' r ] ] eqn:Hq; [ contradiction | | ].
  - simpl. inversion Hall; subst. unfold bind at 1. unfold bind at 1. simpl.
    rewrite (mkdirSync_accessible st q mode) by assumption. reflexivity.
  - replace (List.length (q :: q' :: r) <? 2)%nat with false
      by (symmetry; apply Nat.ltb_ge; simpl; lia).
    unfold bind at 1.
    rewrite (mkdirs_for_accessible st mode (List.length (q :: q' :: r)) (q :: q' :: r) 0 Hall Hne eq_refl).
    reflexivity.
Qed.

Lemma mkdirs_async_existing :
  forall st src mode cb n,
    from_cwd st src ->
    walk (locate st src) (root st) = inr n ->
    mkdirs (Some src) mode cb false st
    = (Ret VUndefined, set_EX (VErr (SystemError EEXIST)) st).
Proof.
  intros st src mode cb n Habs Hw.
  pose proof (splitPaths_accessible st src n Habs Hw) as Hall.
  pose proof (splitPaths_not_nil src) as Hne.
  unfold mkdirs, undefined_after.
  destruct (splitPaths src) as [ | q [ | q' r ] ] eqn:Hq; [ contradiction | | ].
  - simpl. inversion Hall; subst. unfold bind, async. simpl.
    rewrite (mkdirSync_accessible st q mode) by assumption. reflexivity.
  - replace (List.length (q :: q' :: r) <? 2)%nat with false
      by (symmetry; apply Nat.ltb_ge; simpl; lia).
    unfold bind.
    rewrite (mkdirs_next_accessible st mode cb (q :: q' :: r) Hall Hne).
    reflexivity.
Qed.

Lemma assoc_set_entry_same :
  forall k v es, assoc k (set_entry k v es) = Some v.
Proof.
  intros k v. induction es as [ | [k' c] r IH ]; simpl.
  - rewrite String.eqb_refl. reflexivity.
  - destruct (k' =? k)%string eqn:Hk; simpl; rewrite Hk; [ reflexivity | exact IH ].
Qed.

Lemma walk_put_same :
  forall p v n es,
    p <> [] -> walk (parent_of p) n = inr (DirNode es) ->
    walk p (put p v n) = inr v.
Proof.
  unfold parent_of.
  induction p as [ | k p IH ]; intros v n es Hne Hw; [ contradiction | ].
  destruct p as [ | k' p' ].
  - simpl in Hw. inversion Hw; subst. simpl.
    destruct (assoc k es); simpl; rewrite assoc_set_entry_same; reflexivity.
  - change (removelast (k :: k' :: p')) with (k :: removelast (k' :: p')) in Hw.
    simpl in Hw. destruct n as [ d | es0 ]; [ discriminate | ].
    destruct (assoc k es0) as [ c | ] eqn:Hc; [ | discriminate ].
    cbn [put]. rewrite Hc. cbn [walk]. rewrite assoc_set_entry_same.
    apply (IH v c es); [ discriminate | exact Hw ].
Qed.

Lemma create_entry_ok :
  forall st s v st',
    create_entry s v st = (Ret tt, st') ->
    s <> EmptyString /\ cwd st' = cwd st
    /\ walk (locate st' s) (root st') = inr v.
Proof.
  intros st s v st' H.
  unfold create_entry, native_path, bind, get in H.
  destruct (String.eqb_spec s EmptyString) as [ | Hne ]; [ discriminate | ].
  simpl in H.
  destruct (walk (locate st s) (root st)) as [ [] | n ] eqn:Hw; try discriminate.
  destruct (walk (parent_of (locate st s)) (root st)) as [ e | [ d | es ] ] eqn:Hp;
    try discriminate.
  unfold modify in H. inversion H; subst; clear H.
  repeat split; [ exact Hne | ].
  unfold locate. simpl. fold (locate st s).
  apply (walk_put_same _ _ _ es); [ | exact Hp ].
  intros Hnil. rewrite Hnil in Hw. discriminate.
Qed.

Lemma create_entry_cwd :
  forall st s v o st', create_entry s v st = (o, st') -> cwd st' = cwd st.
Proof.
  intros st s v o st' H.
  unfold create_entry, native_path, bind, get in H.
  destruct (s =? EmptyString)%string; [ inversion H; reflexivity | ].
  simpl in H.
  destruct (walk (locate st s) (root st)) as [ [] | n ];
    try (inversion H; reflexivity).
  destruct (walk (parent_of (locate st s)) (root st)) as [ e | [ d | es ] ];
    inversion H; reflexivity.
Qed.

Lemma accessSync_state :
  forall st q m o st', accessSync q m st = (o, st') -> st' = st.
Proof.
  intros st q m o st' H.
  unfold accessSync, native_walk, native_path, bind, get in H.
  destruct (q =? EmptyString)%string; [ inversion H; reflexivity | ].
  simpl in H.
  destruct (walk (locate st q) (root st)); inversion H; reflexivity.
Qed.

Lemma mkdirs_for_success :
  forall mode len rest i st st',
    rest <> [] -> (i + List.length rest = len)%nat ->
    mkdirs_for len i rest mode st = (Ret tt, st') ->
    cwd st' = cwd st /\ accessible st' (last rest EmptyString).
Proof.
  intros mode len. induction rest as [ | q rest IH ]; intros i st st' Hne Hlen H.
  - contradiction.
  - cbn [mkdirs_for] in H. destruct rest as [ | q' rest' ].
    + replace (i =? len - 1)%nat with true in H
        by (symmetry; apply Nat.eqb_eq; simpl in Hlen; lia).
      unfold bind in H.
      destruct (mkdirSync q mode st) as [ [ [] | e ] st1 ] eqn:Hm; [ | discriminate ].
      cbn [mkdirs_for] in H. inversion H; subst.
      apply create_entry_ok in Hm. destruct Hm as (Hq & Hcwd & Hw).
      split; [ exact Hcwd | ]. split; [ exact Hq | eauto ].
    + replace (i =? len - 1)%nat with false in H
        by (symmetry; apply Nat.eqb_neq; simpl in Hlen; lia).
      unfold bind at 1 in H.
      destruct (try_catch (accessSync q R_OK) (fun _ => mkdirSync q mode) st)
        as [ [ [] | e ] st1 ] eqn:Hstep; [ | discriminate ].
      assert (Hcwd1 : cwd st1 = cwd st).
      { unfold try_catch in Hstep.
        destruct (accessSync q R_OK st) as [ [ [] | e ] st0 ] eqn:Ha.
        - apply accessSync_state in Ha. inversion Hstep; subst. reflexivity.
        - apply accessSync_state in Ha. subst st0.
          apply create_entry_cwd in Hstep. exact Hstep. }
      apply IH in H; [ | discriminate | simpl in *; lia ].
      destruct H as [Hcwd Hacc]. split; [ congruence | exact Hacc ].
Qed.

Lemma last_splitPaths :
  forall src, last (splitPaths src) EmptyString = join (split src).
Proof.
  intros src. unfold splitPaths.
  pose proof (split_not_nil src) as Hne.
  destruct (List.length (split src)) as [ | m ] eqn:Hlen.
  - apply length_zero_iff_nil in Hlen. contradiction.
  - rewrite seq_S, map_app. cbn [map]. rewrite last_last.
    change (1 + m)%nat with (S m). rewrite <- Hlen, firstn_all. reflexivity.
Qed.

Lemma accessible_leaf :
  forall st src, from_cwd st src ->
    accessible st (join (split src)) ->
    exists n, walk (locate st src) (root st) = inr n.
Proof.
  intros st src Habs [_ [n Hw]].
  rewrite locate_join in Hw by apply split_parts_slash_free.
  rewrite locate_from_cwd by exact Habs. eauto.
Qed.

Lemma mkdirs_sync_success :
  forall st src mode,
    from_cwd st src ->
    fst (mkdirs (Some src) mode None true st) = Ret SUCCESS ->
    let st1 := snd (mkdirs (Some src) mode None true st) in
    cwd st1 = cwd st /\ exists n, walk (locate st1 src) (root st1) = inr n.
Proof.
  intros st src mode Habs H st1. subst st1.
  pose proof (splitPaths_not_nil src) as Hne.
  pose proof (last_splitPaths src) as Hlast.
  unfold mkdirs, try_catch_finally in *.
  destruct (splitPaths src) as [ | q [ | q' r ] ] eqn:Hq; [ contradiction | | ].
  - cbn [List.length Nat.ltb Nat.leb first_of] in *. unfold bind, ret in *.
    destruct (mkdirSync q mode st) as [ [ [] | e ] st1 ] eqn:Hm;
      cbn [fst snd] in *; [ | discriminate ].
    apply create_entry_ok in Hm. destruct Hm as (Hq0 & Hcwd & Hw).
    split; [ exact Hcwd | ].
    apply accessible_leaf; [ exact (from_cwd_same _ _ _ Hcwd Habs) | ].
    rewrite <- Hlast. split; eauto.
  - replace (List.length (q :: q' :: r) <? 2)%nat with false in *
      by (symmetry; apply Nat.ltb_ge; simpl; lia).
    unfold bind in *.
    destruct (mkdirs_for (List.length (q :: q' :: r)) 0 (q :: q' :: r) mode st)
      as [ [ [] | e ] st1 ] eqn:Hm; cbn [fst snd] in *; [ | discriminate ].
    apply mkdirs_for_success in Hm; [ | discriminate | reflexivity ].
    destruct Hm as [Hcwd Hacc]. split; [ exact Hcwd | ].
    apply accessible_leaf; [ exact (from_cwd_same _ _ _ Hcwd Habs) | ].
    rewrite <- Hlast. exact Hacc.
Qed.

(** *** [mkdirs] on a path that already exists *)

(** C2 (as stated, fails on the code).  Every link of [tmp/x] exists in the
    sample tree, yet the synchronous [mkdirs("tmp/x")] does not report
    success; and after a first [mkdirs("tmp/x/y/z")] that succeeds, the second
    call on the same path does not report success either. *)
Lemma mkdirs_existing_chain_counterexample :
  let st := sample_state "/tmp/x" in
  let st1 := snd (mkdirs (Some "tmp/x/y/z") 511 None true st) in
  (exists n, walk (locate st "tmp") (root st) = inr n)
  /\ (exists es, walk (locate st "tmp/x") (root st) = inr (DirNode es))
  /\ fst (mkdirs (Some "tmp/x") 511 None true st) <> Ret SUCCESS
  /\ fst (mkdirs (Some "tmp/x/y/z") 511 None true st) = Ret SUCCESS
  /\ fst (mkdirs (Some "tmp/x/y/z") 511 None true st1) <> Ret SUCCESS.
Proof.
  cbv zeta. repeat split.
  - eexists. reflexivity.
  - eexists. reflexivity.
  - vm_compute. discriminate.
  - vm_compute. discriminate.
Qed.

(** C2, amended.  For a path read from the working directory (a relative
    path, or any path when the working directory is the root) that already
    exists, as a directory or as a file, the synchronous [mkdirs] skips the
    ancestors, fails at the unconditional [mkdirSync] of the leaf, and reports
    it through the Result Convention: it returns [ERROR] and [handleError]
    receives the native [EEXIST] error; the tree is not changed.  Hence, when
    a first synchronous [mkdirs] on such a path returns [SUCCESS], the path
    exists afterwards and a second call on it returns [ERROR] with [EEXIST] in
    the [EX] slot. *)
Theorem mkdirs_sync_existing_leaf_reports_error :
  forall st src mode (cb : option callback),
    from_cwd st src ->
    (forall n,
        walk (locate st src) (root st) = inr n ->
        mkdirs (Some src) mode cb true st
        = (Ret ERROR, snd (handleError (VErr (SystemError EEXIST)) cb st))
        /\ mkdirs (Some src) mode None true st
           = (Ret ERROR, set_EX (VErr (SystemError EEXIST)) st))
    /\ (fst (mkdirs (Some src) mode None true st) = Ret SUCCESS ->
        let st1 := snd (mkdirs (Some src) mode None true st) in
        (exists n, walk (locate st1 src) (root st1) = inr n)
        /\ mkdirs (Some src) mode None true st1
           = (Ret ERROR, set_EX (VErr (SystemError EEXIST)) st1)).
Proof.
  intros st src mode cb Habs. split.
  - intros n Hw. split.
    + apply (mkdirs_sync_existing st src mode cb n Habs Hw).
    + apply (mkdirs_sync_existing st src mode None n Habs Hw).
  - intros Hok st1.
    destruct (mkdirs_sync_success st src mode Habs Hok) as [Hcwd [n Hw]].
    fold st1 in Hw, Hcwd. split; [ eauto | ].
    apply (mkdirs_sync_existing st1 src mode None n
             (from_cwd_same _ _ _ Hcwd Habs) Hw).
Qed.

(** [mkdirs("tmp/x")] where [tmp/x] exists. *)
Lemma mkdirs_sync_existing_leaf_reports_error_witness :
  from_cwd (sample_state "/tmp/x") "tmp/x"
  /\ walk (locate (sample_state "/tmp/x") "tmp/x") sample_tree
     = inr (DirNode [ ("f.txt", FileNode hello) ])
  /\ mkdirs (Some "tmp/x") 511 None true (sample_state "/tmp/x")
     = (Ret ERROR, set_EX (VErr (SystemError EEXIST)) (sample_state "/tmp/x")).
Proof.
  split; [ left; reflexivity | ]. split; [ reflexivity | ].
  destruct (mkdirs_sync_existing_leaf_reports_error
              (sample_state "/tmp/x") "tmp/x" 511 None (or_introl eq_refl))
    as [H _].
  destruct (H (DirNode [ ("f.txt", FileNode hello) ]) eq_refl) as [_ H2].
  exact H2.
Defined.

(** *** Asynchronous [mkdir] and [mkdirs] when the native call fails *)

(** C1 (fails on the code).  When the native [mkdir] fails, the completion
    of the asynchronous [mkdir] calls [handleError(err)] with no callback: the
    error goes to the [EX] slot and the caller's callback is not called at
    all, whatever it is.  The asynchronous [mkdirs] does the same at each of
    its [mkdir] steps; in particular, on a path read from the working
    directory that already exists it ends with [EEXIST] in [EX] and no call.  The synchronous [mkdir] given
    the same callback does call it with [(ERROR, cause)]. *)
Theorem async_mkdir_failure_never_calls_back :
  forall st src mode (cb : callback),
    (forall e st',
        mkdirSync src mode st = (Throw e, st') ->
        mkdir (Some src) mode (Some cb) false st
        = (Ret VUndefined, set_EX (VErr e) st')
        /\ calls (snd (mkdir (Some src) mode (Some record_call) false st))
           = calls st'
        /\ mkdir (Some src) mode (Some record_call) true st
           = (Ret ERROR, set_calls (calls st' ++ [(ERROR, VErr e)]) st'))
    /\ (forall n,
        from_cwd st src ->
        walk (locate st src) (root st) = inr n ->
        mkdirs (Some src) mode (Some cb) false st
        = (Ret VUndefined, set_EX (VErr (SystemError EEXIST)) st)
        /\ calls (snd (mkdirs (Some src) mode (Some record_call) false st))
           = calls st).
Proof.
  intros st src mode cb. split.
  - intros e st' H. repeat split.
    + unfold mkdir, undefined_after, async, bind. rewrite H. reflexivity.
    + unfold mkdir, undefined_after, async, bind. rewrite H. reflexivity.
    + unfold mkdir, try_catch_finally, bind. rewrite H. reflexivity.
  - intros n Habs Hw. split.
    + apply (mkdirs_async_existing st src mode (Some cb) n Habs Hw).
    + rewrite (mkdirs_async_existing st src mode (Some record_call) n Habs Hw).
      reflexivity.
Qed.

(** [File.mkdir({ src: "tmp", onCreate })] where [tmp] exists. *)
Lemma async_mkdir_failure_never_calls_back_witness :
  mkdirSync "tmp" 511 (sample_state "/tmp/x")
  = (Throw (SystemError EEXIST), sample_state "/tmp/x")
  /\ mkdir (Some "tmp") 511 (Some record_call) false (sample_state "/tmp/x")
     = (Ret VUndefined,
        set_EX (VErr (SystemError EEXIST)) (sample_state "/tmp/x")).
Proof.
  split; [ reflexivity | ].
  destruct (async_mkdir_failure_never_calls_back
              (sample_state "/tmp/x") "tmp" 511 record_call) as [H _].
  destruct (H (SystemError EEXIST) (sample_state "/tmp/x") eq_refl) as [H1 _].
  exact H1.
Defined.

(** *** Numeric strings and separators *)

Lemma slash_free_chars :
  forall s, slash_free s = sep_free_chars (list_ascii_of_string s).
Proof.
  induction s as [ | c r IH ]; simpl; [ reflexivity | ].
  rewrite IH. reflexivity.
Qed.

Lemma sep_free_app :
  forall a b, sep_free_chars (a ++ b) = sep_free_chars a && sep_free_chars b.
Proof. intros a b. apply forallb_app. Qed.

Lemma sep_free_of :
  forall (f : ascii -> bool) l,
    (forall c, f c = true -> is_sep c = false) ->
    forallb f l = true -> sep_free_chars l = true.
Proof.
  intros f l Hf H. unfold sep_free_chars.
  apply forallb_forall. intros c Hc.
  apply negb_true_iff, Hf. exact (proj1 (forallb_forall _ _) H c Hc).
Qed.

Lemma all_of_forallb :
  forall f l, all_of f l = true -> forallb f l = true.
Proof. intros f [ | c r ] H; [ reflexivity | exact H ]. Qed.

Ltac by_cases_on_char c :=
  destruct c as [ [] [] [] [] [] [] [] [] ]; vm_compute; congruence.

Lemma blank_not_sep : forall c, is_blank c = true -> is_sep c = false.
Proof. intros c. by_cases_on_char c. Qed.

Lemma hex_digit_not_sep : forall c, is_hex_digit c = true -> is_sep c = false.
Proof. intros c. by_cases_on_char c. Qed.

Lemma digit_not_sep : forall c, is_digit c = true -> is_sep c = false.
Proof. intros c. by_cases_on_char c. Qed.

Lemma drop_while_span :
  forall f l, exists pre, l = (pre ++ drop_while f l)%list /\ forallb f pre = true.
Proof.
  intros f. induction l as [ | c r IH ]; simpl.
  - exists []. split; reflexivity.
  - destruct (f c) eqn:Hc.
    + destruct IH as [pre [H1 H2]]. exists (c :: pre). split.
      * simpl. congruence.
      * simpl. rewrite Hc. exact H2.
    + exists []. split; reflexivity.
Qed.

Lemma sep_free_trim :
  forall l, sep_free_chars (trim l) = true -> sep_free_chars l = true.
Proof.
  intros l H. unfold trim in H.
  destruct (drop_while_span is_blank l) as [pre1 [H1 Hb1]].
  destruct (drop_while_span is_blank (rev (drop_while is_blank l))) as [pre2 [H2 Hb2]].
  apply (f_equal (@rev ascii)) in H2. rewrite rev_involutive, rev_app_distr in H2.
  rewrite H1, H2, !sep_free_app, H.
  rewrite (sep_free_of is_blank pre1 blank_not_sep Hb1).
  rewrite (sep_free_of is_blank (rev pre2) blank_not_sep).
  - reflexivity.
  - apply forallb_forall. intros c Hc. apply in_rev in Hc.
    exact (proj1 (forallb_forall _ _) Hb2 c Hc).
Qed.

Lemma sep_free_drop_sign :
  forall l, sep_free_chars (drop_sign l) = true -> sep_free_chars l = true.
Proof.
  intros [ | c r ] H; [ reflexivity | ]. simpl in *.
  destruct (Ascii.eqb c "+" || Ascii.eqb c "-")%bool eqn:Hs; [ | exact H ].
  rewrite H, andb_true_r.
  apply orb_true_iff in Hs. destruct Hs as [Hs | Hs]; apply Ascii.eqb_eq in Hs;
    subst; reflexivity.
Qed.

Lemma sep_free_exponent :
  forall l, exponent_ok l = true -> sep_free_chars l = true.
Proof.
  intros [ | c r ] H; [ reflexivity | ]. simpl in *.
  apply andb_true_iff in H. destruct H as [Hc Hr].
  apply andb_true_iff. split.
  - apply orb_true_iff in Hc. destruct Hc as [Hc | Hc]; apply Ascii.eqb_eq in Hc;
      subst; reflexivity.
  - apply sep_free_drop_sign.
    apply (sep_free_of is_digit _ digit_not_sep), all_of_forallb, Hr.
Qed.

Lemma sep_free_decimal :
  forall l, decimal_ok l = true -> sep_free_chars l = true.
Proof.
  intros l H. unfold decimal_ok in H.
  destruct (drop_while_span is_digit l) as [pre [H1 Hd]].
  rewrite H1, sep_free_app, (sep_free_of is_digit pre digit_not_sep Hd). simpl.
  destruct (drop_while is_digit l) as [ | c r2 ]; [ reflexivity | ].
  destruct (Ascii.eqb_spec c ".") as [ -> | Hc ].
  - apply andb_true_iff in H. destruct H as [_ He].
    destruct (drop_while_span is_digit r2) as [pre2 [H2 Hd2]].
    simpl. rewrite H2, sep_free_app, (sep_free_of is_digit pre2 digit_not_sep Hd2).
    apply sep_free_exponent. exact He.
  - apply andb_true_iff in H. destruct H as [_ He].
    apply sep_free_exponent. exact He.
Qed.

Lemma sep_free_radix :
  forall l, radix_ok l = true -> sep_free_chars l = true.
Proof.
  intros [ | z [ | x r ] ] H; try discriminate. simpl in H.
  apply andb_true_iff in H. destruct H as [Hz H].
  apply Ascii.eqb_eq in Hz. subst z.
  assert (Hx : is_sep x = false /\ sep_free_chars r = true).
  { repeat (apply orb_true_iff in H; destruct H as [H | H]);
      apply andb_true_iff in H; destruct H as [Hx Hr]; split.
    - apply orb_true_iff in Hx. destruct Hx as [Hx | Hx];
        apply Ascii.eqb_eq in Hx; subst; reflexivity.
    - apply (sep_free_of is_hex_digit _ hex_digit_not_sep), all_of_forallb, Hr.
    - apply orb_true_iff in Hx. destruct Hx as [Hx | Hx];
        apply Ascii.eqb_eq in Hx; subst; reflexivity.
    - apply all_of_forallb in Hr. revert Hr. apply sep_free_of.
      intros c Hc. apply andb_true_iff in Hc. destruct Hc as [Hc _].
      apply andb_true_iff in Hc. destruct Hc as [Hc _].
      apply digit_not_sep. exact Hc.
    - apply orb_true_iff in Hx. destruct Hx as [Hx | Hx];
        apply Ascii.eqb_eq in Hx; subst; reflexivity.
    - apply all_of_forallb in Hr. revert Hr. apply sep_free_of.
      intros c Hc. apply orb_true_iff in Hc. destruct Hc as [Hc | Hc];
        apply Ascii.eqb_eq in Hc; subst; reflexivity. }
  destruct Hx as [Hx Hr]. simpl. rewrite Hx, Hr. reflexivity.
Qed.

(** A string that [isNaN] takes for a number contains no separator. *)
Lemma numeric_slash_free :
  forall s, numeric_string s = true -> slash_free s = true.
Proof.
  intros s H. rewrite slash_free_chars. apply sep_free_trim.
  unfold numeric_string in H.
  destruct (trim (list_ascii_of_string s)) as [ | c r ] eqn:Ht; [ reflexivity | ].
  apply orb_true_iff in H. destruct H as [H | H].
  - apply orb_true_iff in H. destruct H as [H | H].
    + apply sep_free_radix. exact H.
    + apply sep_free_drop_sign. apply String.eqb_eq in H.
      apply (f_equal list_ascii_of_string) in H.
      rewrite list_ascii_of_string_of_list_ascii in H. rewrite H. reflexivity.
  - apply sep_free_drop_sign, sep_free_decimal. exact H.
Qed.

Lemma isNaN_with_sep : forall s, slash_free s = false -> isNaN (VStr s) = true.
Proof.
  intros s H. simpl. apply negb_true_iff.
  destruct (numeric_string s) eqn:Hn; [ | reflexivity ].
  apply numeric_slash_free in Hn. congruence.
Qed.

(** *** The paths [rimraf] builds *)

(** [split] distributes over a separator. *)
Lemma split_app :
  forall a b, split (a ++ String "/" b) = (split a ++ split b)%list.
Proof.
  induction a as [ | c r IH ]; intros b; simpl; [ reflexivity | ].
  destruct (is_sep c); [ rewrite IH; reflexivity | ].
  rewrite IH. pose proof (split_not_nil r) as Hne.
  destruct (split r) as [ | h t ]; [ contradiction | reflexivity ].
Qed.

Lemma isAbsolute_app :
  forall a b, a <> EmptyString -> isAbsolute (a ++ b) = isAbsolute a.
Proof. intros [ | c r ] b H; [ contradiction | reflexivity ]. Qed.

Lemma slash_free_app_sep : forall a b, slash_free (a ++ String "/" b) = false.
Proof.
  induction a as [ | c r IH ]; intros b; simpl; [ reflexivity | ].
  rewrite IH. apply andb_false_r.
Qed.

Lemma unsplit_two_has_sep :
  forall x y l, slash_free (unsplit (x :: y :: l)) = false.
Proof.
  intros x y l.
  change (unsplit (x :: y :: l)) with (x ++ String "/" (unsplit (y :: l))).
  apply slash_free_app_sep.
Qed.

Lemma segments_normalize : forall s, segments (normalize s) = segments s.
Proof.
  intros s. pose proof (segments_entry_names s) as H. unfold normalize.
  destruct (isAbsolute s).
  - apply segments_rooted. exact H.
  - destruct (String.eqb_spec (unsplit (segments s)) EmptyString) as [He | Hne].
    + destruct (segments s) as [ | x r ] eqn:Hs; [ reflexivity | ].
      destruct (Forall_entry_split _ H) as [Hsf Hn].
      destruct (unsplit_entries (x :: r)) as (Hu & _);
        [ discriminate | assumption | assumption | contradiction ].
    + apply segments_unsplit. exact H.
Qed.

(** The path of the entry [k] of the directory [src], as [rimraf] builds
    it with [join(src, k)]. *)
Lemma join_child :
  forall st src k,
    src <> EmptyString -> entry_name k ->
    isAbsolute src = true \/ segments src <> [] ->
    let q := join [src; k] in
    q <> EmptyString
    /\ locate st q = (locate st src ++ [k])%list
    /\ isNaN (VStr q) = true
    /\ (isAbsolute q = true \/ segments q <> []).
Proof.
  intros st src k Hne [Hsf Hk] Hsrc q.
  assert (Hk0 : k <> EmptyString)
    by (apply nonempty_true, names_entry_nonempty; exact Hk).
  assert (Hq : q = normalize (src ++ String "/" k)).
  { subst q. unfold join. simpl.
    apply nonempty_true in Hne. apply nonempty_true in Hk0.
    rewrite Hne, Hk0. reflexivity. }
  assert (Hseg : segments (src ++ String "/" k) = (segments src ++ [k])%list).
  { unfold segments. rewrite split_app, filter_app.
    rewrite (split_slash_free k Hsf). simpl. rewrite Hk. reflexivity. }
  assert (Habs : isAbsolute (src ++ String "/" k) = isAbsolute src)
    by (apply isAbsolute_app; exact Hne).
  assert (Hsegq : segments q = (segments src ++ [k])%list)
    by (rewrite Hq, segments_normalize; exact Hseg).
  pose proof (segments_entry_names (src ++ String "/" k)) as Hnames.
  rewrite Hseg in Hnames.
  assert (Hshape :
    (isAbsolute src = true /\ q = "/" ++ unsplit (segments src ++ [k]))
    \/ (isAbsolute src = false /\ segments src <> []
        /\ q = unsplit (segments src ++ [k]))).
  { rewrite Hq. unfold normalize. rewrite Habs, Hseg.
    destruct (isAbsolute src) eqn:Ha; [ left; split; reflexivity | right ].
    destruct Hsrc as [ Hs | Hs ]; [ discriminate | ].
    split; [ reflexivity | ]. split; [ exact Hs | ].
    destruct (String.eqb_spec (unsplit (segments src ++ [k])) EmptyString)
      as [He | _]; [ | reflexivity ].
    destruct (Forall_entry_split _ Hnames) as [H1 H2].
    destruct (unsplit_entries (segments src ++ [k])) as (Hu & _);
      [ destruct (segments src); discriminate | assumption | assumption
      | contradiction ]. }
  destruct Hshape as [ [Ha Hs] | (Ha & Hs & Hu) ].
  - assert (Hqa : isAbsolute q = true) by (rewrite Hs; reflexivity).
    repeat split.
    + rewrite Hs. discriminate.
    + unfold locate. rewrite Hqa, Ha, Hsegq. reflexivity.
    + apply isNaN_with_sep. rewrite Hs. reflexivity.
    + left. exact Hqa.
  - destruct (Forall_entry_split _ Hnames) as [H1 H2].
    destruct (unsplit_entries (segments src ++ [k])) as (Hu1 & Hu2 & _);
      [ destruct (segments src); discriminate | assumption | assumption | ].
    repeat split.
    + rewrite Hu. exact Hu1.
    + unfold locate. rewrite Hu, Hu2, Ha, <- Hu, Hsegq, app_assoc. reflexivity.
    + apply isNaN_with_sep. rewrite Hu.
      destruct (segments src) as [ | x [ | y l ] ]; [ contradiction | | ];
        apply unsplit_two_has_sep.
    + right. rewrite Hsegq. destruct (segments src); discriminate.
Qed.

(** *** Removing entries from the tree *)

Lemma height_cons :
  forall k c r,
    height (DirNode ((k, c) :: r)) = S (Nat.max (height c) (pred (height (DirNode r)))).
Proof. intros k c r. reflexivity. Qed.

Lemma well_named_cons :
  forall k c r,
    well_named (DirNode ((k, c) :: r))
    <-> entry_name k /\ well_named c /\ well_named (DirNode r).
Proof. intros k c r. reflexivity. Qed.

Lemma walk_app :
  forall a b n,
    walk (a ++ b) n
    = match walk a n with inr m => walk b m | inl e => inl e end.
Proof.
  induction a as [ | k a IH ]; intros b n; simpl; [ reflexivity | ].
  destruct n as [ d | es ]; [ reflexivity | ].
  destruct (assoc k es); [ apply IH | reflexivity ].
Qed.

Lemma remove_entry_set_entry :
  forall k v es c,
    assoc k es = Some c -> remove_entry k (set_entry k v es) = remove_entry k es.
Proof.
  intros k v. induction es as [ | [k' c'] r IH ]; intros c H; simpl in *.
  - discriminate.
  - destruct (k' =? k)%string eqn:Hk; simpl; rewrite Hk; [ reflexivity | ].
    f_equal. apply (IH c H).
Qed.

Lemma set_entry_set_entry :
  forall k v v' es, set_entry k v (set_entry k v' es) = set_entry k v es.
Proof.
  intros k v v'. induction es as [ | [k' c'] r IH ]; simpl.
  - rewrite String.eqb_refl. reflexivity.
  - destruct (k' =? k)%string eqn:Hk; simpl; rewrite Hk; [ reflexivity | ].
    f_equal. exact IH.
Qed.

Lemma del_last_not_nil :
  forall k0 p k n,
    del (k0 :: p ++ [k]) n
    = match n with
      | FileNode _ => n
      | DirNode es =>
          match assoc k0 es with
          | Some c => DirNode (set_entry k0 (del (p ++ [k]) c) es)
          | None => n
          end
      end.
Proof.
  intros k0 p k n. destruct p; reflexivity.
Qed.

Lemma del_cons_cons :
  forall k0 k1 p es,
    del (k0 :: k1 :: p) (DirNode es)
    = match assoc k0 es with
      | Some c => DirNode (set_entry k0 (del (k1 :: p) c) es)
      | None => DirNode es
      end.
Proof. reflexivity. Qed.

Lemma walk_del_child :
  forall p k n es,
    walk p n = inr (DirNode es) ->
    walk p (del (p ++ [k]) n) = inr (DirNode (remove_entry k es)).
Proof.
  induction p as [ | k0 p IH ]; intros k n es H.
  - simpl in H. inversion H; subst. reflexivity.
  - simpl in H. destruct n as [ d | es0 ]; [ discriminate | ].
    destruct (assoc k0 es0) as [ c | ] eqn:Hc; [ | discriminate ].
    change ((k0 :: p) ++ [k])%list with (k0 :: p ++ [k]).
    rewrite del_last_not_nil, Hc. simpl. rewrite assoc_set_entry_same.
    apply IH. exact H.
Qed.

Lemma del_del_child :
  forall p k n es,
    p <> [] -> walk p n = inr (DirNode es) ->
    del p (del (p ++ [k]) n) = del p n.
Proof.
  induction p as [ | k0 p IH ]; intros k n es Hne H; [ contradiction | ].
  simpl in H. destruct n as [ d | es0 ]; [ discriminate | ].
  destruct (assoc k0 es0) as [ c | ] eqn:Hc; [ | discriminate ].
  change ((k0 :: p) ++ [k])%list with (k0 :: p ++ [k]).
  rewrite del_last_not_nil, Hc.
  destruct p as [ | k1 p' ].
  - simpl. rewrite (remove_entry_set_entry _ _ _ c Hc). reflexivity.
  - rewrite !del_cons_cons, assoc_set_entry_same, Hc, set_entry_set_entry.
    rewrite (IH k c es); [ reflexivity | discriminate | exact H ].
Qed.

Lemma readdir_sync_dir :
  forall st src es,
    src <> EmptyString -> walk (locate st src) (root st) = inr (DirNode es) ->
    readFileOrDir (Some src) DIR None true st = (Ret (VNames (map fst es)), st).
Proof.
  intros st src es Hne Hw.
  unfold readFileOrDir, try_catch_finally, readdirSync. cbn [Z.eqb DIR Pos.eqb].
  unfold bind. rewrite (native_walk_accessible st src _ Hne Hw). reflexivity.
Qed.

Lemma remove_sync_dir :
  forall st src,
    src <> EmptyString -> locate st src <> [] ->
    walk (locate st src) (root st) = inr (DirNode []) ->
    removeFileOrDir (Some src) DIR None true st
    = (Ret SUCCESS, set_root (del (locate st src) (root st)) st).
Proof.
  intros st src Hne Hp Hw.
  unfold removeFileOrDir, try_catch_finally, bind.
  rewrite (accessSync_accessible st src _ (conj Hne (ex_intro _ _ Hw))).
  cbn [Z.eqb DIR Pos.eqb]. unfold rmdirSync, native_path, bind, get.
  apply String.eqb_neq in Hne. rewrite Hne. cbn [fst snd].
  rewrite Hw. destruct (locate st src); [ contradiction | reflexivity ].
Qed.

Lemma remove_sync_file :
  forall st q d,
    q <> EmptyString ->
    walk (locate st q) (root st) = inr (FileNode d) ->
    removeFileOrDir (Some q) FILE None true st
    = (Ret SUCCESS, set_root (del (locate st q) (root st)) st).
Proof.
  intros st q d Hne Hw.
  unfold removeFileOrDir, try_catch_finally, bind.
  rewrite (accessSync_accessible st q _ (conj Hne (ex_intro _ _ Hw))).
  cbn [Z.eqb DIR FILE Pos.eqb]. unfold unlinkSync, native_path, bind, get.
  apply String.eqb_neq in Hne. rewrite Hne. cbn [fst snd].
  rewrite Hw. reflexivity.
Qed.

Lemma unique_names_child :
  forall k es c,
    unique_names (DirNode es) -> assoc k es = Some c -> unique_names c.
Proof.
  intros k es c [_ H]. induction es as [ | [k' c'] r IH ]; simpl; intros Ha.
  - discriminate.
  - destruct H as [Hc Hr]. destruct (k' =? k)%string.
    + inversion Ha; subst. exact Hc.
    + apply IH; assumption.
Qed.

Lemma assoc_not_in :
  forall k es, ~ In k (map fst es) -> assoc k es = None.
Proof.
  intros k. induction es as [ | [k' c] r IH ]; simpl; intros H; [ reflexivity | ].
  destruct (String.eqb_spec k' k) as [ -> | Hne ]; [ exfalso; auto | ].
  apply IH. intros Hin. apply H. right. exact Hin.
Qed.

Lemma assoc_remove_entry :
  forall k es, NoDup (map fst es) -> assoc k (remove_entry k es) = None.
Proof.
  intros k. induction es as [ | [k' c] r IH ]; simpl; intros H; [ reflexivity | ].
  inversion H as [ | ? ? Hnin Hnd ]; subst.
  destruct (String.eqb_spec k' k) as [ -> | Hne ].
  - apply assoc_not_in. exact Hnin.
  - simpl. apply String.eqb_neq in Hne. rewrite Hne. apply IH. exact Hnd.
Qed.

(** Once removed, an entry is not found any more. *)
Lemma walk_del_self :
  forall p n m,
    unique_names n -> p <> [] -> walk p n = inr m ->
    walk p (del p n) = inl ENOENT.
Proof.
  induction p as [ | k0 p IH ]; intros n m Hu Hne H; [ contradiction | ].
  simpl in H. destruct n as [ d | es0 ]; [ discriminate | ].
  destruct (assoc k0 es0) as [ c | ] eqn:Hc; [ | discriminate ].
  destruct p as [ | k1 p' ].
  - simpl. rewrite (assoc_remove_entry k0 es0 (proj1 Hu)). reflexivity.
  - rewrite del_cons_cons, Hc. cbn [walk]. rewrite assoc_set_entry_same.
    apply (IH c m); [ | discriminate | exact H ].
    apply (unique_names_child k0 es0 c Hu Hc).
Qed.

Lemma access_sync_missing :
  forall st src e,
    src <> EmptyString -> walk (locate st src) (root st) = inl e ->
    access (Some src) (Z.lor R_OK W_OK) None true st
    = (Ret ERROR, set_EX (VErr (SystemError e)) st).
Proof.
  intros st src e Hne Hw.
  unfold access, try_catch_finally, bind, accessSync, native_walk, native_path,
    bind, get.
  apply String.eqb_neq in Hne. rewrite Hne. cbn [fst snd]. rewrite Hw. reflexivity.
Qed.

(** *** [rimraf] on a whole directory *)

Lemma next_removes_entries :
  forall (rimraf_ : string -> M value) (fuel : nat) src,
    (forall st q es,
        removable st q es -> (height (DirNode es) <= fuel)%nat ->
        rimraf_ q st
        = (Ret SUCCESS, set_root (del (locate st q) (root st)) st)) ->
    forall es st,
      removable st src es -> (height (DirNode es) <= S fuel)%nat ->
      rimraf_sync_next rimraf_ src
        (map (fun file => join [src; file]) (map fst es)) st
      = (Ret SUCCESS, set_root (del (locate st src) (root st)) st).
Proof.
  intros rimraf_ fuel src Hrec.
  induction es as [ | [k c] r IH ]; intros st (Hne & Hsrc & Hp & Hw & Hwn) Hh.
  - simpl. apply remove_sync_dir; assumption.
  - apply well_named_cons in Hwn. destruct Hwn as (Hk & Hc & Hr).
    rewrite height_cons in Hh.
    destruct (join_child st src k Hne Hk Hsrc) as (Hq & Hloc & Hnan & Hqs).
    set (q := join [src; k]) in *.
    assert (Hwq : walk (locate st q) (root st) = inr c).
    { rewrite Hloc, walk_app, Hw. simpl. rewrite String.eqb_refl. reflexivity. }
    cbn [map fst rimraf_sync_next truthy]. fold q.
    apply String.eqb_neq in Hq. rewrite Hq. apply String.eqb_neq in Hq.
    cbn [negb]. unfold bind at 1.
    rewrite (stat_sync_existing st q c Hnan Hq Hwq).
    cbn [negb is_ERROR].
    set (st1 := set_root (del (locate st q) (root st)) st).
    assert (Hnext :
      rimraf_sync_next rimraf_ src
        (map (fun file => join [src; file]) (map fst r)) st1
      = (Ret SUCCESS, set_root (del (locate st src) (root st)) st)).
    { assert (Hloc1 : locate st1 src = locate st src) by reflexivity.
      assert (Hrm1 : removable st1 src r).
      { unfold removable. rewrite Hloc1.
        split; [ exact Hne | ]. split; [ exact Hsrc | ]. split; [ exact Hp | ].
        split; [ | exact Hr ].
        subst st1. cbn [root set_root]. rewrite Hloc.
        rewrite (walk_del_child _ _ _ _ Hw). simpl.
        rewrite String.eqb_refl. reflexivity. }
      assert (Hh1 : (height (DirNode r) <= S fuel)%nat) by (simpl in *; lia).
      rewrite (IH st1 Hrm1 Hh1), Hloc1. subst st1. cbn [root set_root].
      rewrite Hloc, (del_del_child _ _ _ _ Hp Hw). reflexivity. }
    destruct c as [ d | es_c ].
    + cbn [stats_of isDirectory stats_kind]. unfold bind at 1.
      rewrite (remove_sync_file st q d Hq Hwq). cbn [negb is_ERROR SUCCESS Z.eqb].
      exact Hnext.
    + cbn [stats_of isDirectory stats_kind]. unfold bind at 1.
      rewrite (Hrec st q es_c).
      * cbn [negb is_ERROR SUCCESS Z.eqb]. exact Hnext.
      * repeat split; try assumption. rewrite Hloc.
        destruct (locate st src); discriminate.
      * lia.
Qed.

(** The synchronous [rimraf] removes a whole directory. *)
Lemma rimraf_sync_removes_tree :
  forall fuel st src es,
    removable st src es -> (height (DirNode es) <= fuel)%nat ->
    rimraf fuel (Some src) None true st
    = (Ret SUCCESS, set_root (del (locate st src) (root st)) st).
Proof.
  induction fuel as [ | fuel IH ]; intros st src es Hrm Hh.
  - simpl in Hh. lia.
  - pose proof Hrm as (Hne & _ & _ & Hw & _).
    cbn [rimraf]. unfold try_catch_finally. unfold bind at 1.
    rewrite (readdir_sync_dir st src es Hne Hw). cbn [negb is_ERROR].
    rewrite (next_removes_entries
               (fun path => rimraf fuel (Some path) None true)
               fuel src IH es st Hrm Hh).
    reflexivity.
Qed.

Lemma no_empty_dir_below :
  forall es, no_empty_dir (DirNode es) <-> es <> [] /\ no_empty_below es.
Proof.
  intros es. unfold no_empty_below. simpl.
  assert (H : (fix all (es : list (string * node)) : Prop :=
                 match es with
                 | [] => True
                 | (_, c) :: r => no_empty_dir c /\ all r
                 end) es
              <-> Forall (fun e => no_empty_dir (snd e)) es).
  { induction es as [ | [k c] r IH ]; simpl.
    - split; [ constructor | trivial ].
    - rewrite IH. split.
      + intros [H1 H2]. constructor; assumption.
      + intros H. inversion H; subst. split; assumption. }
  rewrite H. reflexivity.
Qed.

(** What the asynchronous branches do on an entry that is there: the
    completion is entered in the state after the native call. *)
Lemma stat_async_entry :
  forall st q c (k : callback),
    isNaN (VStr q) = true -> q <> EmptyString ->
    walk (locate st q) (root st) = inr c ->
    stat (VStr q) (Some k) false st
    = bind (k SUCCESS (VStats (stats_of c))) (fun _ => ret VUndefined) st.
Proof. intros. apply stat_async_existing; assumption. Qed.

Lemma remove_async_ok :
  forall st q mode (k : callback),
    q <> EmptyString ->
    (if mode =? DIR
     then walk (locate st q) (root st) = inr (DirNode []) /\ locate st q <> []
     else exists d, walk (locate st q) (root st) = inr (FileNode d)) ->
    removeFileOrDir (Some q) mode (Some k) false st
    = bind (k SUCCESS VNull) (fun _ => ret VUndefined)
        (set_root (del (locate st q) (root st)) st).
Proof.
  intros st q mode k Hne H.
  unfold removeFileOrDir, undefined_after. unfold async at 1. unfold bind at 1.
  assert (Hacc : accessible st q).
  { split; [ exact Hne | ]. destruct (mode =? DIR); [ destruct H as [H _] | destruct H as [d H] ]; eauto. }
  rewrite (accessSync_accessible st q _ Hacc).
  destruct (mode =? DIR).
  - destruct H as [Hw Hp].
    unfold async, rmdirSync, native_path, bind, get.
    apply String.eqb_neq in Hne. rewrite Hne. cbn [fst snd]. rewrite Hw.
    destruct (locate st q) eqn:Hl; [ contradiction | ].
    unfold modify, completion, handleSuccess, bind.
    destruct (k SUCCESS VNull _) as [ [ [] | e ] st' ]; reflexivity.
  - destruct H as [d Hw].
    unfold async, unlinkSync, native_path, bind, get.
    apply String.eqb_neq in Hne. rewrite Hne. cbn [fst snd]. rewrite Hw.
    unfold modify, completion, handleSuccess, bind.
    destruct (k SUCCESS VNull _) as [ [ [] | e ] st' ]; reflexivity.
Qed.

Lemma bind_unit_ret :
  forall (m : M value) st,
    bind (bind m (fun _ => ret VUndefined)) (fun _ => ret tt) st
    = bind m (fun _ => ret tt) st.
Proof.
  intros m st. unfold bind, ret. destruct (m st) as [ [ v | e ] st' ]; reflexivity.
Qed.

Lemma bind_unit_unit :
  forall (m : M unit) st,
    bind (bind m (fun _ => ret VUndefined)) (fun _ => ret tt) st = m st.
Proof.
  intros m st. unfold bind, ret. destruct (m st) as [ [ [] | e ] st' ]; reflexivity.
Qed.

Lemma next_async_removes_entries :
  forall (rimraf_ : string -> option callback -> M value) (fuel : nat) src
         (cb : callback),
    (forall st q es (k : callback),
        removable st q es -> no_empty_dir (DirNode es) ->
        (height (DirNode es) <= fuel)%nat ->
        rimraf_ q (Some k) st
        = bind (k SUCCESS SUCCESS) (fun _ => ret VUndefined)
            (set_root (del (locate st q) (root st)) st)) ->
    forall es st,
      removable st src es -> no_empty_below es ->
      (height (DirNode es) <= S fuel)%nat ->
      rimraf_async_next rimraf_ src (Some cb)
        (map (fun file => join [src; file]) (map fst es)) st
      = bind (cb SUCCESS SUCCESS) (fun _ => ret tt)
          (set_root (del (locate st src) (root st)) st).
Proof.
  intros rimraf_ fuel src cb Hrec.
  induction es as [ | [k c] r IH ];
    intros st (Hne & Hsrc & Hp & Hw & Hwn) Hnon Hh.
  - cbn [map rimraf_async_next]. unfold on_removed.
    unfold bind at 1.
    rewrite (remove_async_ok st src DIR _ Hne (conj Hw Hp)).
    cbn [is_SUCCESS SUCCESS Z.eqb Pos.eqb].
    unfold handleSuccess, bind, ret.
    match goal with
    | |- context [ cb ?a ?b ?s ] => destruct (cb a b s) as [ [ [] | e ] st' ]
    end; reflexivity.
  - apply well_named_cons in Hwn. destruct Hwn as (Hk & Hc & Hr).
    inversion Hnon as [ | ? ? Hcn Hrn ]; subst. cbn [snd] in Hcn.
    rewrite height_cons in Hh.
    destruct (join_child st src k Hne Hk Hsrc) as (Hq & Hloc & Hnan & Hqs).
    set (q := join [src; k]) in *.
    assert (Hwq : walk (locate st q) (root st) = inr c).
    { rewrite Hloc, walk_app, Hw. simpl. rewrite String.eqb_refl. reflexivity. }
    cbn [map fst rimraf_async_next truthy]. fold q.
    apply String.eqb_neq in Hq. rewrite Hq. apply String.eqb_neq in Hq.
    cbn [negb]. unfold bind at 1.
    rewrite (stat_async_entry st q c _ Hnan Hq Hwq).
    cbn [is_ERROR SUCCESS Z.eqb].
    set (st1 := set_root (del (locate st q) (root st)) st).
    assert (Hnext :
      rimraf_async_next rimraf_ src (Some cb)
        (map (fun file => join [src; file]) (map fst r)) st1
      = bind (cb SUCCESS SUCCESS) (fun _ => ret tt)
          (set_root (del (locate st src) (root st)) st)).
    { assert (Hloc1 : locate st1 src = locate st src) by reflexivity.
      assert (Hrm1 : removable st1 src r).
      { unfold removable. rewrite Hloc1.
        split; [ exact Hne | ]. split; [ exact Hsrc | ]. split; [ exact Hp | ].
        split; [ | exact Hr ].
        subst st1. cbn [root set_root]. rewrite Hloc.
        rewrite (walk_del_child _ _ _ _ Hw). simpl.
        rewrite String.eqb_refl. reflexivity. }
      assert (Hh1 : (height (DirNode r) <= S fuel)%nat) by (simpl in *; lia).
      rewrite (IH st1 Hrm1 Hrn Hh1), Hloc1. subst st1. cbn [root set_root].
      rewrite Hloc, (del_del_child _ _ _ _ Hp Hw). reflexivity. }
    destruct c as [ d | es_c ].
    + cbn [stats_of isDirectory stats_kind]. unfold on_removed.
      unfold bind at 1. unfold bind at 1. unfold bind at 1.
      rewrite (remove_async_ok st q FILE _ Hq (ex_intro _ d Hwq)).
      cbn [is_SUCCESS SUCCESS Z.eqb Pos.eqb]. fold st1.
      unfold bind at 1. rewrite Hnext. unfold bind, ret.
      match goal with
    | |- context [ cb ?a ?b ?s ] => destruct (cb a b s) as [ [ [] | e ] st' ]
    end; reflexivity.
    + cbn [stats_of isDirectory stats_kind]. unfold on_removed.
      unfold bind at 1. unfold bind at 1. unfold bind at 1.
      rewrite (Hrec st q es_c).
      * cbn [is_SUCCESS SUCCESS Z.eqb Pos.eqb]. fold st1.
        unfold bind at 1. rewrite Hnext. unfold bind, ret.
        match goal with
    | |- context [ cb ?a ?b ?s ] => destruct (cb a b s) as [ [ [] | e ] st' ]
    end; reflexivity.
      * repeat split; try assumption. rewrite Hloc.
        destruct (locate st src); discriminate.
      * exact Hcn.
      * lia.
Qed.

(** The asynchronous [rimraf] removes a directory in which no directory is
    empty, and then calls back [(SUCCESS, SUCCESS)]. *)
Lemma rimraf_async_removes_tree :
  forall fuel st src es (cb : callback),
    removable st src es -> no_empty_dir (DirNode es) ->
    (height (DirNode es) <= fuel)%nat ->
    rimraf fuel (Some src) (Some cb) false st
    = bind (cb SUCCESS SUCCESS) (fun _ => ret VUndefined)
        (set_root (del (locate st src) (root st)) st).
Proof.
  induction fuel as [ | fuel IH ]; intros st src es cb Hrm Hnon Hh.
  - simpl in Hh. lia.
  - pose proof Hrm as (Hne & _ & _ & Hw & _).
    apply no_empty_dir_below in Hnon. destruct Hnon as [Hes Hbelow].
    cbn [rimraf]. unfold readFileOrDir, undefined_after, async, readdirSync.
    cbn [Z.eqb DIR Pos.eqb]. unfold bind at 1. unfold bind at 1.
    rewrite (native_walk_accessible st src _ Hne Hw).
    cbn [ret completion handleSuccess]. unfold bind at 1. unfold bind at 1.
    cbn [is_SUCCESS SUCCESS Z.eqb Pos.eqb].
    rewrite !length_map.
    destruct es as [ | e0 r ]; [ contradiction | ].
    cbn [List.length Nat.eqb].
    rewrite (next_async_removes_entries
               (fun path cb => rimraf fuel (Some path) cb false)
               fuel src cb
               (fun st q es k => IH st q es k)
               (e0 :: r) st Hrm Hbelow Hh).
    unfold bind, ret.
    match goal with
    | |- context [ cb ?a ?b ?s ] => destruct (cb a b s) as [ [ [] | e ] st' ]
    end; reflexivity.
Qed.

(** *** [rimraf] on an empty directory *)

(** C3 (fails on the code, asynchronous mode).  When [src] is an empty
    directory, the asynchronous [rimraf] finds [queue.length === 0] and calls
    back [(SUCCESS, null)] at once: nothing is removed, the directory is
    still there afterwards and [exists] on it answers [SUCCESS].  The
    synchronous [rimraf] does what the claim says on every directory, empty
    or not: it removes everything beneath and the directory itself and returns
    [SUCCESS], after which the path is not found and [exists] answers [ERROR].
    The asynchronous [rimraf] does so only when no directory of the tree is
    empty. *)
Theorem rimraf_async_keeps_empty_directory :
  (forall st src fuel,
      src <> EmptyString ->
      walk (locate st src) (root st) = inr (DirNode []) ->
      let st' := snd (rimraf (S fuel) (Some src) (Some record_call) false st) in
      rimraf (S fuel) (Some src) (Some record_call) false st
      = (Ret VUndefined, set_calls (calls st ++ [(SUCCESS, VNull)]) st)
      /\ walk (locate st' src) (root st') = inr (DirNode [])
      /\ access (Some src) (Z.lor R_OK W_OK) None true st' = (Ret SUCCESS, st'))
  /\ (forall st src es fuel,
        removable st src es -> unique_names (root st) ->
        (height (DirNode es) <= fuel)%nat ->
        let st' := set_root (del (locate st src) (root st)) st in
        rimraf fuel (Some src) None true st = (Ret SUCCESS, st')
        /\ walk (locate st' src) (root st') = inl ENOENT
        /\ access (Some src) (Z.lor R_OK W_OK) None true st'
           = (Ret ERROR, set_EX (VErr (SystemError ENOENT)) st'))
  /\ (forall st src es fuel,
        removable st src es -> no_empty_dir (DirNode es) ->
        (height (DirNode es) <= fuel)%nat ->
        rimraf fuel (Some src) (Some record_call) false st
        = (Ret VUndefined,
           set_calls (calls st ++ [(SUCCESS, SUCCESS)])
             (set_root (del (locate st src) (root st)) st))).
Proof.
  split; [ | split ].
  - intros st src fuel Hne Hw st'.
    assert (Hasync :
      rimraf (S fuel) (Some src) (Some record_call) false st
      = (Ret VUndefined, set_calls (calls st ++ [(SUCCESS, VNull)]) st)).
    { cbn [rimraf]. unfold readFileOrDir, undefined_after, async, readdirSync.
      cbn [Z.eqb DIR Pos.eqb]. unfold bind at 1. unfold bind at 1.
      rewrite (native_walk_accessible st src _ Hne Hw). reflexivity. }
    subst st'. rewrite Hasync. repeat split.
    + exact Hw.
    + unfold access, try_catch_finally, bind.
      rewrite (accessSync_accessible _ src F_OK); [ reflexivity | ].
      split; [ exact Hne | exists (DirNode []); exact Hw ].
  - intros st src es fuel Hrm Hu Hh st'.
    pose proof Hrm as (Hne & _ & Hp & Hw & _).
    assert (Hgone : walk (locate st' src) (root st') = inl ENOENT)
      by (apply (walk_del_self _ _ _ Hu Hp Hw)).
    repeat split.
    + apply (rimraf_sync_removes_tree fuel st src es Hrm Hh).
    + exact Hgone.
    + apply (access_sync_missing st' src ENOENT Hne Hgone).
  - intros st src es fuel Hrm Hnon Hh.
    rewrite (rimraf_async_removes_tree fuel st src es record_call Hrm Hnon Hh).
    reflexivity.
Qed.

(** [File.rimraf({ src: "d", onRemove })] on the empty directory [d]. *)
Lemma rimraf_async_keeps_empty_directory_witness :
  "d" <> EmptyString
  /\ walk (locate (sample_state "/tmp/x") "d") sample_tree = inr (DirNode [])
  /\ rimraf 1 (Some "d") (Some record_call) false (sample_state "/tmp/x")
     = (Ret VUndefined,
        set_calls [(SUCCESS, VNull)] (sample_state "/tmp/x")).
Proof.
  split; [ discriminate | ]. split; [ reflexivity | ].
  destruct rimraf_async_keeps_empty_directory as [H _].
  destruct (H (sample_state "/tmp/x") "d" 0%nat) as [H1 _];
    [ discriminate | reflexivity | ].
  exact H1.
Defined.

(** The same defect one level down: [e] holds the empty directory [g] and the
    file [h].  The asynchronous [rimraf("e")] reports [ENOTEMPTY] and leaves
    [e] and [g] in place; the synchronous one removes the whole of [e]. *)
Example rimraf_async_nested_empty_directory :
  let st := sample_state "/tmp/x" in
  let st_async := snd (rimraf 3 (Some "e") (Some record_call) false st) in
  let st_sync := snd (rimraf 3 (Some "e") None true st) in
  calls st_async = [(ERROR, VErr (SystemError ENOTEMPTY))]
  /\ walk ["e"; "g"] (root st_async) = inr (DirNode [])
  /\ fst (rimraf 3 (Some "e") None true st) = Ret SUCCESS
  /\ walk ["e"] (root st_sync) = inl ENOENT.
Proof.
  cbv zeta. repeat split; vm_compute; reflexivity.
Qed.

(** *** [FileInputStream.open], step by step *)

Lemma stat_async_missing :
  forall st s e (k : callback),
    isNaN (VStr s) = true ->
    native_walk s st = (Throw e, st) ->
    stat (VStr s) (Some k) false st
    = bind (k ERROR (VErr e)) (fun _ => ret VUndefined) st.
Proof.
  intros st s e k Hnan Hw.
  unfold stat, undefined_after, async, bind. rewrite Hnan. simpl.
  unfold statSync, bind. rewrite Hw. simpl.
  reflexivity.
Qed.

Lemma native_walk_cases :
  forall st s,
    (exists e, native_walk s st = (Throw e, st))
    \/ (exists n, s <> EmptyString /\ walk (locate st s) (root st) = inr n).
Proof.
  intros st s. unfold native_walk, native_path, bind, get.
  destruct (String.eqb_spec s EmptyString) as [ | Hne ]; simpl; [ eauto | ].
  destruct (walk (locate st s) (root st)) as [ e | n ] eqn:Hw; simpl.
  - left. eexists. reflexivity.
  - right. exists n. split; [ exact Hne | reflexivity ].
Qed.

Lemma calls_not_extended :
  forall (l : list (value * value)) x, l <> (l ++ [x])%list.
Proof.
  intros l x H. apply (f_equal (@List.length _)) in H.
  rewrite length_app in H. simpl in H. lia.
Qed.

Lemma openFd_async_read_file :
  forall st s d (k : callback),
    s <> EmptyString ->
    walk (locate st s) (root st) = inr (FileNode d) ->
    openFd (Some s) "r" 438 (Some k) false st
    = bind (k SUCCESS (VNum (next_fd (fds st)))) (fun _ => ret VUndefined)
        (set_fds ((next_fd (fds st), locate st s) :: fds st) st).
Proof.
  intros st s d k Hne Hw.
  unfold openFd, undefined_after, async, openSync, native_path, bind, get.
  apply String.eqb_neq in Hne. rewrite Hne. cbn [fst snd]. rewrite Hw.
  simpl. unfold bind.
  destruct (k SUCCESS (VNum (next_fd (fds st))) _) as [[[]|e] st']; reflexivity.
Qed.

(** The strings of a stream: a stream over data that is not empty delivers
    at least one. *)

Lemma utf8_step_silent :
  forall s b, snd (utf8_step s b) = [] -> is_pending (fst (utf8_step s b)) = true.
Proof.
  intros s b. unfold utf8_step, utf8_lead.
  destruct s as [ | cp more lower upper ].
  - destruct (b <=? 127); [ discriminate | ].
    destruct ((194 <=? b) && (b <=? 223)); [ reflexivity | ].
    destruct ((224 <=? b) && (b <=? 239)); [ reflexivity | ].
    destruct ((240 <=? b) && (b <=? 244)); [ reflexivity | discriminate ].
  - destruct ((lower <=? b) && (b <=? upper)); [ | discriminate ].
    destruct more as [ | [ | m ] ]; [ discriminate | discriminate | reflexivity ].
Qed.

Lemma utf8_write_silent :
  forall c s,
    snd (utf8_write s c) = [] ->
    c <> [] \/ is_pending s = true ->
    is_pending (fst (utf8_write s c)) = true.
Proof.
  induction c as [ | b r IH ]; intros s Hout Hs.
  - destruct Hs as [ Hs | Hs ]; [ contradiction | exact Hs ].
  - cbn [utf8_write fst snd] in *.
    apply app_eq_nil in Hout. destruct Hout as [Hb Hr].
    apply IH; [ exact Hr | ]. right. apply utf8_step_silent. exact Hb.
Qed.

Lemma utf8_strings_pending :
  forall chunks s, is_pending s = true -> utf8_strings s chunks <> [].
Proof.
  induction chunks as [ | c r IH ]; intros s Hs.
  - destruct s; [ discriminate | ]. cbn [utf8_strings utf8_end]. discriminate.
  - cbn [utf8_strings].
    destruct (snd (utf8_write s c)) as [ | cp cps ] eqn:Hout; [ | discriminate ].
    apply IH. apply utf8_write_silent; [ exact Hout | right; exact Hs ].
Qed.

Lemma utf8_strings_not_nil :
  forall c r s, c <> [] -> utf8_strings s (c :: r) <> [].
Proof.
  intros c r s Hc. cbn [utf8_strings].
  destruct (snd (utf8_write s c)) as [ | cp cps ] eqn:Hout; [ | discriminate ].
  apply utf8_strings_pending.
  apply utf8_write_silent; [ exact Hout | left; exact Hc ].
Qed.

Lemma highWaterMark_positive : (0 < highWaterMark)%nat.
Proof.
  unfold highWaterMark.
  exact (proj1 (Z2Nat.inj_lt 0 65536 ltac:(lia) ltac:(lia)) ltac:(lia)).
Qed.

Lemma chunks_of_first :
  forall size d,
    (0 < size)%nat -> d <> [] ->
    exists c r, chunks_of (List.length d) size d = c :: r /\ c <> [].
Proof.
  intros [ | size ] [ | x d ] Hs Hd; [ lia | lia | contradiction | ].
  cbn [List.length chunks_of firstn].
  eexists. eexists. split; [ reflexivity | discriminate ].
Qed.

Lemma stream_strings_nil :
  forall d, utf8_strings Idle (chunks_of (List.length d) highWaterMark d) = [] ->
            d = [].
Proof.
  intros d H. destruct d as [ | x d ]; [ reflexivity | ].
  destruct (chunks_of_first highWaterMark (x :: d) highWaterMark_positive)
    as (c & r & Hc & Hne); [ discriminate | ].
  rewrite Hc in H. apply utf8_strings_not_nil in H; [ contradiction | exact Hne ].
Qed.

Lemma stream_data_of_file :
  forall st p d0 loc d,
    fd_lookup d0 (fds st) = Some loc ->
    walk loc (root st) = inr (FileNode d) ->
    stream_data
      (Handle.createReadStream p (Some d0) 0 (Z.of_nat (List.length d))) st
    = (Ret (utf8_strings Idle (chunks_of (List.length d) highWaterMark d)), st).
Proof.
  intros st p d0 loc d Hfd Hw.
  unfold stream_data, Handle.createReadStream.
  replace (negb (0 =? -1) && negb (Z.of_nat (List.length d) =? -1)) with true
    by (symmetry; apply andb_true_iff; split; apply negb_true_iff, Z.eqb_neq; lia).
  unfold bind at 1. unfold ret at 1. cbv beta iota.
  unfold stream_chunks, fd_file, bind, get. cbv beta iota.
  rewrite Hfd, Hw. unfold ret.
  replace (Z.to_nat (Z.of_nat (List.length d) - 0 + 1)) with (S (List.length d)) by lia.
  change (Z.to_nat 0) with 0%nat. rewrite skipn_O.
  cbn [snd]. rewrite firstn_all2 by lia. reflexivity.
Qed.

Lemma store_nat_length : forall a i v, List.length (store_nat a i v) = List.length a.
Proof.
  induction a as [ | x r IH ]; intros [ | i ] v; simpl; auto.
Qed.

Lemma store_length : forall a i v, List.length (store a i v) = List.length a.
Proof.
  intros a i v. unfold store. destruct (i <? 0); [ reflexivity | apply store_nat_length ].
Qed.

Lemma fill_from_length :
  forall chunk i b, List.length (fill_from i chunk b) = List.length b.
Proof.
  induction chunk as [ | c r IH ]; intros i b; simpl; [ reflexivity | ].
  rewrite IH. apply store_length.
Qed.

Lemma open_outcome :
  forall st offset length blocking,
    open_result st offset length blocking
      (snd (Stream.open offset length blocking (Some ready) st)).
Proof.
  intros st offset length blocking.
  unfold Stream.open, Handle.length. unfold bind at 1. unfold get at 1.
  cbv beta iota. rewrite snd_bind_ret.
  destruct (isNaN (VStr (path (self st)))) eqn:Hnan.
  2: { unfold stat. rewrite Hnan. simpl.
       apply open_failed; [ reflexivity | apply calls_not_extended | ].
       right. intros [H _]. congruence. }
  destruct (native_walk_cases st (path (self st))) as [ [e He] | [n [Hne Hw]] ].
  { rewrite (stat_async_missing st _ e _ Hnan He). simpl.
    apply open_failed; [ reflexivity | | ].
    - intros H. apply app_inv_head in H. discriminate.
    - right. intros (_ & Hne & d & Hw).
      rewrite (native_walk_accessible st _ _ Hne Hw) in He. discriminate. }
  rewrite (stat_async_existing st _ n _ Hnan Hne Hw). rewrite snd_bind_ret.
  cbn [is_SUCCESS SUCCESS Z.eqb Pos.eqb Handle.number_of]. rewrite snd_bind_ret.
  unfold Handle.getInputStream. unfold bind at 1. unfold get at 1. cbv beta iota.
  rewrite snd_bind_ret.
  unfold Handle.open. unfold bind at 1. unfold get at 1. cbv beta iota.
  rewrite snd_bind_ret.
  unfold Handle.isFile. unfold bind at 1. unfold get at 1. cbv beta iota.
  rewrite snd_bind_ret.
  rewrite (stat_async_existing st _ n _ Hnan Hne Hw). rewrite snd_bind_ret.
  cbn [is_SUCCESS SUCCESS Z.eqb Pos.eqb].
  destruct n as [ d | es ].
  2: { simpl. apply open_failed; [ reflexivity | | ].
       - intros H. apply app_inv_head in H. discriminate.
       - right. intros (_ & _ & d & Hd). rewrite Hw in Hd. discriminate. }
  cbn [stats_of stats_isFile stats_kind negb is_ERROR SUCCESS Z.eqb].
  rewrite snd_bind_ret.
  rewrite (openFd_async_read_file st _ d _ Hne Hw). rewrite snd_bind_ret.
  cbn [stats_size negb is_ERROR is_SUCCESS SUCCESS Z.eqb Pos.eqb Handle.number_of].
  set (d0 := next_fd (fds st)).
  unfold bind at 1. unfold modify at 1. cbv beta iota.
  match goal with |- open_result _ _ _ _ (snd (_ ?s)) => set (st2 := s) end.
  assert (Hdata :
    stream_data
      (Handle.createReadStream (path (self st)) (Some d0) 0
         (Z.of_nat (List.length d))) st2
    = (Ret (utf8_strings Idle (chunks_of (List.length d) highWaterMark d)), st2)).
  { apply (stream_data_of_file st2 _ d0 (locate st (path (self st))) d).
    - subst st2. simpl. rewrite Z.eqb_refl. reflexivity.
    - exact Hw. }
  destruct blocking.
  - unfold bind at 1. rewrite Hdata. cbv beta iota.
    destruct (utf8_strings Idle (chunks_of (List.length d) highWaterMark d))
      as [ | chunk rest ] eqn:Hc.
    + apply stream_strings_nil in Hc. subst d. simpl.
      apply open_no_chunk; [ reflexivity | exact Hw | reflexivity | reflexivity ].
    + simpl.
      apply (open_ready _ _ _ _ _ d
               (fill_from 0 chunk (repeat 0 (Z.to_nat (Z.of_nat (List.length d)))))).
      * exact Hw.
      * left. reflexivity.
      * rewrite fill_from_length, repeat_length. lia.
      * reflexivity.
      * reflexivity.
  - unfold async. rewrite Hdata.
    destruct (utf8_strings Idle (chunks_of (List.length d) highWaterMark d))
      as [ | chunk rest ] eqn:Hc.
    + apply stream_strings_nil in Hc. subst d. simpl.
      apply (open_ready _ _ _ _ _ [] []).
      * exact Hw.
      * right. reflexivity.
      * reflexivity.
      * reflexivity.
      * reflexivity.
    + simpl.
      apply open_failed;
        [ reflexivity | apply calls_not_extended | left; reflexivity ].
Qed.

(** *** The cursors of a [FileInputStream] *)

Lemma read_keeps_inv :
  forall b off len s r,
    cursor_inv s -> read b off len s = Ret r -> cursor_inv (read_stream r).
Proof.
  intros b off len s r Hinv H. unfold read in H.
  destruct (buf s) as [ data | ] eqn:Hb; [ | discriminate ].
  destruct b as [ dest | ].
  - destruct ((off <? 0) || _ || _); [ discriminate | ].
    destruct (pos s >=? count s); [ inversion H; subst; exact Hinv | ].
    match type of H with
    | (if ?l <=? 0 then _ else _) = _ => set (n := l) in *; destruct (Z.leb_spec n 0)
    end; inversion H; subst; clear H; [ exact Hinv | ].
    unfold cursor_inv, buf_length in *. simpl. rewrite Hb in *.
    assert (n <= count s - pos s).
    { subst n. destruct (Z.gtb_spec (pos s + (if len =? 0 then Z.of_nat (List.length dest) else len)) (count s)); lia. }
    lia.
  - destruct (Z.ltb_spec (pos s) (count s)); inversion H; subst; clear H;
      [ | exact Hinv ].
    unfold cursor_inv, buf_length in *. simpl. rewrite Hb in *. lia.
Qed.

Lemma skip_keeps_inv :
  forall n s, cursor_inv s -> cursor_inv (snd (skip n s)).
Proof.
  intros n s Hinv. unfold skip.
  match goal with
  | |- context [ if ?m <? 0 then _ else _ ] => set (k := m); destruct (Z.ltb_spec k 0)
  end; [ exact Hinv | ].
  unfold cursor_inv, buf_length in *. simpl.
  assert (k <= count s - pos s).
  { subst k. destruct (Z.gtb_spec (pos s + n) (count s)); lia. }
  lia.
Qed.

Lemma mark_keeps_inv : forall s, cursor_inv s -> cursor_inv (mark s).
Proof. intros s. unfold cursor_inv, buf_length, mark. simpl. lia. Qed.

Lemma reset_keeps_inv : forall s, cursor_inv s -> cursor_inv (reset s).
Proof. intros s. unfold cursor_inv, buf_length, reset. simpl. lia. Qed.

Lemma closed_inv : cursor_inv (mkStream None 0 0 0).
Proof. unfold cursor_inv, buf_length. simpl. lia. Qed.

Lemma open_keeps_inv :
  forall st offset length blocking,
    open_in_range offset length st = true ->
    cursor_inv (stream (step (OpOpen offset length blocking) st)).
Proof.
  intros st offset length blocking Hok. unfold step.
  unfold open_in_range in Hok.
  repeat (apply andb_true_iff in Hok; destruct Hok as [Hok ?]).
  apply Z.eqb_eq in Hok. apply Z.eqb_eq in H0. apply Z.eqb_eq in H1.
  destruct (open_outcome st offset length blocking)
    as [ Hs _ _ | _ Hw Hs _ | d b Hw _ Hlen Hs _ ]; rewrite Hs.
  - unfold cursor_inv, buf_length. destruct (buf (stream st)); lia.
  - unfold cursor_inv, buf_length. simpl. lia.
  - rewrite Hw in H. unfold set_window, cursor_inv, buf_length.
    destruct ((offset >? 0) && (length >? 0)) eqn:Hwin; simpl in *.
    + apply andb_true_iff in Hwin. destruct Hwin as [Ho Hl].
      rewrite Z.gtb_ltb in Ho, Hl. apply Z.ltb_lt in Ho, Hl.
      apply Z.leb_le in H. lia.
    + lia.
Qed.

Lemma step_keeps_inv :
  forall o st,
    cursor_inv (stream st) ->
    match o with
    | OpOpen offset length _ => open_in_range offset length st = true
    | _ => True
    end ->
    cursor_inv (stream (step o st)).
Proof.
  intros [ offset length blocking | b off len | n | | | ] st Hinv Hok.
  - apply open_keeps_inv. exact Hok.
  - unfold step. destruct (read b off len (stream st)) as [ r | e ] eqn:Hr;
      [ | exact Hinv ].
    simpl. apply (read_keeps_inv b off len (stream st) r Hinv Hr).
  - simpl. apply skip_keeps_inv. exact Hinv.
  - simpl. apply mark_keeps_inv. exact Hinv.
  - simpl. apply reset_keeps_inv. exact Hinv.
  - unfold step, Stream.close, Stream.update. unfold bind at 1. unfold modify at 1.
    cbv beta iota.
    destruct (handle_close_keeps_stream (set_stream (close_cursor (stream st)) st))
      as [H _].
    rewrite H. apply closed_inv.
Qed.

Lemma trace_keeps_inv :
  forall ops st,
    cursor_inv (stream st) -> admissible ops st = true ->
    Forall (fun st' => cursor_inv (stream st')) (trace ops st).
Proof.
  induction ops as [ | o ops IH ]; intros st Hinv Hadm; simpl.
  - constructor.
  - simpl in Hadm. apply andb_true_iff in Hadm. destruct Hadm as [Ho Hrest].
    assert (Hstep : cursor_inv (stream (step o st))).
    { apply step_keeps_inv; [ exact Hinv | ]. destruct o; auto. }
    constructor; [ exact Hstep | apply IH; assumption ].
Qed.

Lemma read_at_end :
  forall b off len s r,
    pos s >= count s -> read b off len s = Ret r -> r = mkRead (-1) b s.
Proof.
  intros b off len s r Hge H. unfold read in H.
  destruct (buf s) as [ data | ]; [ | discriminate ].
  destruct b as [ dest | ].
  - destruct ((off <? 0) || _ || _); [ discriminate | ].
    destruct (Z.geb_spec (pos s) (count s)); [ | lia ].
    inversion H. reflexivity.
  - destruct (Z.ltb_spec (pos s) (count s)); [ lia | ].
    inversion H. reflexivity.
Qed.

Lemma read_in_bounds :
  forall b off len s r data,
    cursor_inv s -> buf s = Some data -> read b off len s = Ret r ->
    forall i, pos s <= i < pos (read_stream r) ->
              exists byte, element data i = Some byte.
Proof.
  intros b off len s r data Hinv Hb Hr i Hi.
  pose proof (read_keeps_inv b off len s r Hinv Hr) as Hinv'.
  assert (Hbuf : buf (read_stream r) = Some data).
  { unfold read in Hr. rewrite Hb in Hr.
    destruct b as [ dest | ].
    - destruct ((off <? 0) || _ || _); [ discriminate | ].
      destruct (pos s >=? count s); [ inversion Hr; exact Hb | ].
      match type of Hr with
      | (if ?c then _ else _) = _ => destruct c
      end; inversion Hr; (exact Hb || reflexivity).
    - destruct (pos s <? count s); inversion Hr; (exact Hb || reflexivity). }
  unfold cursor_inv, buf_length in *. rewrite Hbuf in Hinv'. rewrite Hb in Hinv.
  unfold element. destruct (Z.ltb_spec i 0); [ lia | ].
  destruct (nth_error data (Z.to_nat i)) as [ byte | ] eqn:Hn; [ eauto | ].
  apply nth_error_None in Hn. lia.
Qed.

(** C6 (as stated, fails on the code).  On the 5-byte file, [open] with
    [offset = 7] and [length = 1] sets [pos = 7] and [count = min(8, 5) = 5]:
    the position is beyond the count. *)
Lemma open_beyond_size_counterexample :
  let st' := step (OpOpen 7 1 true) (sample_state "/tmp/x/f.txt") in
  pos (stream st') = 7 /\ count (stream st') = 5
  /\ ~ (pos (stream st') <= count (stream st')).
Proof.
  cbv zeta.
  assert (Hp : pos (stream (step (OpOpen 7 1 true) (sample_state "/tmp/x/f.txt"))) = 7)
    by (vm_compute; reflexivity).
  assert (Hc : count (stream (step (OpOpen 7 1 true) (sample_state "/tmp/x/f.txt"))) = 5)
    by (vm_compute; reflexivity).
  rewrite Hp, Hc. repeat split. lia.
Qed.

(** C6, amended.  Take any sequence of [open], [read], [skip], [mark],
    [reset] and [close] in which every [open] is issued with the cursors at
    zero (a stream never opened, or closed) and, when it asks for a window,
    with an offset not beyond the size of the file.  Then after each
    operation [0 <= markPos <= count], [0 <= pos <= count] and
    [count <= buffer.length].  On any stream, a [read] that returns while
    [pos >= count] returns [-1] and changes neither the stream nor the
    destination, and the single-byte [read] of an open stream always returns
    then; under the invariant every buffer index a [read] consumes holds a
    byte. *)
Theorem cursor_invariant_along_admissible_runs :
  forall ops st,
    cursor_inv (stream st) ->
    admissible ops st = true ->
    Forall (fun st' => cursor_inv (stream st')) (trace ops st)
    /\ (forall s b off len r,
          pos s >= count s -> read b off len s = Ret r -> r = mkRead (-1) b s)
    /\ (forall s data off len,
          buf s = Some data -> pos s >= count s ->
          read None off len s = Ret (mkRead (-1) None s))
    /\ (forall s b off len r data,
          cursor_inv s -> buf s = Some data -> read b off len s = Ret r ->
          forall i, pos s <= i < pos (read_stream r) ->
                    exists byte, element data i = Some byte).
Proof.
  intros ops st Hinv Hadm. repeat split.
  - apply trace_keeps_inv; assumption.
  - intros s b off len r. apply read_at_end.
  - intros s data off len Hb Hge. unfold read. rewrite Hb.
    destruct (Z.ltb_spec (pos s) (count s)); [ lia | reflexivity ].
  - intros s b off len r data. apply read_in_bounds.
Qed.

(** A run on [/tmp/x/f.txt]: windowed open, reads, skip, mark, reset, close,
    then a full open. *)
Lemma cursor_invariant_along_admissible_runs_witness :
  let ops :=
    [ OpOpen 1 3 true; OpRead (Some [0; 0; 0]) 0 3; OpRead None 0 0;
      OpSkip 5; OpMark; OpReset; OpClose; OpOpen 0 0 false; OpSkip 2 ] in
  let st := sample_state "/tmp/x/f.txt" in
  cursor_inv (stream st) /\ admissible ops st = true
  /\ Forall (fun st' => cursor_inv (stream st')) (trace ops st).
Proof.
  cbv zeta.
  assert (Hinv : cursor_inv (stream (sample_state "/tmp/x/f.txt")))
    by apply closed_inv.
  split; [ exact Hinv | ]. split; [ vm_compute; reflexivity | ].
  apply cursor_invariant_along_admissible_runs;
    [ exact Hinv | vm_compute; reflexivity ].
Defined.

(** *** The window set by [open] *)

Lemma bind_undefined_twice :
  forall (m : M unit) st,
    bind (bind m (fun _ => ret VUndefined)) (fun _ => ret VUndefined) st
    = bind m (fun _ => ret VUndefined) st.
Proof.
  intros m st. unfold bind, ret. destruct (m st) as [ [ [] | e ] st1 ]; reflexivity.
Qed.

Lemma isFile_async_file :
  forall st d (k : callback),
    isNaN (VStr (path (self st))) = true -> path (self st) <> EmptyString ->
    walk (locate st (path (self st))) (root st) = inr (FileNode d) ->
    Handle.isFile (Some k) st
    = bind (k SUCCESS VUndefined) (fun _ => ret VUndefined) st.
Proof.
  intros st d k Hn Hq Hw. unfold Handle.isFile. unfold bind at 1. cbn [get].
  unfold bind at 1. rewrite (stat_async_existing st _ _ _ Hn Hq Hw).
  cbn [is_SUCCESS SUCCESS Z.eqb stats_of stats_isFile stats_kind].
  apply bind_undefined_twice.
Qed.

Lemma length_async_existing :
  forall st n (k : callback),
    isNaN (VStr (path (self st))) = true -> path (self st) <> EmptyString ->
    walk (locate st (path (self st))) (root st) = inr n ->
    Handle.length (Some k) st
    = bind (k SUCCESS (VNum (stats_size (stats_of n)))) (fun _ => ret VUndefined) st.
Proof.
  intros st n k Hn Hq Hw. unfold Handle.length. unfold bind at 1. cbn [get].
  unfold bind at 1. rewrite (stat_async_existing st _ _ _ Hn Hq Hw).
  cbn [is_SUCCESS SUCCESS Z.eqb Pos.eqb].
  apply bind_undefined_twice.
Qed.

Lemma open_on_file :
  forall st offset length blocking d,
    isNaN (VStr (path (self st))) = true ->
    path (self st) <> EmptyString ->
    walk (locate st (path (self st))) (root st) = inr (FileNode d) ->
    let size := Z.of_nat (List.length d) in
    let strings := utf8_strings Idle (chunks_of (List.length d) highWaterMark d) in
    Stream.open offset length blocking (Some ready) st
    = bind
        (if blocking then
           Stream.update (Stream.set_buf (Some (repeat 0 (Z.to_nat size)))) ;;
           match strings with
           | [] => throw (TypeError "Cannot read property length of null")
           | chunk :: _ =>
               Stream.update (fun s =>
                 Stream.set_buf (option_map (fill_from 0 chunk) (buf s)) s) ;;
               Stream.update (set_window offset length size) ;;
               Stream.call (Some ready) VUndefined
           end
         else
           match strings with
           | [] =>
               Stream.update (Stream.set_buf (Some [])) ;;
               Stream.update (set_window offset length size) ;;
               Stream.call (Some ready) VUndefined
           | _ :: _ => throw (TypeError "ERR_INVALID_ARG_TYPE")
           end)
        (fun _ => ret VUndefined)
        (set_self (set_fd (next_fd (fds st)) (self st))
           (set_fds ((next_fd (fds st), locate st (path (self st))) :: fds st) st)).
Proof.
  intros st offset length blocking d Hnan Hne Hw size strings.
  unfold Stream.open.
  rewrite (length_async_existing st _ _ Hnan Hne Hw).
  cbn [is_SUCCESS SUCCESS Z.eqb Pos.eqb Handle.number_of stats_of stats_size].
  unfold bind at 1 2.
  unfold Handle.getInputStream. unfold bind at 1. cbn [get].
  unfold bind at 1. unfold Handle.open at 1. unfold bind at 1. cbn [get].
  unfold bind at 1. rewrite (isFile_async_file st d _ Hnan Hne Hw).
  cbn [negb is_ERROR is_SUCCESS SUCCESS Z.eqb Pos.eqb].
  unfold bind at 1 2 3.
  rewrite (openFd_async_read_file st _ d _ Hne Hw).
  cbn [negb is_ERROR is_SUCCESS SUCCESS Z.eqb Pos.eqb Handle.number_of].
  unfold bind at 1. cbv beta. cbn [modify].
  set (st2 := set_self _ _).
  assert (Hdata :
    stream_data
      (Handle.createReadStream (path (self st)) (Some (next_fd (fds st))) 0
         (Z.of_nat (List.length d))) st2
    = (Ret strings, st2)).
  { apply (stream_data_of_file st2 _ _ (locate st (path (self st))) d).
    - subst st2. simpl. rewrite Z.eqb_refl. reflexivity.
    - exact Hw. }
  destruct blocking.
  - unfold bind at 1. rewrite Hdata. cbv beta iota.
    clearbody strings. destruct strings; reflexivity.
  - unfold async. rewrite Hdata. cbv beta iota.
    clearbody strings. destruct strings; reflexivity.
Qed.

(** C7 (fails on the code, in the strategy that accumulates).  Take a plain
    file that is not empty, under a path that is not a numeric string.  In
    the blocking strategy, the default, [open] sets the window the claim
    states ([pos = offset] and [count = min(offset + length, size)] if
    [offset > 0] and [length > 0], [pos = 0] and [count = size] otherwise)
    and signals readiness.  In the other strategy the handler of [end] gives
    the strings it received to [Buffer.concat]: a [TypeError] leaves [open]
    with the descriptor opened and nothing else done, so the buffer, the
    position and the count are as they were and readiness is not signalled.
    On the file [/tmp/x/f.txt] holding ["hello"], with [offset = 1] and
    [length = 3]: after the blocking [open], [available()] is [3] and the
    next three bytes read are ["ell"]; after the other, [available()] is [0]
    and [read] throws [Stream closed]. *)
Theorem nonblocking_open_sets_no_window :
  (forall st offset length d,
      isNaN (VStr (path (self st))) = true ->
      path (self st) <> EmptyString ->
      walk (locate st (path (self st))) (root st) = inr (FileNode d) ->
      d <> [] ->
      let size := Z.of_nat (List.length d) in
      let blocked := snd (Stream.open offset length true (Some ready) st) in
      (calls blocked = (calls st ++ [ready_pair])%list
       /\ pos (stream blocked)
          = (if (offset >? 0) && (length >? 0) then offset else 0)
       /\ count (stream blocked)
          = (if (offset >? 0) && (length >? 0)
             then Z.min (offset + length) size else size))
      /\ Stream.open offset length false (Some ready) st
         = (Throw (TypeError "ERR_INVALID_ARG_TYPE"),
            set_self (set_fd (next_fd (fds st)) (self st))
              (set_fds ((next_fd (fds st), locate st (path (self st))) :: fds st)
                 st)))
  /\ (let st := sample_state "/tmp/x/f.txt" in
      let blocked := stream (snd (Stream.open 1 3 true (Some ready) st)) in
      let other := stream (snd (Stream.open 1 3 false (Some ready) st)) in
      available blocked = 3
      /\ fst (read_bytes 3 blocked) = char_codes "ell"
      /\ other = stream st
      /\ available other = 0
      /\ read (Some [0; 0; 0]) 0 3 other = Throw (ReferenceError "Stream closed")).
Proof.
  split.
  - intros st offset length d Hnan Hne Hw Hd size blocked.
    assert (Hs : utf8_strings Idle (chunks_of (List.length d) highWaterMark d)
                 <> []).
    { intros H. apply stream_strings_nil in H. contradiction. }
    split.
    + subst blocked.
      rewrite (open_on_file st offset length true d Hnan Hne Hw).
      destruct (utf8_strings Idle (chunks_of (List.length d) highWaterMark d))
        as [ | chunk rest ]; [ contradiction | ].
      cbv zeta. fold size. unfold set_window.
      destruct ((offset >? 0) && (length >? 0)); repeat split; reflexivity.
    + rewrite (open_on_file st offset length false d Hnan Hne Hw).
      destruct (utf8_strings Idle (chunks_of (List.length d) highWaterMark d))
        as [ | chunk rest ]; [ contradiction | reflexivity ].
  - cbv zeta. repeat split; vm_compute; reflexivity.
Qed.

(** The stream on [/tmp/x/f.txt], opened with [offset = 1], [length = 3]. *)
Lemma nonblocking_open_sets_no_window_witness :
  let st := sample_state "/tmp/x/f.txt" in
  (calls (snd (Stream.open 1 3 true (Some ready) st)) = [ready_pair]
   /\ pos (stream (snd (Stream.open 1 3 true (Some ready) st))) = 1
   /\ count (stream (snd (Stream.open 1 3 true (Some ready) st))) = 4)
  /\ fst (Stream.open 1 3 false (Some ready) st)
     = Throw (TypeError "ERR_INVALID_ARG_TYPE")
  /\ calls (snd (Stream.open 1 3 false (Some ready) st)) = [].
Proof.
  cbv zeta.
  assert (Hd : hello <> []) by discriminate.
  destruct (proj1 nonblocking_open_sets_no_window
              (sample_state "/tmp/x/f.txt") 1 3 hello
              eq_refl ltac:(discriminate) eq_refl Hd) as [Hb Ho].
  split; [ exact Hb | ]. rewrite Ho. split; reflexivity.
Defined.

(** *** Setting up a [File] handle *)

(** The stored path is not touched by the methods of the handle. *)

Lemma keeps_ret : forall {A} (a : A), keeps_path (ret a).
Proof. intros A a st. reflexivity. Qed.

Lemma keeps_throw : forall {A} e, keeps_path (@throw A e).
Proof. intros A e st. reflexivity. Qed.

Lemma keeps_get : keeps_path get.
Proof. intros st. reflexivity. Qed.

Lemma keeps_bind :
  forall {A B} (m : M A) (f : A -> M B),
    keeps_path m -> (forall a, keeps_path (f a)) -> keeps_path (bind m f).
Proof.
  intros A B m f Hm Hf st. unfold bind. specialize (Hm st).
  destruct (m st) as [ [ a | e ] st' ]; simpl in *; [ | exact Hm ].
  rewrite (Hf a st'). exact Hm.
Qed.

Lemma keeps_try_catch :
  forall {A} (m : M A) h,
    keeps_path m -> (forall e, keeps_path (h e)) -> keeps_path (try_catch m h).
Proof.
  intros A m h Hm Hh st. unfold try_catch. specialize (Hm st).
  destruct (m st) as [ [ a | e ] st' ]; simpl in *; [ exact Hm | ].
  rewrite (Hh e st'). exact Hm.
Qed.

Lemma keeps_try_catch_finally :
  forall m h,
    keeps_path m -> (forall e, keeps_path (h e)) ->
    keeps_path (try_catch_finally m h).
Proof.
  intros m h Hm Hh st. unfold try_catch_finally. specialize (Hm st).
  destruct (m st) as [ [ a | e ] st' ]; simpl in *; [ exact Hm | ].
  rewrite (Hh e st'). exact Hm.
Qed.

Lemma keeps_async :
  forall {A} (op : M A) k,
    keeps_path op -> (forall e a, keeps_path (k e a)) -> keeps_path (async op k).
Proof.
  intros A op k Hop Hk st. unfold async. specialize (Hop st).
  destruct (op st) as [ [ a | e ] st' ]; simpl in *.
  - rewrite (Hk None (Some a) st'). exact Hop.
  - rewrite (Hk (Some e) None st'). exact Hop.
Qed.

Lemma keeps_modify :
  forall f, (forall st, path (self (f st)) = path (self st)) -> keeps_path (modify f).
Proof. intros f H st. apply H. Qed.

Lemma keeps_native_path : forall s, keeps_path (native_path s).
Proof.
  intros s st. unfold native_path. destruct (s =? EmptyString)%string; reflexivity.
Qed.

(** The frame argument: split a computation along its combinators and case
    analyses, unfolding the functions of the module on the way. *)
Ltac frame_step :=
  first
    [ assumption
    | lazymatch goal with
      | H : callback_keeps_path (Some ?c) |- keeps_path (?c _ _) =>
          apply (H c eq_refl)
      | |- callback_keeps_path None => intros ? ?; discriminate
      | |- callback_keeps_path (Some _) =>
          let g := fresh in
          let E := fresh in
          intros g E; injection E as <-; intros ? ?
      | |- keeps_path (if ?b then _ else _) => destruct b
      | |- keeps_path (match ?x with _ => _ end) => destruct x
      | |- keeps_path (ret _) => apply keeps_ret
      | |- keeps_path (throw _) => apply keeps_throw
      | |- keeps_path get => apply keeps_get
      | |- keeps_path (bind _ _) => apply keeps_bind
      | |- keeps_path (try_catch _ _) => apply keeps_try_catch
      | |- keeps_path (try_catch_finally _ _) => apply keeps_try_catch_finally
      | |- keeps_path (async _ _) => apply keeps_async
      | |- keeps_path (modify _) => apply keeps_modify; intros; reflexivity
      | |- keeps_path (native_path _) => apply keeps_native_path
      | |- keeps_path _ =>
          progress unfold Handle.exists_, Handle.isFile, Handle.isDir,
            Handle.length, Handle.close, Handle.open, Handle.getInputStream,
            access, stat, statSync_value, closeFd, openFd, undefined_after,
            completion, handleError, handleSuccess, EX_or, record_call,
            accessSync, statSync, fstatSync, native_walk, openSync,
            create_entry, allocate_fd, closeSync
      | |- forall _, _ => intro
      end ].

Ltac frame := repeat frame_step.

Lemma handle_methods_keep_path :
  forall cb,
    callback_keeps_path cb ->
    keeps_path (Handle.exists_ cb) /\ keeps_path (Handle.isFile cb)
    /\ keeps_path (Handle.isDir cb) /\ keeps_path (Handle.length cb)
    /\ keeps_path (Handle.close cb)
    /\ (forall flags, keeps_path (Handle.open flags cb))
    /\ (forall start end_ autoClose,
          keeps_path (Handle.getInputStream start end_ autoClose cb)).
Proof.
  intros cb H. repeat split; frame.
Qed.

(** C10.  Whenever [setup] (hence the constructor) completes on a non-null
    path, the handle has [fd = 0] and [watcher = null], so [isOpen()] and
    [isWatched()] are false, and the stored path, which [getPath] returns as
    it is, is [normalize(path)], or [resolve(parent.path, normalize(path))],
    or [resolve(normalize(parent), normalize(path))] according to the parent
    given; it is a fixed point of [normalize].  [setup] completes for every
    parent other than the empty string.  The methods [exists], [isFile],
    [isDir], [length], [close], [open] and [getInputStream] leave the stored
    path as it is, as long as the callback they are given does. *)
Theorem setup_initial_handle :
  forall st (p : string) (parent : parent_arg) (flag : bool),
    (forall st',
        Handle.setup (Some p) parent flag st = (Ret tt, st') ->
        fd (self st') = 0 /\ watcher (self st') = None
        /\ isOpen (self st') = false /\ isWatched (self st') = false
        /\ getPath (self st')
           = match parent with
             | ParentNull => normalize p
             | ParentFile f => resolve (cwd st) [path f; normalize p]
             | ParentPath s => resolve (cwd st) [normalize s; normalize p]
             end
        /\ (parent = ParentNull \/ Forall entry_name (cwd st) ->
            normalize (getPath (self st')) = getPath (self st'))
        /\ Handle.constructor (Some p) parent flag st = (Ret tt, st'))
    /\ (parent <> ParentPath EmptyString ->
        exists st', Handle.setup (Some p) parent flag st = (Ret tt, st'))
    /\ (forall cb,
          callback_keeps_path cb ->
          keeps_path (Handle.exists_ cb) /\ keeps_path (Handle.isFile cb)
          /\ keeps_path (Handle.isDir cb) /\ keeps_path (Handle.length cb)
          /\ keeps_path (Handle.close cb)
          /\ (forall flags, keeps_path (Handle.open flags cb))
          /\ (forall start end_ autoClose,
                keeps_path (Handle.getInputStream start end_ autoClose cb))).
Proof.
  intros st p parent flag. split; [ | split ].
  - intros st' H. unfold Handle.constructor. rewrite H.
    unfold Handle.setup, bind, get, modify, ret, throw in H.
    destruct parent as [ | f | s ]; simpl in H.
    + inversion H; subst; simpl. repeat split.
      intros _. apply normalize_idempotent.
    + inversion H; subst; simpl. repeat split.
      intros [ Hp | Hwd ]; [ discriminate | ].
      apply normalize_resolve. exact Hwd.
    + destruct (s =? EmptyString)%string; simpl in H; [ discriminate | ].
      inversion H; subst; simpl. repeat split.
      intros [ Hp | Hwd ]; [ discriminate | ].
      apply normalize_resolve. exact Hwd.
  - intros Hne. unfold Handle.setup, bind, get, modify, ret, throw.
    destruct parent as [ | f | s ]; simpl; eauto.
    destruct (String.eqb_spec s EmptyString) as [ -> | _ ]; simpl; eauto.
    contradiction Hne. reflexivity.
  - apply handle_methods_keep_path.
Qed.

(** [new File({ path: "f.txt", parent: "/tmp/x" })] *)
Lemma setup_initial_handle_witness :
  ParentPath "/tmp/x" <> ParentPath EmptyString
  /\ exists st',
       Handle.setup (Some "f.txt") (ParentPath "/tmp/x") false (sample_state "old")
       = (Ret tt, st').
Proof.
  split; [ discriminate | ].
  destruct (setup_initial_handle (sample_state "old") "f.txt"
              (ParentPath "/tmp/x") false) as (_ & H & _).
  apply H. discriminate.
Defined.

(** ** Beyond the claims: the rest of the stream, the paths and the handle *)

(** *** The cursor of a [FileInputStream]: [skip], [mark], [reset], [read] *)

Lemma stream_eta :
  forall s, mkStream (buf s) (pos s) (count s) (markPos s) = s.
Proof. intros [b p c m]. reflexivity. Qed.

(** X1.  [skip(n)] in closed form: it returns [n] cut down to what is available,
    and nothing below zero, and moves the position by what it returns; the
    position never goes back and never passes [count] from below. *)
Theorem skip_closed_form :
  forall n s,
    let r := Z.max 0 (Z.min n (available s)) in
    skip n s = (r, mkStream (buf s) (pos s + r) (count s) (markPos s))
    /\ pos s <= pos (snd (skip n s))
    /\ available (snd (skip n s)) = available s - r
    /\ (pos s <= count s -> pos (snd (skip n s)) <= count s).
Proof.
  intros n s r. subst r. unfold skip, available.
  destruct (pos s + n >? count s) eqn:E1.
  - apply Z.gtb_lt in E1.
    destruct (count s - pos s <? 0) eqn:E2.
    + apply Z.ltb_lt in E2.
      replace (Z.max 0 (Z.min n (count s - pos s))) with 0 by lia.
      rewrite Z.add_0_r, stream_eta. simpl. repeat split; lia.
    + apply Z.ltb_ge in E2.
      replace (Z.max 0 (Z.min n (count s - pos s))) with (count s - pos s) by lia.
      simpl. repeat split; lia.
  - assert (H1 : pos s + n <= count s).
    { destruct (Z.gtb_spec (pos s + n) (count s)); [ discriminate | lia ]. }
    destruct (n <? 0) eqn:E2.
    + apply Z.ltb_lt in E2.
      replace (Z.max 0 (Z.min n (count s - pos s))) with 0 by lia.
      rewrite Z.add_0_r, stream_eta. simpl. repeat split; lia.
    + apply Z.ltb_ge in E2.
      replace (Z.max 0 (Z.min n (count s - pos s))) with n by lia.
      simpl. repeat split; lia.
Qed.

Lemma read_keeps_mark :
  forall b off len s r,
    read b off len s = Ret r ->
    markPos (read_stream r) = markPos s /\ buf (read_stream r) = buf s
    /\ count (read_stream r) = count s.
Proof.
  intros b off len s r H. unfold read in H.
  destruct (buf s) as [ data | ] eqn:Eb; [ | discriminate ].
  destruct b as [ dest | ].
  - destruct ((off <? 0) || _ || _); [ discriminate | ].
    destruct (pos s >=? count s);
      [ inversion H; subst; simpl; auto | ].
    destruct (_ <=? 0); inversion H; subst; simpl; auto.
  - destruct (pos s <? count s); inversion H; subst; simpl; auto.
Qed.

Lemma moves_keep_mark :
  forall ops st,
    moves_only ops = true ->
    markPos (stream (run ops st)) = markPos (stream st)
    /\ buf (stream (run ops st)) = buf (stream st)
    /\ count (stream (run ops st)) = count (stream st).
Proof.
  induction ops as [ | o ops IH ]; intros st H; [ simpl; auto | ].
  simpl in H. apply andb_true_iff in H as [Ho H].
  simpl. destruct (IH (step o st) H) as (I1 & I2 & I3).
  rewrite I1, I2, I3. clear IH I1 I2 I3.
  destruct o; try discriminate; simpl.
  - destruct (read b off len (stream st)) as [ r | e ] eqn:E; [ | auto ].
    simpl. apply (read_keeps_mark _ _ _ _ _ E).
  - unfold skip.
    destruct (_ <? 0); simpl; auto.
Qed.

Lemma run_app :
  forall a b st, run (a ++ b) st = run b (run a st).
Proof. intros a b st. unfold run. apply fold_left_app. Qed.

(** X2.  [mark()], then any reads and skips, then [reset()]: the stream is back
    where [mark] left it, so what is read next is what would have been read
    at the mark. *)
Theorem reset_returns_to_mark :
  forall ops st,
    moves_only ops = true ->
    let st' := run (OpMark :: ops ++ [OpReset]) st in
    stream st' = mark (stream st)
    /\ pos (stream st') = pos (stream st)
    /\ (forall b off len,
          read b off len (stream st') = read b off len (mark (stream st))).
Proof.
  intros ops st H st'.
  assert (E : stream st' = mark (stream st)).
  { subst st'. change (OpMark :: ops ++ [OpReset])%list
      with ([OpMark] ++ ops ++ [OpReset])%list.
    rewrite !run_app.
    destruct (moves_keep_mark ops (run [OpMark] st) H) as (I1 & I2 & I3).
    simpl in *. unfold reset. rewrite I1, I2, I3. reflexivity. }
  split; [ exact E | ]. split; [ rewrite E; reflexivity | ].
  intros b off len. rewrite E. reflexivity.
Qed.

Lemma reset_returns_to_mark_witness :
  let ops := [ OpRead None 0 0; OpSkip 2; OpRead (Some [0; 0]) 0 2 ] in
  let st := set_stream (mkStream (Some hello) 1 5 0) (sample_state "/tmp/x/f.txt") in
  moves_only ops = true
  /\ pos (stream (run (OpMark :: ops ++ [OpReset]) st)) = 1.
Proof.
  split; [ reflexivity | ].
  destruct (reset_returns_to_mark
              [ OpRead None 0 0; OpSkip 2; OpRead (Some [0; 0]) 0 2 ]
              (set_stream (mkStream (Some hello) 1 5 0) (sample_state "/tmp/x/f.txt"))
              eq_refl) as (_ & H & _).
  exact H.
Defined.

Lemma element_skipn :
  forall (data : list Z) p,
    0 <= p < Z.of_nat (List.length data) ->
    exists b rest, skipn (Z.to_nat p) data = b :: rest /\ element data p = Some b.
Proof.
  intros data p Hp. unfold element.
  destruct (p <? 0) eqn:E; [ apply Z.ltb_lt in E; lia | ].
  destruct (skipn (Z.to_nat p) data) as [ | b rest ] eqn:Es.
  - apply (f_equal (@List.length Z)) in Es. rewrite length_skipn in Es.
    change (List.length (@nil Z)) with 0%nat in Es. lia.
  - exists b, rest. split; [ reflexivity | ].
    rewrite <- (firstn_skipn (Z.to_nat p) data) at 1.
    rewrite nth_error_app2; rewrite length_firstn; [ | lia ].
    replace (Z.to_nat p - Nat.min (Z.to_nat p) (List.length data))%nat with 0%nat by lia.
    rewrite Es. reflexivity.
Qed.

Lemma skipn_succ :
  forall (data : list Z) p b rest,
    0 <= p -> skipn (Z.to_nat p) data = b :: rest ->
    skipn (Z.to_nat (p + 1)) data = rest.
Proof.
  intros data p b rest Hp H.
  replace (Z.to_nat (p + 1)) with (1 + Z.to_nat p)%nat by lia.
  rewrite <- skipn_skipn, H. reflexivity.
Qed.

Lemma read_bytes_at_end :
  forall k s data,
    buf s = Some data -> pos s >= count s ->
    read_bytes k s = (repeat (-1) k, s).
Proof.
  induction k as [ | k IH ]; intros s data Hb Hp; [ reflexivity | ].
  cbn [read_bytes]. unfold read. rewrite Hb.
  destruct (pos s <? count s) eqn:E; [ apply Z.ltb_lt in E; lia | ].
  cbn [read_value read_stream]. rewrite (IH s data Hb Hp). reflexivity.
Qed.

Lemma and_255_range : forall b, 0 <= Z.land b 255 <= 255.
Proof.
  intros b. replace (Z.land b 255) with (b mod 256).
  - pose proof (Z.mod_pos_bound b 256). lia.
  - change 255 with (Z.ones 8). rewrite Z.land_ones by lia. reflexivity.
Qed.

(** X3.  Single-byte reads deliver the buffered bytes in order, each cut to
    eight bits: from position [pos], the [count - pos] bytes at
    [pos .. count - 1] come first and leave the position at [count]; every
    further read returns [-1] and changes nothing. *)
Theorem reads_deliver_buffer_in_order :
  forall k j s data,
    buf s = Some data -> 0 <= pos s ->
    pos s + Z.of_nat k = count s ->
    count s <= Z.of_nat (List.length data) ->
    read_bytes (k + j) s
    = ((map (fun b => Z.land b 255) (firstn k (skipn (Z.to_nat (pos s)) data))
        ++ repeat (-1) j)%list,
       mkStream (buf s) (count s) (count s) (markPos s))
    /\ Forall (fun v => 0 <= v <= 255)
         (map (fun b => Z.land b 255) (firstn k (skipn (Z.to_nat (pos s)) data)))
    /\ List.length (firstn k (skipn (Z.to_nat (pos s)) data)) = k.
Proof.
  intros k j s data Hb Hp Hk Hc. split; [ | split ].
  - revert s Hb Hp Hk Hc.
    induction k as [ | k IH ]; intros s Hb Hp Hk Hc.
    + cbn [Nat.add firstn map app].
      rewrite (read_bytes_at_end j s data Hb) by lia.
      assert (Hpc : pos s = count s) by lia.
      destruct s as [b0 p c m]. cbn [buf pos count markPos] in *.
      subst p. reflexivity.
    + cbn [Nat.add read_bytes]. unfold read. rewrite Hb.
      destruct (pos s <? count s) eqn:E; [ | apply Z.ltb_ge in E; lia ].
      cbn [read_value read_stream].
      destruct (element_skipn data (pos s)) as (b & rest & Es & Ee); [ lia | ].
      rewrite (IH (mkStream (Some data) (pos s + 1) (count s) (markPos s)));
        cbn [buf pos count markPos]; try reflexivity; try lia.
      rewrite Ee, Es, (skipn_succ _ _ _ _ Hp Es).
      reflexivity.
  - apply Forall_map, Forall_forall. intros b _. apply and_255_range.
  - rewrite length_firstn, length_skipn. lia.
Qed.

Lemma reads_deliver_buffer_in_order_witness :
  read_bytes (4 + 2) (mkStream (Some hello) 1 5 0)
  = (char_codes "ello" ++ [-1; -1], mkStream (Some hello) 5 5 0)%list.
Proof.
  assert (H1 : 0 <= 1) by lia.
  assert (H2 : 5 <= Z.of_nat (List.length hello)) by (simpl; lia).
  exact (proj1 (reads_deliver_buffer_in_order 4 2 (mkStream (Some hello) 1 5 0)
                  hello eq_refl H1 eq_refl H2)).
Defined.

Lemma store_nat_split :
  forall (a : list Z) i v,
    (i < List.length a)%nat ->
    store_nat a i v = (firstn i a ++ v :: skipn (S i) a)%list.
Proof.
  induction a as [ | x a IH ]; intros i v H; [ simpl in H; lia | ].
  destruct i as [ | i ]; [ reflexivity | ].
  simpl in H. cbn [store_nat firstn skipn app]. rewrite IH by lia. reflexivity.
Qed.

Lemma arraycopy_nat_window :
  forall k (src : list Z) sp dst dp,
    0 <= sp -> 0 <= dp ->
    sp + Z.of_nat k <= Z.of_nat (List.length src) ->
    dp + Z.of_nat k <= Z.of_nat (List.length dst) ->
    arraycopy_nat src sp dst dp k
    = (firstn (Z.to_nat dp) dst
       ++ firstn k (skipn (Z.to_nat sp) src)
       ++ skipn (Z.to_nat dp + k) dst)%list.
Proof.
  induction k as [ | k IH ]; intros src sp dst dp Hs Hd Hsk Hdk.
  - cbn [arraycopy_nat firstn app]. rewrite Nat.add_0_r, firstn_skipn. reflexivity.
  - cbn [arraycopy_nat].
    destruct (element_skipn src sp) as (b & rest & Es & Ee); [ lia | ].
    rewrite Ee. unfold store.
    destruct (dp <? 0) eqn:E; [ apply Z.ltb_lt in E; lia | ].
    rewrite store_nat_split by lia.
    rewrite IH; try lia.
    2:{ rewrite length_app, length_firstn. cbn [List.length].
        rewrite length_skipn. lia. }
    rewrite Es, (skipn_succ _ _ _ _ Hs Es). cbn [firstn].
    replace (Z.to_nat (dp + 1)) with (S (Z.to_nat dp)) by lia.
    set (d := Z.to_nat dp).
    assert (Hl : List.length (firstn d dst) = d)
      by (rewrite length_firstn; lia).
    rewrite firstn_app, Hl.
    replace (S d - d)%nat with 1%nat by lia.
    rewrite firstn_all2 by lia. cbn [firstn].
    rewrite skipn_app, Hl.
    rewrite (skipn_all2 (firstn d dst)) by lia.
    replace (S d + k - d)%nat with (S k) by lia.
    change (skipn (S k) (b :: skipn (S d) dst)) with (skipn k (skipn (S d) dst)).
    rewrite skipn_skipn.
    replace (k + S d)%nat with (d + S k)%nat by lia.
    rewrite <- app_assoc. reflexivity.
Qed.

(** X4.  [read(b, off, len)] on an open stream: what it returns and where it
    leaves the cursor.  [len = 0] stands for the length of [b].  A range
    that does not fit in [b] is a [RangeError], also at the end of the data.
    With a range that fits, it returns [-1] at the end of the data, and
    otherwise [n], the smaller of the length asked for and what is
    available; it moves the position by [n] and leaves the buffer, the
    count and the mark. *)
Theorem bulk_read_counts_what_is_left :
  forall s data dest off len,
    buf s = Some data ->
    let room := Z.of_nat (List.length dest) - off in
    let asked := if len =? 0 then Z.of_nat (List.length dest) else len in
    (off < 0 \/ asked < 0 \/ room < asked ->
     read (Some dest) off len s = Throw (RangeError "IndexOutOfBoundsException"))
    /\ (0 <= off -> 0 <= asked <= room ->
        exists r,
          read (Some dest) off len s = Ret r
          /\ read_value r
             = (if pos s >=? count s then -1 else Z.min asked (count s - pos s))
          /\ read_stream r
             = mkStream (buf s) (pos s + Z.max 0 (read_value r)) (count s)
                 (markPos s)).
Proof.
  intros s data dest off len Hb room asked. unfold read. rewrite Hb.
  fold asked.
  replace (asked >? Z.of_nat (List.length dest) - off) with (asked >? room)
    by reflexivity.
  split.
  - intros H.
    assert (E : (off <? 0) || (asked <? 0) || (asked >? room) = true).
    { destruct H as [ H | [ H | H ] ].
      - apply Z.ltb_lt in H. rewrite H. reflexivity.
      - apply Z.ltb_lt in H. rewrite H. apply orb_true_iff. left.
        apply orb_true_r.
      - assert (E : (asked >? room) = true) by (apply Z.gtb_lt; exact H).
        rewrite E. apply orb_true_r. }
    rewrite E. reflexivity.
  - intros Ho Ha.
    assert (E : (off <? 0) || (asked <? 0) || (asked >? room) = false).
    { repeat (apply orb_false_iff; split).
      - apply Z.ltb_ge. exact Ho.
      - apply Z.ltb_ge. lia.
      - destruct (Z.gtb_spec asked room); [ lia | reflexivity ]. }
    rewrite E.
    destruct (Z.geb_spec (pos s) (count s)) as [ Hend | Hleft ].
    + eexists. split; [ reflexivity | ]. cbn [read_value read_stream].
      split; [ reflexivity | ].
      change (Z.max 0 (-1)) with 0. rewrite Z.add_0_r, <- Hb. symmetry. apply stream_eta.
    + assert (En : (if pos s + asked >? count s then count s - pos s else asked)
                   = Z.min asked (count s - pos s)).
      { destruct (Z.gtb_spec (pos s + asked) (count s)); lia. }
      rewrite En.
      destruct (Z.leb_spec (Z.min asked (count s - pos s)) 0) as [ Hz | Hp ].
      * eexists. split; [ reflexivity | ]. cbn [read_value read_stream].
        split; [ lia | ].
        change (Z.max 0 0) with 0. rewrite Z.add_0_r, <- Hb. symmetry. apply stream_eta.
      * eexists. split; [ reflexivity | ]. cbn [read_value read_stream].
        split; [ reflexivity | ].
        rewrite Z.max_r by lia. reflexivity.
Qed.

Lemma bulk_read_counts_what_is_left_witness :
  (exists r,
      read (Some [0; 0; 0; 0]) 1 2 (mkStream (Some hello) 4 5 0) = Ret r
      /\ read_value r = 1
      /\ read_stream r = mkStream (Some hello) 5 5 0)
  /\ read (Some [0; 0; 0; 0]) 3 2 (mkStream (Some hello) 5 5 0)
     = Throw (RangeError "IndexOutOfBoundsException").
Proof.
  split.
  - assert (H1 : 0 <= 1) by lia.
    assert (H2 : 0 <= 2 <= Z.of_nat (List.length [0; 0; 0; 0]) - 1) by (simpl; lia).
    destruct (proj2 (bulk_read_counts_what_is_left (mkStream (Some hello) 4 5 0)
                       hello [0; 0; 0; 0] 1 2 eq_refl) H1 H2) as (r & Hr & Hv & Hs).
    exists r. split; [ exact Hr | ]. split; [ exact Hv | ].
    rewrite Hs, Hv. reflexivity.
  - apply (proj1 (bulk_read_counts_what_is_left (mkStream (Some hello) 5 5 0)
                    hello [0; 0; 0; 0] 3 2 eq_refl)).
    right. right. simpl. lia.
Defined.

(** *** [slashify] *)






(** *** [splitPaths] and the leading separator *)

Lemma split_leading_sep : forall s, split ("/" ++ s) = EmptyString :: split s.
Proof. reflexivity. Qed.

Lemma splitPaths_leading_sep :
  forall s, splitPaths ("/" ++ s) = "." :: splitPaths s.
Proof.
  intros s. unfold splitPaths. rewrite split_leading_sep.
  cbn [List.length seq map firstn]. f_equal.
  rewrite <- seq_shift, map_map. apply map_ext. intros i. reflexivity.
Qed.

(** X6.  [splitPaths] gives one path for each piece of its argument, the last of
    which is the whole argument joined again, and none of them starts with
    the separator: the root of an absolute path is lost, and stands as ["."]
    at the head of the list. *)
Theorem splitPaths_yields_relative_paths :
  forall s,
    List.length (splitPaths s) = List.length (split s)
    /\ last (splitPaths s) EmptyString = join (split s)
    /\ Forall (fun q => q <> EmptyString /\ isAbsolute q = false) (splitPaths s)
    /\ splitPaths ("/" ++ s) = "." :: splitPaths s.
Proof.
  intros s. split; [ | split; [ | split ] ].
  - unfold splitPaths. rewrite length_map, length_seq. reflexivity.
  - apply last_splitPaths.
  - unfold splitPaths. apply Forall_map, Forall_forall. intros i _.
    destruct (join_parts (firstn i (split s))) as (H1 & H2 & _).
    + apply Forall_firstn_of, split_parts_slash_free.
    + split; assumption.
  - apply splitPaths_leading_sep.
Qed.

(** *** [mkdirs] on an absolute path *)

Lemma mkdirs_for_shift :
  forall mode rest len i st,
    (1 <= len)%nat ->
    mkdirs_for (S len) (S i) rest mode st = mkdirs_for len i rest mode st.
Proof.
  induction rest as [ | q rest IH ]; intros len i st Hlen; [ reflexivity | ].
  cbn [mkdirs_for].
  replace (S i =? S len - 1)%nat with (i =? len - 1)%nat.
  - unfold bind at 1 2.
    destruct ((if (i =? len - 1)%nat then mkdirSync q mode
               else try_catch (accessSync q R_OK) (fun _ => mkdirSync q mode)) st)
      as [ [ [] | e ] st1 ]; [ apply IH; exact Hlen | reflexivity ].
  - destruct (Nat.eqb_spec i (len - 1)); destruct (Nat.eqb_spec (S i) (S len - 1));
      try reflexivity; lia.
Qed.

Lemma access_cwd :
  forall st n mode, walk (cwd st) (root st) = inr n ->
    accessSync "." mode st = (Ret tt, st).
Proof.
  intros st n mode H. apply accessSync_accessible. split; [ discriminate | ].
  exists n. unfold locate. simpl. rewrite app_nil_r. exact H.
Qed.

Lemma splitPaths_length : forall s, (1 <= List.length (splitPaths s))%nat.
Proof.
  intros s. pose proof (splitPaths_not_nil s).
  destruct (splitPaths s); [ contradiction | simpl; lia ].
Qed.

Lemma splitPaths_truthy :
  forall s q, In q (splitPaths s) -> truthy (VStr q) = true.
Proof.
  intros s q H. unfold splitPaths in H. apply in_map_iff in H as (i & <- & _).
  destruct (join_parts (firstn i (split s))) as (H1 & _).
  - apply Forall_firstn_of, split_parts_slash_free.
  - simpl. destruct (String.eqb_spec (join (firstn i (split s))) EmptyString);
      [ contradiction | reflexivity ].
Qed.

(** X7.  [mkdirs] does not see the separator at the head of its argument: as long
    as the working directory exists, [mkdirs] on ["/" ++ s] does, in either
    mode, what it does on [s], that is, it works below the working directory
    and not below the root. *)
Theorem mkdirs_ignores_leading_separator :
  forall st s mode (cb : option callback) n,
    walk (cwd st) (root st) = inr n ->
    mkdirs (Some ("/" ++ s)) mode cb true st = mkdirs (Some s) mode cb true st
    /\ mkdirs (Some ("/" ++ s)) mode cb false st = mkdirs (Some s) mode cb false st.
Proof.
  intros st s mode cb n Hwd.
  pose proof (splitPaths_length s) as Hlen.
  pose proof (splitPaths_truthy s) as Htruthy.
  unfold mkdirs. rewrite splitPaths_leading_sep.
  cbn [List.length]. set (queue := splitPaths s) in *.
  replace (S (List.length queue) <? 2)%nat with false
    by (symmetry; apply Nat.ltb_ge; lia).
  split.
  - unfold try_catch_finally. cbn [mkdirs_for].
    unfold bind at 1 2. unfold try_catch.
    replace (0 =? S (List.length queue) - 1)%nat with false
      by (symmetry; apply Nat.eqb_neq; lia).
    rewrite (access_cwd st n R_OK Hwd).
    rewrite mkdirs_for_shift by exact Hlen.
    destruct (Nat.ltb_spec (List.length queue) 2) as [ Hlt | Hge ];
      [ | reflexivity ].
    destruct queue as [ | q [ | q' queue' ] ]; simpl in Hlen, Hlt; try lia.
    cbn [mkdirs_for first_of List.length Nat.sub Nat.eqb]. unfold bind, ret.
    destruct (mkdirSync q mode st) as [ [ [] | e ] st1 ]; reflexivity.
  - unfold undefined_after. cbn [mkdirs_next]. cbn [truthy String.eqb negb].
    destruct queue as [ | q queue' ] eqn:Eq; [ simpl in Hlen; lia | ].
    unfold bind at 1. unfold async at 1.
    rewrite (access_cwd st n R_OK Hwd).
    destruct (Nat.ltb_spec (List.length (q :: queue')) 2) as [ Hlt | Hge ];
      [ | reflexivity ].
    destruct queue' as [ | q' queue' ]; [ | simpl in Hlt; lia ].
    cbn [mkdirs_next first_of]. rewrite (Htruthy q (or_introl eq_refl)).
    unfold bind, ret, async, completion.
    destruct (mkdirSync q mode st) as [ [ [] | e ] st1 ]; reflexivity.
Qed.

Lemma mkdirs_ignores_leading_separator_witness :
  mkdirs (Some "/tmp/y") 511 None true
    (mkState sample_tree ["tmp"; "x"] [] VNull [] (mkFile "f" false None 0) fresh_stream)
  = mkdirs (Some "tmp/y") 511 None true
      (mkState sample_tree ["tmp"; "x"] [] VNull [] (mkFile "f" false None 0) fresh_stream).
Proof.
  exact (proj1 (mkdirs_ignores_leading_separator
                  (mkState sample_tree ["tmp"; "x"] [] VNull []
                     (mkFile "f" false None 0) fresh_stream)
                  "tmp/y" 511 None (DirNode [ ("f.txt", FileNode hello) ]) eq_refl)).
Defined.

(** *** [mkdirs] on a chain with missing directories *)



Lemma create_fresh :
  forall st q p k es v mode,
    q <> EmptyString -> locate st q = (p ++ [k])%list ->
    walk p (root st) = inr (DirNode es) -> assoc k es = None ->
    create_entry q v st = (Ret tt, set_root (put (p ++ [k]) v (root st)) st)
    /\ accessSync q mode st = (Throw (SystemError ENOENT), st)
    /\ walk (p ++ [k]) (put (p ++ [k]) v (root st)) = inr v.
Proof.
  intros st q p k es v mode Hq Hl Hw Ha.
  assert (Hmiss : walk (p ++ [k]) (root st) = inl ENOENT).
  { rewrite walk_app, Hw. simpl. rewrite Ha. reflexivity. }
  split; [ | split ].
  - unfold create_entry, native_path, bind, get.
    destruct (String.eqb_spec q EmptyString) as [ E | _ ]; [ contradiction | ].
    rewrite Hl, Hmiss. unfold parent_of. rewrite removelast_last, Hw.
    reflexivity.
  - unfold accessSync, native_walk, native_path, bind, get.
    destruct (String.eqb_spec q EmptyString) as [ E | _ ]; [ contradiction | ].
    rewrite Hl, Hmiss. reflexivity.
  - apply (walk_put_same _ _ _ es).
    + destruct p; discriminate.
    + unfold parent_of. rewrite removelast_last. exact Hw.
Qed.















(** *** [exists], [createDir], [createDirs], [createFile] *)

Lemma access_sync_ok :
  forall st s mode (cb : option callback),
    accessible st s -> access (Some s) mode cb true st = (Ret SUCCESS, st).
Proof.
  intros st s mode cb H. unfold access, try_catch_finally, bind.
  rewrite (accessSync_accessible _ _ F_OK H). reflexivity.
Qed.

Lemma access_sync_fail :
  forall st s mode e,
    native_walk s st = (Throw e, st) ->
    access (Some s) mode None true st = (Ret ERROR, set_EX (VErr e) st).
Proof.
  intros st s mode e H. unfold access, try_catch_finally, accessSync, bind.
  rewrite H. reflexivity.
Qed.


Lemma access_async_fail :
  forall st s mode e (k : callback),
    native_walk s st = (Throw e, st) ->
    access (Some s) mode (Some k) false st
    = bind (k ERROR (VErr e)) (fun _ => ret VUndefined) st.
Proof.
  intros st s mode e k H. unfold access, undefined_after, async, accessSync.
  unfold bind at 1 2. rewrite H. reflexivity.
Qed.





Lemma missing_native_walk :
  forall st q par k,
    missing_in st q par k ->
    native_walk q st = (Throw (SystemError ENOENT), st).
Proof.
  intros st q par k (Hq & Hl & es & Hw & Ha).
  unfold native_walk, native_path, bind, get.
  destruct (String.eqb_spec q EmptyString) as [ E | _ ]; [ contradiction | ].
  rewrite Hl, walk_app, Hw. simpl. rewrite Ha. reflexivity.
Qed.

Lemma missing_create :
  forall st q par k v,
    missing_in st q par k ->
    create_entry q v st = (Ret tt, set_root (put (par ++ [k]) v (root st)) st)
    /\ walk (par ++ [k]) (put (par ++ [k]) v (root st)) = inr v.
Proof.
  intros st q par k v (Hq & Hl & es & Hw & Ha).
  destruct (create_fresh st q par k es v 0 Hq Hl Hw Ha) as (H1 & _ & H2).
  split; assumption.
Qed.

Lemma mkdir_sync_missing :
  forall st q par k mode (cb : option callback),
    missing_in st q par k ->
    mkdir (Some q) mode cb true st
    = (Ret SUCCESS, set_root (put (par ++ [k]) (DirNode []) (root st)) st).
Proof.
  intros st q par k mode cb H. unfold mkdir, try_catch_finally, mkdirSync, bind.
  rewrite (proj1 (missing_create st q par k (DirNode []) H)). reflexivity.
Qed.


(** X9.  [createDir()] without a callback.  On an entry that exists it returns
    [ERROR], records [FileExistException] unless an error is already
    recorded, and changes nothing else.  On a missing entry of an existing
    directory it creates an empty directory and returns [SUCCESS]; [exists()]
    then answers [SUCCESS], while [File.exception()] still holds the [ENOENT]
    of the probe that [createDir] made first. *)
Theorem createDir_sync :
  forall st,
    (accessible st (path (self st)) ->
     Handle.createDir None st
     = (Ret ERROR,
        set_EX (if truthy (EX st) then EX st
                else VErr (ReferenceError "FileExistException")) st))
    /\ (forall par k,
          missing_in st (path (self st)) par k ->
          let st' := snd (Handle.createDir None st) in
          Handle.createDir None st
          = (Ret SUCCESS,
             set_root (put (par ++ [k]) (DirNode []) (root st))
               (set_EX (VErr (SystemError ENOENT)) st))
          /\ walk (locate st' (path (self st'))) (root st') = inr (DirNode [])
          /\ Handle.exists_ None st' = (Ret SUCCESS, st')
          /\ exception st' = (Ret (VErr (SystemError ENOENT)), st')).
Proof.
  intros st. split.
  - intros H. unfold Handle.createDir, Handle.exists_. unfold bind at 1 2 3.
    cbn [get]. rewrite (access_sync_ok _ _ _ None H). reflexivity.
  - intros par k H st'.
    assert (E : Handle.createDir None st
                = (Ret SUCCESS,
                   set_root (put (par ++ [k]) (DirNode []) (root st))
                     (set_EX (VErr (SystemError ENOENT)) st))).
    { unfold Handle.createDir, Handle.exists_. unfold bind at 1 2 3. cbn [get].
      rewrite (access_sync_fail _ _ _ _ (missing_native_walk _ _ _ _ H)).
      cbn [is_ERROR ERROR Z.eqb].
      apply (mkdir_sync_missing (set_EX (VErr (SystemError ENOENT)) st)).
      exact H. }
    subst st'. rewrite E. cbn [snd].
    destruct H as (Hq & Hl & es & Hw & Ha).
    assert (Hthere :
      walk (locate st (path (self st)))
        (put (par ++ [k]) (DirNode []) (root st)) = inr (DirNode [])).
    { rewrite Hl. apply (walk_put_same _ _ _ es).
      - destruct par; discriminate.
      - unfold parent_of. rewrite removelast_last. exact Hw. }
    split; [ reflexivity | ]. split; [ exact Hthere | ]. split; [ | reflexivity ].
    unfold Handle.exists_. unfold bind at 1. cbn [get].
    apply access_sync_ok. split; [ exact Hq | ].
    exists (DirNode []). exact Hthere.
Qed.

Lemma createDir_sync_witness :
  let st := sample_state "tmp/new" in
  missing_in st (path (self st)) ["tmp"] "new"
  /\ Handle.createDir None st
     = (Ret SUCCESS,
        set_root (put ["tmp"; "new"] (DirNode []) (root st))
          (set_EX (VErr (SystemError ENOENT)) st)).
Proof.
  assert (H : missing_in (sample_state "tmp/new")
                (path (self (sample_state "tmp/new"))) ["tmp"] "new").
  { split; [ discriminate | ]. split; [ reflexivity | ].
    eexists. split; reflexivity. }
  split; [ exact H | ].
  exact (proj1 (proj2 (createDir_sync (sample_state "tmp/new")) ["tmp"] "new" H)).
Defined.






Lemma next_fd_positive : forall t, 3 <= next_fd t.
Proof.
  intros t. unfold next_fd.
  assert (2 <= fold_right (fun e m => Z.max (fst e) m) 2 t).
  { induction t as [ | x t IH ]; simpl; lia. }
  lia.
Qed.





(** *** [isFile], [open], [close], [length], [read], [write] on a handle *)

Lemma stat_sync_fail :
  forall st s e,
    isNaN (VStr s) = true -> native_walk s st = (Throw e, st) ->
    stat (VStr s) None true st = (Ret ERROR, set_EX (VErr e) st).
Proof.
  intros st s e Hn H. unfold stat, try_catch_finally. rewrite Hn. cbn [negb].
  unfold statSync_value, statSync. unfold bind at 1 2. rewrite H. reflexivity.
Qed.

Lemma stat_sync_numeric :
  forall st s,
    isNaN (VStr s) = false ->
    stat (VStr s) None true st
    = (Ret ERROR,
       set_EX (VErr (TypeError "The fd argument must be of type number")) st).
Proof.
  intros st s Hn. unfold stat, try_catch_finally. rewrite Hn. reflexivity.
Qed.

Lemma isFile_sync_existing :
  forall st n,
    isNaN (VStr (path (self st))) = true -> path (self st) <> EmptyString ->
    walk (locate st (path (self st))) (root st) = inr n ->
    Handle.isFile None st = (Ret (VBool (stats_isFile (stats_of n))), st).
Proof.
  intros st n Hn Hq Hw. unfold Handle.isFile. unfold bind at 1. cbn [get].
  unfold bind at 1. rewrite (stat_sync_existing st _ n Hn Hq Hw). reflexivity.
Qed.

Lemma isDir_sync_existing :
  forall st n,
    isNaN (VStr (path (self st))) = true -> path (self st) <> EmptyString ->
    walk (locate st (path (self st))) (root st) = inr n ->
    Handle.isDir None st = (Ret (VBool (isDirectory (stats_of n))), st).
Proof.
  intros st n Hn Hq Hw. unfold Handle.isDir. unfold bind at 1. cbn [get].
  unfold bind at 1. rewrite (stat_sync_existing st _ n Hn Hq Hw). reflexivity.
Qed.

Lemma isFile_sync_fail :
  forall st e,
    isNaN (VStr (path (self st))) = true ->
    native_walk (path (self st)) st = (Throw e, st) ->
    Handle.isFile None st = (Ret ERROR, set_EX (VErr e) st).
Proof.
  intros st e Hn H. unfold Handle.isFile. unfold bind at 1. cbn [get].
  unfold bind at 1. rewrite (stat_sync_fail st _ e Hn H). reflexivity.
Qed.


Lemma isFile_sync_numeric :
  forall st,
    isNaN (VStr (path (self st))) = false ->
    Handle.isFile None st
    = (Ret ERROR,
       set_EX (VErr (TypeError "The fd argument must be of type number")) st).
Proof.
  intros st Hn. unfold Handle.isFile. unfold bind at 1. cbn [get].
  unfold bind at 1. rewrite (stat_sync_numeric st _ Hn). reflexivity.
Qed.

Lemma native_walk_with_EX :
  forall st s v o,
    native_walk s st = (o, st) -> native_walk s (set_EX v st) = (o, set_EX v st).
Proof.
  intros st s v o H. unfold native_walk, native_path, bind, get in *.
  destruct (s =? EmptyString)%string.
  - inversion H; subst. reflexivity.
  - change (locate (set_EX v st) s) with (locate st s).
    change (root (set_EX v st)) with (root st).
    destruct (walk (locate st s) (root st)); inversion H; subst; reflexivity.
Qed.

Lemma openFd_sync_fail :
  forall st s e flags,
    first_char_is "r" flags = true ->
    native_walk s st = (Throw e, st) ->
    openFd (Some s) flags 438 None true st = (Ret ERROR, set_EX (VErr e) st).
Proof.
  intros st s e flags Hf H.
  unfold openFd, try_catch_finally, openSync.
  unfold native_walk, native_path, bind, get in *.
  destruct (s =? EmptyString)%string; [ inversion H; subst; reflexivity | ].
  destruct (walk (locate st s) (root st)) as [ e0 | n ]; [ | discriminate ].
  inversion H; subst. rewrite Hf. destruct e0; reflexivity.
Qed.

(** X13.  The callback-less [read] and [write] of a handle do not reach the file:
    they go on to open it only when [isFile()] failed, and then the open
    fails too.  On every handle whose path is not a numeric string they
    return [ERROR], and nothing but the [EX] slot changes. *)
Theorem read_write_sync_return_error :
  forall st buffer data offset length position,
    isNaN (VStr (path (self st))) = true ->
    exists v,
      Handle.read buffer offset length position None st
      = (Ret (ERROR, buffer), set_EX v st)
      /\ Handle.write data offset length position None st
         = (Ret ERROR, set_EX v st)
      /\ truthy v = true.
Proof.
  intros st buffer data offset length position Hn.
  destruct (native_walk_cases st (path (self st))) as [ [e He] | (n & Hne & Hw) ].
  - exists (VErr e). split; [ | split; [ | reflexivity ] ].
    + unfold Handle.read. unfold bind at 1. cbn [get]. unfold bind at 1.
      rewrite (isFile_sync_fail st e Hn He). cbn [is_ERROR ERROR Z.eqb].
      unfold bind at 1.
      rewrite (openFd_sync_fail _ _ e "r+" eq_refl (native_walk_with_EX _ _ _ _ He)).
      reflexivity.
    + unfold Handle.write. unfold bind at 1. cbn [get]. unfold bind at 1.
      rewrite (isFile_sync_fail st e Hn He). cbn [is_ERROR ERROR Z.eqb].
      unfold bind at 1.
      rewrite (openFd_sync_fail _ _ e "r+" eq_refl (native_walk_with_EX _ _ _ _ He)).
      reflexivity.
  - exists (if truthy (EX st) then EX st
            else VErr (ReferenceError "FileExistException")).
    split; [ | split ].
    + unfold Handle.read. unfold bind at 1. cbn [get]. unfold bind at 1.
      rewrite (isFile_sync_existing st n Hn Hne Hw). reflexivity.
    + unfold Handle.write. unfold bind at 1. cbn [get]. unfold bind at 1.
      rewrite (isFile_sync_existing st n Hn Hne Hw). reflexivity.
    + destruct (truthy (EX st)) eqn:E; [ exact E | reflexivity ].
Qed.

Lemma read_write_sync_return_error_witness :
  exists v,
    Handle.write (VBytes [1; 2; 3]) 0 0 0 None (sample_state "/tmp/x/f.txt")
    = (Ret ERROR, set_EX v (sample_state "/tmp/x/f.txt")).
Proof.
  destruct (read_write_sync_return_error (sample_state "/tmp/x/f.txt")
              [] (VBytes [1; 2; 3]) 0 0 0 eq_refl) as (v & _ & H & _).
  exists v. exact H.
Defined.

Lemma isFile_async_dir :
  forall st es (k : callback),
    isNaN (VStr (path (self st))) = true -> path (self st) <> EmptyString ->
    walk (locate st (path (self st))) (root st) = inr (DirNode es) ->
    Handle.isFile (Some k) st
    = bind (k ERROR (VErr (TypeError "NotFileException")))
        (fun _ => ret VUndefined) st.
Proof.
  intros st es k Hn Hq Hw. unfold Handle.isFile. unfold bind at 1. cbn [get].
  unfold bind at 1. rewrite (stat_async_existing st _ _ _ Hn Hq Hw).
  cbn [is_SUCCESS SUCCESS Z.eqb stats_of stats_isFile stats_kind].
  apply bind_undefined_twice.
Qed.

Lemma isFile_async_fail :
  forall st e (k : callback),
    isNaN (VStr (path (self st))) = true ->
    native_walk (path (self st)) st = (Throw e, st) ->
    Handle.isFile (Some k) st
    = bind (k ERROR (VErr e)) (fun _ => ret VUndefined) st.
Proof.
  intros st e k Hn H. unfold Handle.isFile. unfold bind at 1. cbn [get].
  unfold bind at 1. rewrite (stat_async_missing st _ _ _ Hn H).
  cbn [is_SUCCESS ERROR Z.eqb].
  apply bind_undefined_twice.
Qed.

Lemma openFd_async_existing :
  forall st s d flags (k : callback),
    s <> EmptyString ->
    walk (locate st s) (root st) = inr (FileNode d) ->
    has_char "x" flags = false -> first_char_is "w" flags = false ->
    openFd (Some s) flags 438 (Some k) false st
    = bind (k SUCCESS (VNum (next_fd (fds st)))) (fun _ => ret VUndefined)
        (set_fds ((next_fd (fds st), locate st s) :: fds st) st).
Proof.
  intros st s d flags k Hne Hw Hx Hwf.
  unfold openFd, undefined_after, async, openSync, native_path.
  unfold bind at 1 2 3. cbn [get].
  destruct (String.eqb_spec s EmptyString) as [ E | _ ]; [ contradiction | ].
  rewrite Hw, Hx, Hwf. unfold allocate_fd, bind, get, modify, ret, completion,
    handleSuccess, bind, ret.
  destruct (k SUCCESS (VNum (next_fd (fds st))) _) as [ [ [] | e ] st1 ];
    reflexivity.
Qed.

Lemma writeFd_async_bytes :
  forall st d0 p d bytes position (k : callback),
    fd_lookup d0 (fds st) = Some p ->
    walk p (root st) = inr (FileNode d) ->
    0 <= position ->
    writeFd (Some d0) (VBytes bytes) 0 0 position (Some k) false st
    = bind (k SUCCESS (VPair (VBytes bytes) (VNum (Z.of_nat (List.length bytes)))))
        (fun _ => ret VUndefined)
        (set_root (put p (FileNode (overwrite d (Z.to_nat position) bytes)) (root st))
           st).
Proof.
  intros st d0 p d bytes position k Hfd Hw Hpos.
  unfold writeFd, undefined_after, async, writeSync_value, writeSync.
  cbn [Z.eqb buffer_length is_string].
  assert (Hr : (0 <? 0) || (Z.of_nat (List.length bytes) <? 0)
               || (0 + Z.of_nat (List.length bytes) >? Z.of_nat (List.length bytes))
               || (position <? 0) = false).
  { repeat (apply orb_false_iff; split); try reflexivity.
    - apply Z.ltb_ge. lia.
    - destruct (Z.gtb_spec (0 + Z.of_nat (List.length bytes))
                  (Z.of_nat (List.length bytes))); [ lia | reflexivity ].
    - apply Z.ltb_ge. exact Hpos. }
  rewrite Hr. unfold fd_file.
  unfold bind at 1 2 3 4 5. cbn [get]. rewrite Hfd, Hw.
  cbn [ret fst snd skipn Z.to_nat modify]. rewrite Nat2Z.id, firstn_all.
  unfold completion, handleSuccess, bind, ret.
  destruct (k SUCCESS _ _) as [ [ [] | e ] st1 ]; reflexivity.
Qed.

Lemma received_front :
  forall got dst : list Z,
    (List.length got <= List.length dst)%nat ->
    received got dst 0 = (got ++ skipn (List.length got) dst)%list.
Proof.
  intros got dst H. unfold received.
  rewrite arraycopy_nat_window by lia.
  change (Z.to_nat 0) with 0%nat. cbn [firstn skipn app Nat.add].
  rewrite firstn_all. reflexivity.
Qed.

Lemma readFd_async_bytes :
  forall st d0 p d buffer position (k : callback),
    fd_lookup d0 (fds st) = Some p ->
    walk p (root st) = inr (FileNode d) ->
    0 <= position ->
    let bytes := firstn (List.length buffer) (skipn (Z.to_nat position) d) in
    readFd (Some d0) buffer 0 0 position (Some k) false st
    = bind (k SUCCESS
              (VPair (VBytes (received bytes buffer 0))
                 (VNum (Z.of_nat (List.length bytes)))))
        (fun _ => ret (VUndefined, buffer)) st.
Proof.
  intros st d0 p d buffer position k Hfd Hw Hpos bytes.
  unfold readFd, async, readSync.
  cbn [Z.eqb].
  assert (Hr : (0 <? 0) || (Z.of_nat (List.length buffer) <? 0)
               || (0 + Z.of_nat (List.length buffer) >? Z.of_nat (List.length buffer))
               || (position <? 0) = false).
  { repeat (apply orb_false_iff; split); try reflexivity.
    - apply Z.ltb_ge. lia.
    - destruct (Z.gtb_spec (0 + Z.of_nat (List.length buffer))
                  (Z.of_nat (List.length buffer))); [ lia | reflexivity ].
    - apply Z.ltb_ge. exact Hpos. }
  rewrite Hr. unfold fd_file.
  unfold bind at 1 2 3 4. cbn [get]. rewrite Hfd, Hw.
  cbn [ret fst snd]. rewrite Nat2Z.id. fold bytes.
  unfold completion, handleSuccess, bind, ret.
  destruct (k SUCCESS _ _) as [ [ [] | e ] st1 ]; reflexivity.
Qed.

(** X14.  [read] and [write] with a callback, on a plain file.  [write] opens the
    file, writes the bytes at the position asked for and calls back
    [(SUCCESS, [buffer, written])] once; [read] opens it, copies the bytes
    from that position into the front of the buffer, as many as the buffer
    holds, and calls back [(SUCCESS, [buffer, read])] once, leaving the tree
    as it was.  In both the descriptor that was opened stays open, and the
    handle does not hold it: [isOpen()] is still false, so [close()] cannot
    release it. *)
Theorem read_write_async_leave_descriptor_open :
  forall st d bytes position,
    isNaN (VStr (path (self st))) = true -> path (self st) <> EmptyString ->
    walk (locate st (path (self st))) (root st) = inr (FileNode d) ->
    0 <= position ->
    let p := locate st (path (self st)) in
    let st' := snd (Handle.write (VBytes bytes) 0 0 position (Some record_call) st) in
    let got := firstn (List.length bytes) (skipn (Z.to_nat position) d) in
    (fst (Handle.write (VBytes bytes) 0 0 position (Some record_call) st)
     = Ret VUndefined
     /\ root st' = put p (FileNode (overwrite d (Z.to_nat position) bytes)) (root st)
     /\ calls st'
        = (calls st
           ++ [(SUCCESS, VPair (VBytes bytes) (VNum (Z.of_nat (List.length bytes))))])%list
     /\ fds st' = (next_fd (fds st), p) :: fds st
     /\ self st' = self st
     /\ (fd (self st) = 0 -> isOpen (self st') = false))
    /\ Handle.read bytes 0 0 position (Some record_call) st
       = (Ret (VUndefined, bytes),
          set_calls
            (calls st
             ++ [(SUCCESS,
                  VPair (VBytes (got ++ skipn (List.length got) bytes))
                    (VNum (Z.of_nat (List.length got))))])
            (set_fds ((next_fd (fds st), p) :: fds st) st)).
Proof.
  intros st d bytes position Hn Hq Hw Hpos p st' got.
  assert (E : Handle.write (VBytes bytes) 0 0 position (Some record_call) st
              = (Ret VUndefined,
                 set_calls (calls st
                   ++ [(SUCCESS,
                        VPair (VBytes bytes) (VNum (Z.of_nat (List.length bytes))))])
                   (set_root (put p (FileNode (overwrite d (Z.to_nat position) bytes))
                                (root st))
                      (set_fds ((next_fd (fds st), p) :: fds st) st)))).
  { unfold Handle.write. unfold bind at 1. cbn [get]. unfold bind at 1.
    rewrite (isFile_async_file st d _ Hn Hq Hw).
    cbn [is_ERROR SUCCESS Z.eqb negb]. unfold bind at 1 2 3. cbn [get].
    unfold bind at 1.
    rewrite (openFd_async_existing st _ d "r+" _ Hq Hw eq_refl eq_refl).
    cbn [is_SUCCESS SUCCESS Z.eqb Pos.eqb Handle.number_of].
    unfold bind at 1. cbv beta.
    rewrite (writeFd_async_bytes _ (next_fd (fds st)) p d bytes position);
      [ reflexivity | | exact Hw | exact Hpos ].
    cbn [fds set_fds fd_lookup]. rewrite Z.eqb_refl. reflexivity. }
  split.
  - subst st'. rewrite E. cbn [fst snd].
    repeat split. intros Hfd. unfold isOpen. cbn [self set_calls set_root set_fds].
    rewrite Hfd. reflexivity.
  - assert (Hcopy : received got bytes 0
                    = (got ++ skipn (List.length got) bytes)%list).
    { apply received_front. subst got. rewrite length_firstn. lia. }
    unfold Handle.read. unfold bind at 1. cbn [get]. unfold bind at 1.
    rewrite (isFile_async_file st d _ Hn Hq Hw).
    cbn [is_ERROR SUCCESS Z.eqb negb]. unfold bind at 1 2 3. cbn [get].
    unfold bind at 1.
    rewrite (openFd_async_existing st _ d "r+" _ Hq Hw eq_refl eq_refl).
    cbn [is_SUCCESS SUCCESS Z.eqb Pos.eqb Handle.number_of].
    unfold bind at 1. cbv beta.
    rewrite (readFd_async_bytes _ (next_fd (fds st)) p d bytes position);
      [ | | exact Hw | exact Hpos ].
    + fold got. rewrite Hcopy. reflexivity.
    + cbn [fds set_fds fd_lookup]. rewrite Z.eqb_refl. reflexivity.
Qed.

Lemma read_write_async_leave_descriptor_open_witness :
  let st := sample_state "/tmp/x/f.txt" in
  fds (snd (Handle.write (VBytes [74]) 0 0 0 (Some record_call) st))
  = [(3, ["tmp"; "x"; "f.txt"])]
  /\ walk ["tmp"; "x"; "f.txt"]
       (root (snd (Handle.write (VBytes [74]) 0 0 0 (Some record_call) st)))
     = inr (FileNode (74 :: char_codes "ello")).
Proof.
  assert (H0 : 0 <= 0) by lia.
  destruct (read_write_async_leave_descriptor_open (sample_state "/tmp/x/f.txt")
              hello [74] 0 eq_refl ltac:(discriminate) eq_refl H0)
    as ((_ & Hr & _ & Hf & _) & _).
  split; [ exact Hf | ]. rewrite Hr. reflexivity.
Defined.

(** X15.  [open] goes on to [File.openFd] only when [isFile()] answered [true]: on
    a path that is not a plain file (a directory, or nothing at all) it
    opens nothing and creates nothing, whatever the flags.  Without a
    callback it returns [ERROR] and only the [EX] slot changes; with a
    callback (and a path that is not a numeric string) the callback hears
    [(ERROR, reason)] once and nothing else changes. *)
Theorem open_refuses_what_is_not_a_file :
  forall st flags,
    (forall d, walk (locate st (path (self st))) (root st) <> inr (FileNode d)) ->
    (exists v, Handle.open flags None st = (Ret ERROR, set_EX v st))
    /\ (isNaN (VStr (path (self st))) = true ->
        exists reason,
          Handle.open flags (Some record_call) st
          = (Ret VUndefined, set_calls (calls st ++ [(ERROR, VErr reason)]) st)).
Proof.
  intros st flags Hnot. split.
  - destruct (isNaN (VStr (path (self st)))) eqn:Hn.
    + destruct (native_walk_cases st (path (self st)))
        as [ [e He] | (n & Hne & Hw) ].
      * exists (VErr e). unfold Handle.open. unfold bind at 1. cbn [get].
        unfold bind at 1. rewrite (isFile_sync_fail st e Hn He). reflexivity.
      * destruct n as [ d | es ]; [ contradiction (Hnot d) | ].
        eexists. unfold Handle.open. unfold bind at 1. cbn [get].
        unfold bind at 1. rewrite (isFile_sync_existing st _ Hn Hne Hw).
        reflexivity.
    + eexists. unfold Handle.open. unfold bind at 1. cbn [get].
      unfold bind at 1. rewrite (isFile_sync_numeric st Hn). reflexivity.
  - intros Hn.
    destruct (native_walk_cases st (path (self st)))
      as [ [e He] | (n & Hne & Hw) ].
    + exists e. unfold Handle.open. unfold bind at 1. cbn [get].
      unfold bind at 1. rewrite (isFile_async_fail st e _ Hn He). reflexivity.
    + destruct n as [ d | es ]; [ contradiction (Hnot d) | ].
      exists (TypeError "NotFileException").
      unfold Handle.open. unfold bind at 1. cbn [get].
      unfold bind at 1. rewrite (isFile_async_dir st es _ Hn Hne Hw). reflexivity.
Qed.

Lemma open_refuses_what_is_not_a_file_witness :
  exists v,
    Handle.open "w" None (sample_state "tmp/new.txt")
    = (Ret ERROR, set_EX v (sample_state "tmp/new.txt")).
Proof.
  assert (H : forall d,
             walk (locate (sample_state "tmp/new.txt")
                     (path (self (sample_state "tmp/new.txt"))))
               (root (sample_state "tmp/new.txt")) <> inr (FileNode d))
    by (intros d; discriminate).
  exact (proj1 (open_refuses_what_is_not_a_file (sample_state "tmp/new.txt") "w" H)).
Defined.

Lemma openFd_sync_existing :
  forall st s d flags,
    s <> EmptyString ->
    walk (locate st s) (root st) = inr (FileNode d) ->
    has_char "x" flags = false ->
    openFd (Some s) flags 438 None true st
    = (Ret (VNum (next_fd (fds st))),
       set_fds ((next_fd (fds st), locate st s) :: fds st)
         (if first_char_is "w" flags
          then set_root (put (locate st s) (FileNode []) (root st)) st
          else st)).
Proof.
  intros st s d flags Hne Hw Hx.
  unfold openFd, try_catch_finally, openSync, native_path.
  unfold bind at 1 2 3. cbn [get].
  destruct (String.eqb_spec s EmptyString) as [ E | _ ]; [ contradiction | ].
  rewrite Hw, Hx. destruct (first_char_is "w" flags); reflexivity.
Qed.

Lemma file_eta :
  forall f, fd f = 0 -> set_fd 0 f = f.
Proof. intros [p u w d] H. simpl in H. subst d. reflexivity. Qed.

(** X16.  [open()] then [close()] on a plain file, without callbacks.  [open]
    returns the descriptor, which the handle holds from then on
    ([isOpen()] is true); with a flag that starts with [w] the file is
    emptied, otherwise the tree is as it was.  [close()] then returns
    [SUCCESS], the table of open descriptors is what it was before [open], and
    so is the handle. *)
Theorem open_then_close :
  forall st d flags,
    isNaN (VStr (path (self st))) = true -> path (self st) <> EmptyString ->
    walk (locate st (path (self st))) (root st) = inr (FileNode d) ->
    has_char "x" flags = false ->
    fd (self st) = 0 ->
    let p := locate st (path (self st)) in
    let st1 := snd (Handle.open flags None st) in
    let st2 := snd (Handle.close None st1) in
    fst (Handle.open flags None st) = Ret (VNum (next_fd (fds st)))
    /\ isOpen (self st1) = true
    /\ fds st1 = (next_fd (fds st), p) :: fds st
    /\ root st1
       = (if first_char_is "w" flags then put p (FileNode []) (root st)
          else root st)
    /\ fst (Handle.close None st1) = Ret SUCCESS
    /\ fds st2 = fds st /\ self st2 = self st /\ isOpen (self st2) = false
    /\ root st2 = root st1 /\ EX st2 = EX st.
Proof.
  intros st d flags Hn Hq Hw Hx Hfd p st1 st2.
  pose proof (next_fd_positive (fds st)) as Hpos.
  assert (E1 : Handle.open flags None st
               = (Ret (VNum (next_fd (fds st))),
                  set_self (set_fd (next_fd (fds st)) (self st))
                    (set_fds ((next_fd (fds st), p) :: fds st)
                       (if first_char_is "w" flags
                        then set_root (put p (FileNode []) (root st)) st
                        else st)))).
  { unfold Handle.open. unfold bind at 1. cbn [get]. unfold bind at 1.
    rewrite (isFile_sync_existing st _ Hn Hq Hw).
    cbn [stats_of stats_isFile stats_kind truthy]. unfold bind at 1.
    rewrite (openFd_sync_existing st _ d flags Hq Hw Hx).
    cbn [is_ERROR Handle.number_of].
    destruct (Z.eqb_spec (next_fd (fds st)) 0); [ lia | ].
    destruct (first_char_is "w" flags); reflexivity. }
  assert (Hopen : fd (self st1) = next_fd (fds st)).
  { subst st1. rewrite E1. destruct (first_char_is "w" flags); reflexivity. }
  assert (Hfds : fds st1 = (next_fd (fds st), p) :: fds st).
  { subst st1. rewrite E1. destruct (first_char_is "w" flags); reflexivity. }
  assert (E2 : Handle.close None st1
               = (Ret SUCCESS,
                  set_self (set_fd 0 (self st1))
                    (set_fds (fd_remove (fd (self st1)) (fds st1)) st1))).
  { apply (close_sync_open st1 p).
    - rewrite Hopen. lia.
    - rewrite Hopen, Hfds. simpl. rewrite Z.eqb_refl. reflexivity. }
  subst st2. rewrite E2. cbn [fst snd].
  split; [ rewrite E1; reflexivity | ].
  split; [ unfold isOpen; rewrite Hopen;
           destruct (Z.eqb_spec (next_fd (fds st)) 0); [ lia | reflexivity ] | ].
  split; [ exact Hfds | ].
  split; [ subst st1; rewrite E1; destruct (first_char_is "w" flags); reflexivity | ].
  split; [ reflexivity | ].
  split; [ cbn [fds set_self set_fds]; rewrite Hopen, Hfds; simpl;
           rewrite Z.eqb_refl; reflexivity | ].
  assert (Hself : set_fd 0 (self st1) = self st).
  { subst st1. rewrite E1. cbn [snd].
    rewrite <- (file_eta (self st) Hfd) at 2.
    destruct (first_char_is "w" flags); reflexivity. }
  split; [ cbn [self set_self]; exact Hself | ].
  split; [ cbn [self set_self]; rewrite Hself; unfold isOpen; rewrite Hfd;
           reflexivity | ].
  split; [ reflexivity | ].
  subst st1. rewrite E1. destruct (first_char_is "w" flags); reflexivity.
Qed.

Lemma open_then_close_witness :
  let st := sample_state "/tmp/x/f.txt" in
  fst (Handle.open "r" None st) = Ret (VNum 3)
  /\ snd (Handle.close None (snd (Handle.open "r" None st))) = st.
Proof.
  destruct (open_then_close (sample_state "/tmp/x/f.txt") hello "r"
              eq_refl ltac:(discriminate) eq_refl eq_refl eq_refl)
    as (H1 & _).
  split; [ exact H1 | reflexivity ].
Defined.

Lemma length_sync_file :
  forall st d,
    isNaN (VStr (path (self st))) = true -> path (self st) <> EmptyString ->
    walk (locate st (path (self st))) (root st) = inr (FileNode d) ->
    Handle.length None st = (Ret (VNum (Z.of_nat (List.length d))), st).
Proof.
  intros st d Hn Hq Hw. unfold Handle.length. unfold bind at 1. cbn [get].
  unfold bind at 1. rewrite (stat_sync_existing st _ _ Hn Hq Hw). reflexivity.
Qed.

(** X17.  A result of zero is the [ERROR] code.  [length()] of an empty file
    returns what it returns for a missing file, except that the [EX] slot is
    left alone; and the synchronous [readFd] at or past the end of the file
    returns [ERROR] for the zero bytes it read, with the buffer and the [EX]
    slot as they were. *)
Theorem zero_results_read_as_error :
  (forall st,
      isNaN (VStr (path (self st))) = true -> path (self st) <> EmptyString ->
      walk (locate st (path (self st))) (root st) = inr (FileNode []) ->
      Handle.length None st = (Ret ERROR, st))
  /\ (forall st e,
        isNaN (VStr (path (self st))) = true ->
        native_walk (path (self st)) st = (Throw e, st) ->
        Handle.length None st = (Ret ERROR, set_EX (VErr e) st))
  /\ (forall st d0 p data buffer position,
        fd_lookup d0 (fds st) = Some p ->
        walk p (root st) = inr (FileNode data) ->
        Z.of_nat (List.length data) <= position ->
        readFd (Some d0) buffer 0 0 position None true st
        = (Ret (ERROR, buffer), st)).
Proof.
  split; [ | split ].
  - intros st Hn Hq Hw. apply (length_sync_file st [] Hn Hq Hw).
  - intros st e Hn He. unfold Handle.length. unfold bind at 1. cbn [get].
    unfold bind at 1. rewrite (stat_sync_fail st _ e Hn He). reflexivity.
  - intros st d0 p data buffer position Hfd Hw Hpos.
    unfold readFd, readSync. cbn [Z.eqb].
    assert (Hr : (0 <? 0) || (Z.of_nat (List.length buffer) <? 0)
                 || (0 + Z.of_nat (List.length buffer) >? Z.of_nat (List.length buffer))
                 || (position <? 0) = false).
    { repeat (apply orb_false_iff; split); try reflexivity.
      - apply Z.ltb_ge. lia.
      - destruct (Z.gtb_spec (0 + Z.of_nat (List.length buffer))
                    (Z.of_nat (List.length buffer))); [ lia | reflexivity ].
      - apply Z.ltb_ge. lia. }
    rewrite Hr. unfold fd_file. unfold bind at 1 2. cbn [get]. rewrite Hfd, Hw.
    cbn [ret snd fst]. rewrite skipn_all2 by lia. rewrite firstn_nil.
    reflexivity.
Qed.

Lemma zero_results_read_as_error_witness :
  let st := set_root (DirNode [ ("empty", FileNode []) ]) (sample_state "empty") in
  Handle.length None st = (Ret ERROR, st).
Proof.
  exact (proj1 zero_results_read_as_error
           (set_root (DirNode [ ("empty", FileNode []) ]) (sample_state "empty"))
           eq_refl ltac:(discriminate) eq_refl).
Defined.

(** *** [setContent], [getContent], [list] and [FilenameFilter] *)

Lemma isDir_async_existing :
  forall st n (k : callback),
    isNaN (VStr (path (self st))) = true -> path (self st) <> EmptyString ->
    walk (locate st (path (self st))) (root st) = inr n ->
    Handle.isDir (Some k) st
    = bind (if isDirectory (stats_of n) then k SUCCESS VUndefined
            else k ERROR (VErr (TypeError "NotDirectoryException")))
        (fun _ => ret VUndefined) st.
Proof.
  intros st n k Hn Hq Hw. unfold Handle.isDir. unfold bind at 1. cbn [get].
  unfold bind at 1. rewrite (stat_async_existing st _ _ _ Hn Hq Hw).
  cbn [is_SUCCESS SUCCESS Z.eqb].
  apply bind_undefined_twice.
Qed.


Lemma read_file_sync :
  forall st q d,
    q <> EmptyString -> walk (locate st q) (root st) = inr (FileNode d) ->
    readFileOrDir (Some q) FILE None true st = (Ret (VStr (utf8_text d)), st).
Proof.
  intros st q d Hq Hw. unfold readFileOrDir, try_catch_finally, readFileSync.
  cbn [FILE DIR Z.eqb Pos.eqb]. unfold bind at 1 2.
  rewrite (native_walk_accessible st q _ Hq Hw). reflexivity.
Qed.

Lemma read_file_sync_dir :
  forall st q es,
    q <> EmptyString -> walk (locate st q) (root st) = inr (DirNode es) ->
    readFileOrDir (Some q) FILE None true st
    = (Ret ERROR, set_EX (VErr (SystemError EISDIR)) st).
Proof.
  intros st q es Hq Hw. unfold readFileOrDir, try_catch_finally, readFileSync.
  cbn [FILE DIR Z.eqb Pos.eqb]. unfold bind at 1 2.
  rewrite (native_walk_accessible st q _ Hq Hw). reflexivity.
Qed.

Lemma read_file_async :
  forall st q d (k : callback),
    q <> EmptyString -> walk (locate st q) (root st) = inr (FileNode d) ->
    readFileOrDir (Some q) FILE (Some k) false st
    = bind (k SUCCESS (VBytes d)) (fun _ => ret VUndefined) st.
Proof.
  intros st q d k Hq Hw.
  unfold readFileOrDir, undefined_after, async, readFileSync.
  cbn [FILE DIR Z.eqb Pos.eqb]. unfold bind at 1 2.
  rewrite (native_walk_accessible st q _ Hq Hw).
  unfold completion, handleSuccess, bind, ret.
  destruct (k SUCCESS (VBytes d) st) as [ [ [] | e ] st1 ]; reflexivity.
Qed.

Lemma utf8_write_ascii :
  forall d, Forall (fun b => 0 <= b <= 127) d -> utf8_write Idle d = (Idle, d).
Proof.
  induction d as [ | b r IH ]; intros H; [ reflexivity | ].
  inversion H as [ | b' r' Hb Hr ]; subst.
  cbn [utf8_write utf8_step]. unfold utf8_lead.
  destruct (Z.leb_spec b 127) as [ _ | Hgt ]; [ | lia ].
  cbn [fst snd]. rewrite (IH Hr). reflexivity.
Qed.

Lemma utf8_bytes_ascii :
  forall d, Forall (fun b => 0 <= b <= 127) d -> flat_map utf8_bytes d = d.
Proof.
  induction d as [ | b r IH ]; intros H; [ reflexivity | ].
  inversion H as [ | b' r' Hb Hr ]; subst.
  cbn [flat_map]. rewrite (IH Hr). unfold utf8_bytes.
  destruct (Z.ltb_spec b 128) as [ _ | Hge ]; [ reflexivity | lia ].
Qed.

Lemma utf8_text_ascii :
  forall d, Forall (fun b => 0 <= b <= 127) d -> utf8_text d = string_of_codes d.
Proof.
  intros d H. unfold utf8_text, utf8_decode.
  rewrite (utf8_write_ascii d H). cbn [fst snd utf8_end].
  rewrite app_nil_r, (utf8_bytes_ascii d H). reflexivity.
Qed.

Lemma getContent_text :
  forall st d,
    isNaN (VStr (path (self st))) = true -> path (self st) <> EmptyString ->
    walk (locate st (path (self st))) (root st) = inr (FileNode d) ->
    Handle.getContent None st = (Ret (VStr (utf8_text d)), st)
    /\ Handle.getContent (Some record_call) st
       = (Ret VUndefined, set_calls (calls st ++ [(SUCCESS, VBytes d)]) st).
Proof.
  intros st d Hn Hq Hw. split.
  - unfold Handle.getContent. unfold bind at 1. cbn [get]. unfold bind at 1.
    rewrite (isFile_sync_existing st _ Hn Hq Hw).
    cbn [is_ERROR negb]. apply (read_file_sync st _ d Hq Hw).
  - unfold Handle.getContent. unfold bind at 1. cbn [get]. unfold bind at 1.
    rewrite (isFile_async_file st d _ Hn Hq Hw).
    cbn [is_SUCCESS SUCCESS Z.eqb Pos.eqb]. unfold bind at 1 2 3. cbn [get].
    rewrite (read_file_async st _ d _ Hq Hw). reflexivity.
Qed.

(** X18.  [getContent] on a handle whose path is not a numeric string.  On a plain
    file the callback-less form returns the content as a string, the bytes
    decoded as UTF-8 (for an ASCII file: the characters whose codes are the
    bytes), while the form with a callback hands over the bytes themselves,
    as a buffer, with [SUCCESS]; nothing changes.  On a directory the
    callback hears [NotFileException]; without a callback [isFile()] answers
    [false], which is not [ERROR], so the read is tried and fails with
    [EISDIR]. *)
Theorem getContent_gives_text_or_bytes :
  forall st,
    isNaN (VStr (path (self st))) = true -> path (self st) <> EmptyString ->
    (forall d,
        walk (locate st (path (self st))) (root st) = inr (FileNode d) ->
        Handle.getContent None st = (Ret (VStr (utf8_text d)), st)
        /\ (Forall (fun b => 0 <= b <= 127) d -> utf8_text d = string_of_codes d)
        /\ Handle.getContent (Some record_call) st
           = (Ret VUndefined, set_calls (calls st ++ [(SUCCESS, VBytes d)]) st))
    /\ (forall es,
          walk (locate st (path (self st))) (root st) = inr (DirNode es) ->
          Handle.getContent None st
          = (Ret ERROR, set_EX (VErr (SystemError EISDIR)) st)
          /\ Handle.getContent (Some record_call) st
             = (Ret VUndefined,
                set_calls (calls st ++ [(ERROR, VErr (TypeError "NotFileException"))])
                  st)).
Proof.
  intros st Hn Hq. split.
  - intros d Hw. destruct (getContent_text st d Hn Hq Hw) as [H1 H2].
    split; [ exact H1 | ]. split; [ apply utf8_text_ascii | exact H2 ].
  - intros es Hw. split.
    + unfold Handle.getContent. unfold bind at 1. cbn [get]. unfold bind at 1.
      rewrite (isFile_sync_existing st _ Hn Hq Hw).
      cbn [is_ERROR negb]. apply (read_file_sync_dir st _ es Hq Hw).
    + unfold Handle.getContent. unfold bind at 1. cbn [get]. unfold bind at 1.
      rewrite (isFile_async_dir st es _ Hn Hq Hw). reflexivity.
Qed.

Lemma getContent_gives_text_or_bytes_witness :
  Handle.getContent None (sample_state "/tmp/x/f.txt")
  = (Ret (VStr "hello"), sample_state "/tmp/x/f.txt")
  /\ Handle.getContent (Some record_call) (sample_state "/tmp/x/f.txt")
     = (Ret VUndefined,
        set_calls [(SUCCESS, VBytes hello)] (sample_state "/tmp/x/f.txt")).
Proof.
  destruct (proj1 (getContent_gives_text_or_bytes (sample_state "/tmp/x/f.txt")
                     eq_refl ltac:(discriminate)) hello eq_refl)
    as (H1 & _ & H2).
  split; [ exact H1 | exact H2 ].
Defined.



Lemma filter_names_pure :
  forall (g : File -> string -> value) names st,
    Handle.filter_names (fun dir name => ret (g dir name)) names st
    = (Ret (List.filter (fun name => truthy (g (self st) name)) names), st).
Proof.
  intros g names st. induction names as [ | x r IH ]; [ reflexivity | ].
  cbn [Handle.filter_names List.filter]. unfold bind at 1. cbn [get].
  unfold bind at 1. cbn [ret]. unfold bind at 1. rewrite IH.
  destruct (truthy (g (self st) x)); reflexivity.
Qed.

Lemma readdir_async_dir :
  forall st q es (k : callback),
    q <> EmptyString -> walk (locate st q) (root st) = inr (DirNode es) ->
    readFileOrDir (Some q) DIR (Some k) false st
    = bind (k SUCCESS (VNames (map fst es))) (fun _ => ret VUndefined) st.
Proof.
  intros st q es k Hq Hw.
  unfold readFileOrDir, undefined_after, async, readdirSync.
  cbn [DIR Z.eqb Pos.eqb]. unfold bind at 1 2.
  rewrite (native_walk_accessible st q _ Hq Hw).
  unfold completion, handleSuccess, bind, ret.
  destruct (k SUCCESS _ st) as [ [ [] | e ] st1 ]; reflexivity.
Qed.

Lemma readdir_sync_file :
  forall st q d,
    q <> EmptyString -> walk (locate st q) (root st) = inr (FileNode d) ->
    readFileOrDir (Some q) DIR None true st
    = (Ret ERROR, set_EX (VErr (SystemError ENOTDIR)) st).
Proof.
  intros st q d Hq Hw. unfold readFileOrDir, try_catch_finally, readdirSync.
  cbn [DIR Z.eqb Pos.eqb]. unfold bind at 1 2.
  rewrite (native_walk_accessible st q _ Hq Hw). reflexivity.
Qed.

Lemma list_sync_dir :
  forall st es (g : File -> string -> value),
    isNaN (VStr (path (self st))) = true -> path (self st) <> EmptyString ->
    walk (locate st (path (self st))) (root st) = inr (DirNode es) ->
    Handle.list_ None None st = (Ret (VNames (map fst es)), st)
    /\ Handle.list_ (Some (fun dir name => ret (g dir name))) None st
       = (Ret (VNames (List.filter (fun name => truthy (g (self st) name))
                         (map fst es))), st).
Proof.
  intros st es g Hn Hq Hw. split.
  - unfold Handle.list_. unfold bind at 1. cbn [get]. unfold bind at 1.
    rewrite (isDir_sync_existing st _ Hn Hq Hw). cbn [is_ERROR negb].
    unfold bind at 1. rewrite (readdir_sync_dir st _ es Hq Hw). reflexivity.
  - unfold Handle.list_. unfold bind at 1. cbn [get]. unfold bind at 1.
    rewrite (isDir_sync_existing st _ Hn Hq Hw). cbn [is_ERROR negb].
    unfold bind at 1. rewrite (readdir_sync_dir st _ es Hq Hw).
    cbn [is_ERROR negb Handle.accepted]. unfold bind at 1.
    rewrite filter_names_pure. reflexivity.
Qed.

Lemma list_async_dir :
  forall st es (g : File -> string -> value) (k : callback),
    isNaN (VStr (path (self st))) = true -> path (self st) <> EmptyString ->
    walk (locate st (path (self st))) (root st) = inr (DirNode es) ->
    Handle.list_ (Some (fun dir name => ret (g dir name))) (Some k) st
    = bind (k SUCCESS
              (VNames (List.filter (fun name => truthy (g (self st) name))
                         (map fst es))))
        (fun _ => ret VUndefined) st.
Proof.
  intros st es g k Hn Hq Hw.
  unfold Handle.list_. unfold bind at 1. cbn [get]. unfold bind at 1.
  rewrite (isDir_async_existing st _ _ Hn Hq Hw).
  cbn [stats_of isDirectory stats_kind is_SUCCESS SUCCESS Z.eqb Pos.eqb].
  unfold bind at 1 2 3. cbn [get]. unfold bind at 1.
  rewrite (readdir_async_dir st _ es _ Hq Hw).
  cbn [is_SUCCESS SUCCESS Z.eqb Pos.eqb Handle.accepted].
  unfold bind at 1 2 3. rewrite filter_names_pure. unfold ret at 1.
  unfold bind, ret.
  destruct (k SUCCESS _ st) as [ [ [] | e ] st1 ]; reflexivity.
Qed.

(** X20.  [list] on a handle whose path is not a numeric string.  On a directory
    it gives the names of its entries, in the order of the directory, and
    with a filter those for which [accept(this, name)] is truthy; nothing
    changes.  On a plain file [isDir()] answers [false], which is not
    [ERROR], so the directory read is tried and [list] returns [ERROR] with
    [ENOTDIR]. *)
Theorem list_gives_accepted_names :
  forall st (g : File -> string -> value),
    isNaN (VStr (path (self st))) = true -> path (self st) <> EmptyString ->
    (forall es,
        walk (locate st (path (self st))) (root st) = inr (DirNode es) ->
        Handle.list_ None None st = (Ret (VNames (map fst es)), st)
        /\ Handle.list_ (Some (fun dir name => ret (g dir name))) None st
           = (Ret (VNames (List.filter (fun name => truthy (g (self st) name))
                             (map fst es))), st)
        /\ Handle.list_ (Some (fun dir name => ret (g dir name)))
             (Some record_call) st
           = (Ret VUndefined,
              set_calls
                (calls st
                 ++ [(SUCCESS,
                      VNames (List.filter (fun name => truthy (g (self st) name))
                                (map fst es)))])
                st))
    /\ (forall d,
          walk (locate st (path (self st))) (root st) = inr (FileNode d) ->
          Handle.list_ None None st
          = (Ret ERROR, set_EX (VErr (SystemError ENOTDIR)) st)).
Proof.
  intros st g Hn Hq. split.
  - intros es Hw. destruct (list_sync_dir st es g Hn Hq Hw) as [H1 H2].
    split; [ exact H1 | ]. split; [ exact H2 | ].
    rewrite (list_async_dir st es g _ Hn Hq Hw). reflexivity.
  - intros d Hw. unfold Handle.list_. unfold bind at 1. cbn [get].
    unfold bind at 1. rewrite (isDir_sync_existing st _ Hn Hq Hw).
    cbn [is_ERROR negb]. unfold bind at 1.
    rewrite (readdir_sync_file st _ d Hq Hw). reflexivity.
Qed.

Lemma list_gives_accepted_names_witness :
  Handle.list_
    (Some (fun dir name => ret (VBool (String.eqb name "h")))) None
    (sample_state "e")
  = (Ret (VNames ["h"]), sample_state "e").
Proof.
  exact (proj1 (proj2 (proj1 (list_gives_accepted_names (sample_state "e")
                                (fun _ name => VBool (String.eqb name "h"))
                                eq_refl ltac:(discriminate))
                         [ ("g", DirNode []); ("h", FileNode [1; 2]) ] eq_refl))).
Defined.

(** X21.  [FilenameFilter.filter] on a directory emits one [filter] event, in
    either mode: [(SUCCESS, names)] with the names that [accept] lets
    through.  With the [accept] of the class, which returns nothing, no name
    gets through: the list is empty whatever the directory holds. *)
Theorem filter_emits_accepted_names :
  forall st es (g : File -> string -> value) sync,
    isNaN (VStr (path (self st))) = true -> path (self st) <> EmptyString ->
    walk (locate st (path (self st))) (root st) = inr (DirNode es) ->
    Filter.filter (Some (fun dir name => ret (g dir name))) record_call sync st
    = (Ret tt,
       set_calls
         (calls st
          ++ [(SUCCESS,
               VNames (List.filter (fun name => truthy (g (self st) name))
                         (map fst es)))])
         st)
    /\ Filter.filter None record_call sync st
       = (Ret tt, set_calls (calls st ++ [(SUCCESS, VNames [])]) st).
Proof.
  intros st es g sync Hn Hq Hw.
  assert (Hnone : List.filter (fun name => truthy VUndefined) (map fst es) = []).
  { induction (map fst es) as [ | x r IH ]; [ reflexivity | exact IH ]. }
  assert (Hgen : forall g0 : File -> string -> value,
             Filter.filter (Some (fun dir name => ret (g0 dir name)))
               record_call sync st
             = (Ret tt,
                set_calls
                  (calls st
                   ++ [(SUCCESS,
                        VNames (List.filter (fun name => truthy (g0 (self st) name))
                                  (map fst es)))])
                  st)).
  { intros g0. unfold Filter.filter. cbn [Filter.accept_of].
    destruct sync; cbn [negb].
    - unfold bind at 1.
      rewrite (list_async_dir st es g0 _ Hn Hq Hw). reflexivity.
    - unfold bind at 1.
      rewrite (proj2 (list_sync_dir st es g0 Hn Hq Hw)). reflexivity. }
  split; [ apply Hgen | ].
  rewrite <- Hnone. apply (Hgen (fun _ _ => VUndefined)).
Qed.

Lemma filter_emits_accepted_names_witness :
  Filter.filter None record_call false (sample_state "e")
  = (Ret tt, set_calls [(SUCCESS, VNames [])] (sample_state "e")).
Proof.
  exact (proj2 (filter_emits_accepted_names (sample_state "e")
                  [ ("g", DirNode []); ("h", FileNode [1; 2]) ]
                  (fun _ _ => VNull) false eq_refl ltac:(discriminate) eq_refl)).
Defined.

(** *** [safeDestroy], [exec], [createDirTmp] *)





(** X23.  [exec] does not run what is not there: when the path of the handle
    names nothing, the runtime is not asked to run a program.  Without a
    callback [exec] returns [ERROR] with the error of the probe in the [EX]
    slot; with one, the callback hears that error once. *)
Theorem exec_needs_an_existing_file :
  forall (run : string -> list string -> M (list Z * list Z)) st args e,
    native_walk (path (self st)) st = (Throw e, st) ->
    Handle.exec run args None st = (Ret ERROR, set_EX (VErr e) st)
    /\ Handle.exec run args (Some record_call) st
       = (Ret VUndefined, set_calls (calls st ++ [(ERROR, VErr e)]) st).
Proof.
  intros run st args e He. split.
  - unfold Handle.exec, Handle.canExecute, Handle.can.
    unfold bind at 1. cbn [get]. unfold bind at 1 2. cbn [get].
    rewrite (access_sync_fail st _ X_OK e He). reflexivity.
  - unfold Handle.exec, Handle.canExecute, Handle.can.
    unfold bind at 1. cbn [get]. unfold bind at 1 2. cbn [get].
    unfold bind at 1. rewrite (access_async_fail st _ X_OK e _ He). reflexivity.
Qed.

Lemma exec_needs_an_existing_file_witness :
  Handle.exec (fun _ _ => ret ([1], [])) [] None (sample_state "tmp/run.sh")
  = (Ret ERROR, set_EX (VErr (SystemError ENOENT)) (sample_state "tmp/run.sh")).
Proof.
  exact (proj1 (exec_needs_an_existing_file (fun _ _ => ret ([1], []))
                  (sample_state "tmp/run.sh") [] (SystemError ENOENT) eq_refl)).
Defined.



(** *** The convention for results, primitive by primitive *)

Lemma preserves_ret : forall {A B} (f : state -> B) (a : A), preserves f (ret a).
Proof. intros A B f a st. reflexivity. Qed.

Lemma preserves_throw :
  forall {A B} (f : state -> B) e, preserves f (@throw A e).
Proof. intros A B f e st. reflexivity. Qed.

Lemma preserves_get : forall {B} (f : state -> B), preserves f get.
Proof. intros B f st. reflexivity. Qed.

Lemma preserves_bind :
  forall {A C B} (f : state -> B) (m : M A) (k : A -> M C),
    preserves f m -> (forall a, preserves f (k a)) -> preserves f (bind m k).
Proof.
  intros A C B f m k Hm Hk st. unfold bind. specialize (Hm st).
  destruct (m st) as [ [ a | e ] st1 ]; simpl in *.
  - rewrite Hk. exact Hm.
  - exact Hm.
Qed.

Lemma preserves_try_catch :
  forall {A B} (f : state -> B) (m : M A) h,
    preserves f m -> (forall e, preserves f (h e)) -> preserves f (try_catch m h).
Proof.
  intros A B f m h Hm Hh st. unfold try_catch. specialize (Hm st).
  destruct (m st) as [ [ a | e ] st1 ]; simpl in *.
  - exact Hm.
  - rewrite Hh. exact Hm.
Qed.

Lemma preserves_modify :
  forall {B} (f : state -> B) g,
    (forall st, f (g st) = f st) -> preserves f (modify g).
Proof. intros B f g H st. apply H. Qed.

Lemma preserves_native_path :
  forall {B} (f : state -> B) s, preserves f (native_path s).
Proof.
  intros B f s st. unfold native_path. destruct (s =? EmptyString)%string; reflexivity.
Qed.

(** The native calls write neither the record of calls nor the [EX] slot. *)
Ltac native_frame_step :=
  first
    [ assumption
    | lazymatch goal with
      | |- preserves _ (if ?b then _ else _) => destruct b
      | |- preserves _ (match ?x with _ => _ end) => destruct x
      | |- preserves _ (ret _) => apply preserves_ret
      | |- preserves _ (throw _) => apply preserves_throw
      | |- preserves _ get => apply preserves_get
      | |- preserves _ (bind _ _) => apply preserves_bind
      | |- preserves _ (try_catch _ _) => apply preserves_try_catch
      | |- preserves _ (modify _) => apply preserves_modify; intros; reflexivity
      | |- preserves _ (native_path _) => apply preserves_native_path
      | |- preserves _ _ =>
          progress unfold accessSync, statSync, statSync_value, fstatSync,
            native_walk, openSync, create_entry, allocate_fd, closeSync,
            mkdirSync, rmdirSync, unlinkSync, readdirSync, readFileSync
      | |- forall _, _ => intro
      end ].

Ltac native_frame := repeat native_frame_step.

Lemma natives_preserve :
  forall {B} (f : state -> B),
    (forall r st, f (set_root r st) = f st) ->
    (forall t st, f (set_fds t st) = f st) ->
    (forall s m, preserves f (accessSync s m))
    /\ (forall s m, preserves f (mkdirSync s m))
    /\ (forall d, preserves f (closeSync d))
    /\ (forall s fl m, preserves f (openSync s fl m))
    /\ (forall s, preserves f (readdirSync s))
    /\ (forall s, preserves f (readFileSync s))
    /\ (forall s, preserves f (rmdirSync s))
    /\ (forall s, preserves f (unlinkSync s))
    /\ (forall v, preserves f (statSync_value v))
    /\ (forall v, preserves f (fstatSync v)).
Proof.
  intros B f Hroot Hfds.
  assert (Hm1 : forall r, preserves f (modify (set_root r)))
    by (intros r st; apply Hroot).
  assert (Hm2 : forall t, preserves f (modify (set_fds t)))
    by (intros t st; apply Hfds).
  repeat split; native_frame; try apply Hm1; try apply Hm2.
Qed.

Lemma allocate_fd_result :
  forall p st d st1, allocate_fd p st = (Ret d, st1) -> 3 <= d.
Proof.
  intros p st d st1 H. unfold allocate_fd, bind, get, modify, ret in H.
  inversion H; subst. apply next_fd_positive.
Qed.

Lemma openSync_result :
  forall s flags mode st d st1, openSync s flags mode st = (Ret d, st1) -> 3 <= d.
Proof.
  intros s flags mode st d st1 H. unfold openSync, native_path in H.
  unfold bind at 1 2 in H. cbn [get] in H.
  destruct (s =? EmptyString)%string; [ discriminate | ].
  destruct (walk (locate st s) (root st)) as [ e | [ data | es ] ].
  - destruct e; try discriminate.
    destruct (first_char_is "r" flags); [ discriminate | ].
    unfold bind at 1 in H.
    destruct (create_entry s (FileNode []) st) as [ [ [] | e ] st2 ];
      [ | discriminate ].
    apply (allocate_fd_result _ _ _ _ H).
  - destruct (has_char "x" flags); [ discriminate | ].
    destruct (first_char_is "w" flags).
    + unfold bind at 1 in H. cbn [modify] in H.
      apply (allocate_fd_result _ _ _ _ H).
    + apply (allocate_fd_result _ _ _ _ H).
  - destruct (first_char_is "r" flags && negb (has_char "+" flags));
      [ | discriminate ].
    apply (allocate_fd_result _ _ _ _ H).
Qed.

Lemma sync_convention :
  forall (body : M value) (wc : bool) st,
    preserves calls body -> preserves EX body ->
    (forall v st1, body st = (Ret v, st1) -> is_ERROR v = false) ->
    reported_sync wc st
      (try_catch_finally body
         (fun ex => handleError (VErr ex)
                      (if wc then Some record_call else None)) st).
Proof.
  intros body wc st Hc He Hv. unfold reported_sync, try_catch_finally.
  specialize (Hc st). specialize (He st).
  destruct (body st) as [ [ v | e ] st1 ] eqn:E; cbn [fst snd] in *.
  - left. exists v. repeat split; try assumption. apply (Hv v st1 eq_refl).
  - right. split; [ reflexivity | ]. exists e.
    destruct wc; cbn [handleError record_call modify snd calls EX set_calls set_EX].
    + rewrite Hc, He. split; reflexivity.
    + rewrite Hc. split; reflexivity.
Qed.

(** X25.  In the synchronous mode [access], [mkdir], [closeFd], [openFd],
    [readFileOrDir], [removeFileOrDir] and [stat] follow one convention,
    whatever their arguments (other than a null source) and the state of the
    file system.  A success is returned and nothing else: the callback is not
    called, and the [EX] slot is left as it was, even when it holds the
    error of an earlier call.  A failure returns [ERROR], and the error goes
    to the callback, once, when there is one, and to the [EX] slot
    otherwise. *)
Theorem synchronous_primitives_follow_the_convention :
  forall (with_callback : bool) st,
    let cb := if with_callback then Some record_call else None in
    (forall src mode,
        reported_sync with_callback st (access (Some src) mode cb true st))
    /\ (forall src mode,
          reported_sync with_callback st (mkdir (Some src) mode cb true st))
    /\ (forall d, reported_sync with_callback st (closeFd (Some d) cb true st))
    /\ (forall src flags mode,
          reported_sync with_callback st (openFd (Some src) flags mode cb true st))
    /\ (forall src mode,
          reported_sync with_callback st (readFileOrDir (Some src) mode cb true st))
    /\ (forall src mode,
          reported_sync with_callback st
            (removeFileOrDir (Some src) mode cb true st))
    /\ (forall s, reported_sync with_callback st (stat (VStr s) cb true st))
    /\ (forall d, reported_sync with_callback st (stat (VNum d) cb true st)).
Proof.
  intros wc st cb. subst cb.
  destruct (natives_preserve calls (fun _ _ => eq_refl) (fun _ _ => eq_refl))
    as (C1 & C2 & C3 & C4 & C5 & C6 & C7 & C8 & C9 & C10).
  destruct (natives_preserve EX (fun _ _ => eq_refl) (fun _ _ => eq_refl))
    as (E1 & E2 & E3 & E4 & E5 & E6 & E7 & E8 & E9 & E10).
  assert (Hret : forall {A} (m : M A) (v : value) a st0 st1,
             bind m (fun _ => ret v) st0 = (Ret a, st1) -> a = v).
  { intros A m v a st0 st1 H. unfold bind, ret in H.
    destruct (m st0) as [ [ x | e ] st2 ]; inversion H; reflexivity. }
  repeat split; intros.
  - unfold access. apply sync_convention.
    + apply preserves_bind; [ apply C1 | intros; apply preserves_ret ].
    + apply preserves_bind; [ apply E1 | intros; apply preserves_ret ].
    + intros v st1 H. rewrite (Hret _ _ _ _ _ _ H). reflexivity.
  - unfold mkdir. apply sync_convention.
    + apply preserves_bind; [ apply C2 | intros; apply preserves_ret ].
    + apply preserves_bind; [ apply E2 | intros; apply preserves_ret ].
    + intros v st1 H. rewrite (Hret _ _ _ _ _ _ H). reflexivity.
  - unfold closeFd. apply sync_convention.
    + apply preserves_bind; [ apply C3 | intros; apply preserves_ret ].
    + apply preserves_bind; [ apply E3 | intros; apply preserves_ret ].
    + intros v st1 H. rewrite (Hret _ _ _ _ _ _ H). reflexivity.
  - unfold openFd. apply sync_convention.
    + apply preserves_bind; [ apply C4 | intros; apply preserves_ret ].
    + apply preserves_bind; [ apply E4 | intros; apply preserves_ret ].
    + intros v st1 H. unfold bind, ret in H.
      destruct (openSync src flags mode st) as [ [ d | e ] st2 ] eqn:Eo;
        inversion H; subst.
      pose proof (openSync_result _ _ _ _ _ _ Eo).
      cbn [is_ERROR]. apply Z.eqb_neq. lia.
  - unfold readFileOrDir. apply sync_convention.
    + destruct (mode =? DIR);
        (apply preserves_bind; [ first [ apply C5 | apply C6 ]
                               | intros; apply preserves_ret ]).
    + destruct (mode =? DIR);
        (apply preserves_bind; [ first [ apply E5 | apply E6 ]
                               | intros; apply preserves_ret ]).
    + intros v st1 H. destruct (mode =? DIR); unfold bind, ret in H.
      * destruct (readdirSync src st) as [ [ l | e ] st2 ]; inversion H; reflexivity.
      * destruct (readFileSync src st) as [ [ l | e ] st2 ]; inversion H; reflexivity.
  - unfold removeFileOrDir. apply sync_convention.
    + apply preserves_bind; [ apply C1 | intros ].
      apply preserves_bind; [ | intros; apply preserves_ret ].
      destruct (mode =? DIR); [ apply C7 | apply C8 ].
    + apply preserves_bind; [ apply E1 | intros ].
      apply preserves_bind; [ | intros; apply preserves_ret ].
      destruct (mode =? DIR); [ apply E7 | apply E8 ].
    + intros v st1 H. unfold bind at 1 in H.
      destruct (accessSync src _ st) as [ [ [] | e ] st2 ]; [ | discriminate ].
      rewrite (Hret _ _ _ _ _ _ H). reflexivity.
  - unfold stat. apply sync_convention.
    + apply preserves_bind; [ | intros; apply preserves_ret ].
      destruct (negb (isNaN (VStr s))); [ apply C10 | apply C9 ].
    + apply preserves_bind; [ | intros; apply preserves_ret ].
      destruct (negb (isNaN (VStr s))); [ apply E10 | apply E9 ].
    + intros v st1 H. unfold bind, ret in H.
      destruct ((if negb (isNaN (VStr s)) then fstatSync (VStr s)
                 else statSync_value (VStr s)) st) as [ [ x | e ] st2 ];
        inversion H; reflexivity.
  - unfold stat. apply sync_convention.
    + apply preserves_bind; [ | intros; apply preserves_ret ].
      destruct (negb (isNaN (VNum d))); [ apply C10 | apply C9 ].
    + apply preserves_bind; [ | intros; apply preserves_ret ].
      destruct (negb (isNaN (VNum d))); [ apply E10 | apply E9 ].
    + intros v st1 H. unfold bind, ret in H.
      destruct ((if negb (isNaN (VNum d)) then fstatSync (VNum d)
                 else statSync_value (VNum d)) st) as [ [ x | e ] st2 ];
        inversion H; reflexivity.
Qed.

Lemma async_once :
  forall {A} (op : M A) (payload : A -> value) st,
    preserves calls op ->
    called_back_once st
      (undefined_after
         (async op (completion (Some record_call) (Some record_call) payload)) st).
Proof.
  intros A op payload st Hc.
  assert (E : undefined_after
                (async op (completion (Some record_call) (Some record_call) payload))
                st
              = match op st with
                | (Ret a, st1) =>
                    (Ret VUndefined,
                     set_calls (calls st1 ++ [(SUCCESS, payload a)]) st1)
                | (Throw e, st1) =>
                    (Ret VUndefined,
                     set_calls (calls st1 ++ [(ERROR, VErr e)]) st1)
                end).
  { unfold undefined_after, async, bind.
    destruct (op st) as [ [ a | e ] st1 ]; reflexivity. }
  rewrite E. specialize (Hc st). unfold called_back_once.
  destruct (op st) as [ [ a | e ] st1 ]; cbn [fst snd calls set_calls] in *;
    (split; [ reflexivity | ]); rewrite Hc.
  - exists SUCCESS, (payload a). split; [ reflexivity | left; reflexivity ].
  - exists ERROR, (VErr e). split; [ reflexivity | ].
    right. split; [ reflexivity | exists e; reflexivity ].
Qed.

Lemma null_source_once :
  forall st msg,
    called_back_once st
      (undefined_after
         (handleError (VErr (ReferenceError msg)) (Some record_call)) st).
Proof.
  intros st msg. split; [ reflexivity | ].
  exists ERROR, (VErr (ReferenceError msg)). split; [ reflexivity | ].
  right. split; [ reflexivity | eexists; reflexivity ].
Qed.

(** X26.  In the asynchronous mode [access], [readFileOrDir], [removeFileOrDir] and
    [stat] call the callback exactly once, whatever their arguments (a null
    source included) and the state of the file system: with
    [(SUCCESS, payload)] when the native calls succeeded and with
    [(ERROR, error)] otherwise.  ([stat] is given a descriptor, or a path
    that is not a numeric string.) *)
Theorem asynchronous_primitives_call_back_once :
  forall st,
    (forall src mode,
        called_back_once st (access src mode (Some record_call) false st))
    /\ (forall src mode,
          called_back_once st (readFileOrDir src mode (Some record_call) false st))
    /\ (forall src mode,
          called_back_once st (removeFileOrDir src mode (Some record_call) false st))
    /\ (forall d, called_back_once st (stat (VNum d) (Some record_call) false st))
    /\ (forall s, isNaN (VStr s) = true ->
          called_back_once st (stat (VStr s) (Some record_call) false st))
    /\ called_back_once st (stat VNull (Some record_call) false st).
Proof.
  intros st.
  destruct (natives_preserve calls (fun _ _ => eq_refl) (fun _ _ => eq_refl))
    as (C1 & C2 & C3 & C4 & C5 & C6 & C7 & C8 & C9 & C10).
  assert (Hstat : forall v,
             (exists d, v = VNum d) \/ (exists s, v = VStr s /\ isNaN v = true) ->
             called_back_once st (stat v (Some record_call) false st)).
  { intros v [ [d ->] | (s & -> & Hn) ].
    - unfold stat. cbn [isNaN negb]. apply async_once. apply C10.
    - unfold stat. rewrite Hn. cbn [negb]. apply async_once. apply C9. }
  split; [ | split; [ | split; [ | split; [ | split ] ] ] ].
  - intros [ src | ] mode.
    + unfold access. apply async_once. apply C1.
    + apply null_source_once.
  - intros [ src | ] mode.
    + unfold readFileOrDir.
      destruct (mode =? DIR); apply async_once; [ apply C5 | apply C6 ].
    + apply null_source_once.
  - intros [ src | ] mode.
    + unfold removeFileOrDir, undefined_after, async. unfold bind at 1.
      pose proof (C1 src (Z.lor R_OK W_OK) st) as Hc.
      destruct (accessSync src (Z.lor R_OK W_OK) st) as [ [ [] | e ] st1 ];
        cbn [snd] in Hc.
      * assert (Hin : called_back_once st1
                        (undefined_after
                           (if mode =? DIR
                            then async (rmdirSync src)
                                   (completion (Some record_call) (Some record_call)
                                      (fun _ => VNull))
                            else async (unlinkSync src)
                                   (completion (Some record_call) (Some record_call)
                                      (fun _ => VNull))) st1)).
        { destruct (mode =? DIR); apply async_once; [ apply C7 | apply C8 ]. }
        unfold called_back_once in *. rewrite <- Hc. exact Hin.
      * split; [ reflexivity | ].
        exists ERROR, (VErr e). split; [ simpl; rewrite Hc; reflexivity | ].
        right. split; [ reflexivity | exists e; reflexivity ].
    + apply null_source_once.
  - intros d. apply Hstat. left. exists d. reflexivity.
  - intros s Hn. apply Hstat. right. exists s. split; [ reflexivity | exact Hn ].
  - apply null_source_once.
Qed.

Lemma asynchronous_primitives_call_back_once_witness :
  called_back_once (sample_state "f")
    (stat (VStr "/tmp/x/f.txt") (Some record_call) false (sample_state "f")).
Proof.
  exact (proj1 (proj2 (proj2 (proj2 (proj2
           (asynchronous_primitives_call_back_once (sample_state "f"))))))
           "/tmp/x/f.txt" eq_refl).
Defined.

(** *** Asynchronous failures that are not reported *)

(** X27.  The asynchronous [closeFd], [openFd] and [execFile] hand a failure of
    the native call to [handleError] without the callback: the error goes
    to the [EX] slot and the callback, whatever it is, is not called.  So
    [close(onClose)] on a handle whose descriptor is no longer open never
    calls back and leaves the handle open, and [open(onOpen)] with an
    exclusive flag on a file that exists never calls back either. *)
Theorem asynchronous_failures_are_dropped :
  forall st (cb : callback),
    (forall d,
        fd_lookup d (fds st) = None ->
        closeFd (Some d) (Some cb) false st
        = (Ret VUndefined, set_EX (VErr (SystemError EBADF)) st))
    /\ (forall s e flags mode st1,
          openSync s flags mode st = (Throw e, st1) ->
          openFd (Some s) flags mode (Some cb) false st
          = (Ret VUndefined, set_EX (VErr e) st1))
    /\ (forall (run : string -> list string -> M (list Z * list Z)) src args e st1,
          run src args st = (Throw e, st1) ->
          execFile run (Some src) args (Some cb) false st
          = (Ret VUndefined, set_EX (VErr e) st1))
    /\ (fd (self st) <> 0 ->
        fd_lookup (fd (self st)) (fds st) = None ->
        Handle.close (Some cb) st
        = (Ret VUndefined, set_EX (VErr (SystemError EBADF)) st)
        /\ isOpen (self (snd (Handle.close (Some cb) st))) = true)
    /\ (forall d flags,
          isNaN (VStr (path (self st))) = true -> path (self st) <> EmptyString ->
          walk (locate st (path (self st))) (root st) = inr (FileNode d) ->
          has_char "x" flags = true ->
          Handle.open flags (Some cb) st
          = (Ret VUndefined, set_EX (VErr (SystemError EEXIST)) st)).
Proof.
  intros st cb.
  assert (Hclose : forall d,
             fd_lookup d (fds st) = None ->
             closeFd (Some d) (Some cb) false st
             = (Ret VUndefined, set_EX (VErr (SystemError EBADF)) st)).
  { intros d H. unfold closeFd, undefined_after, async, closeSync.
    unfold bind at 1 2. cbn [get]. rewrite H. reflexivity. }
  assert (Hopen : forall (k : callback) s e flags mode st1,
             openSync s flags mode st = (Throw e, st1) ->
             openFd (Some s) flags mode (Some k) false st
             = (Ret VUndefined, set_EX (VErr e) st1)).
  { intros k s e flags mode st1 H. unfold openFd, undefined_after, async.
    unfold bind at 1. rewrite H. reflexivity. }
  split; [ exact Hclose | ]. split; [ exact (Hopen cb) | ]. split; [ | split ].
  - intros run src args e st1 H. unfold execFile, undefined_after, async.
    unfold bind at 1. rewrite H. reflexivity.
  - intros Hfd Hl.
    assert (E : Handle.close (Some cb) st
                = (Ret VUndefined, set_EX (VErr (SystemError EBADF)) st)).
    { unfold Handle.close. unfold bind at 1. cbn [get]. unfold isOpen.
      destruct (Z.eqb_spec (fd (self st)) 0) as [ E0 | _ ]; [ contradiction | ].
      cbn [negb]. unfold bind at 1.
      unfold closeFd, undefined_after, async, closeSync.
      unfold bind at 1 2. cbn [get]. rewrite Hl. reflexivity. }
    split; [ exact E | ]. rewrite E. cbn [snd self set_EX]. unfold isOpen.
    destruct (Z.eqb_spec (fd (self st)) 0) as [ E0 | _ ]; [ contradiction | ].
    reflexivity.
  - intros d flags Hn Hq Hw Hx.
    unfold Handle.open. unfold bind at 1. cbn [get]. unfold bind at 1.
    rewrite (isFile_async_file st d _ Hn Hq Hw).
    cbn [is_ERROR SUCCESS Z.eqb Pos.eqb negb]. unfold bind at 1 2.
    rewrite (Hopen _ (path (self st)) (SystemError EEXIST) flags 438 st);
      [ reflexivity | ].
    unfold openSync, native_path. unfold bind at 1 2. cbn [get].
    destruct (String.eqb_spec (path (self st)) EmptyString) as [ E | _ ];
      [ contradiction | ].
    rewrite Hw, Hx. reflexivity.
Qed.

Lemma asynchronous_failures_are_dropped_witness :
  let st := set_self (mkFile "/tmp/x/f.txt" false None 7) (sample_state "f") in
  Handle.close (Some record_call) st
  = (Ret VUndefined, set_EX (VErr (SystemError EBADF)) st).
Proof.
  assert (H : fd (self (set_self (mkFile "/tmp/x/f.txt" false None 7)
                          (sample_state "f"))) <> 0) by discriminate.
  exact (proj1 (proj1 (proj2 (proj2 (proj2
           (asynchronous_failures_are_dropped
              (set_self (mkFile "/tmp/x/f.txt" false None 7) (sample_state "f"))
              record_call)))) H eq_refl)).
Defined.

(** *** [stat] on a path that reads as a number *)

(** X28.  [File.stat] takes a string for a descriptor whenever [isNaN] takes it
    for a number (["12"], ["0x1f"], a string of blanks, ...): it calls
    [fstat] with the string, which refuses it.  The tree is not consulted:
    the synchronous form returns [ERROR] with a [TypeError] and the
    asynchronous form throws it, even when the path names a file.  For a
    handle on such a path [isFile()], [isDir()] and [length()] return
    [ERROR] too. *)
Theorem stat_takes_numeric_paths_for_descriptors :
  forall st s,
    isNaN (VStr s) = false ->
    (exists msg,
        stat (VStr s) None true st = (Ret ERROR, set_EX (VErr (TypeError msg)) st)
        /\ forall cb, stat (VStr s) (Some cb) false st = (Throw (TypeError msg), st))
    /\ (path (self st) = s ->
        exists msg,
          Handle.isFile None st = (Ret ERROR, set_EX (VErr (TypeError msg)) st)
          /\ Handle.isDir None st = (Ret ERROR, set_EX (VErr (TypeError msg)) st)
          /\ Handle.length None st = (Ret ERROR, set_EX (VErr (TypeError msg)) st)).
Proof.
  intros st s Hn. split.
  - eexists. split.
    + apply (stat_sync_numeric st s Hn).
    + intros cb. unfold stat. rewrite Hn. reflexivity.
  - intros <-. eexists. split; [ | split ].
    + apply (isFile_sync_numeric st Hn).
    + unfold Handle.isDir. unfold bind at 1. cbn [get]. unfold bind at 1.
      rewrite (stat_sync_numeric st _ Hn). reflexivity.
    + unfold Handle.length. unfold bind at 1. cbn [get]. unfold bind at 1.
      rewrite (stat_sync_numeric st _ Hn). reflexivity.
Qed.

Lemma stat_takes_numeric_paths_for_descriptors_witness :
  let st := set_root (DirNode [ ("2024", FileNode [1; 2; 3]) ]) (sample_state "2024") in
  walk (locate st "2024") (root st) = inr (FileNode [1; 2; 3])
  /\ exists msg,
       stat (VStr "2024") None true st
       = (Ret ERROR, set_EX (VErr (TypeError msg)) st).
Proof.
  split; [ reflexivity | ].
  destruct (proj1 (stat_takes_numeric_paths_for_descriptors
                     (set_root (DirNode [ ("2024", FileNode [1; 2; 3]) ])
                        (sample_state "2024"))
                     "2024" eq_refl)) as (msg & H & _).
  exists msg. exact H.
Defined.

(** *** [FileInputStream.open] on what is not a plain file *)

Lemma length_async_fail :
  forall st e (k : callback),
    isNaN (VStr (path (self st))) = true ->
    native_walk (path (self st)) st = (Throw e, st) ->
    Handle.length (Some k) st
    = bind (k ERROR (VErr e)) (fun _ => ret VUndefined) st.
Proof.
  intros st e k Hn H. unfold Handle.length. unfold bind at 1. cbn [get].
  unfold bind at 1. rewrite (stat_async_missing st _ _ _ Hn H).
  cbn [is_SUCCESS ERROR Z.eqb].
  apply bind_undefined_twice.
Qed.

(** X30.  [FileInputStream.open] on a path that names nothing, or names a
    directory (and is not a numeric string): [onReadable] is called once,
    with the error, and nothing else changes; the stream has no buffer, so a
    [read] after that throws [Stream closed] if it did before. *)
Theorem stream_open_reports_failure :
  forall st offset length blocking,
    isNaN (VStr (path (self st))) = true ->
    (forall e,
        native_walk (path (self st)) st = (Throw e, st) ->
        Stream.open offset length blocking (Some ready) st
        = (Ret VUndefined, set_calls (calls st ++ [(VStr "ready", VErr e)]) st))
    /\ (forall es,
          path (self st) <> EmptyString ->
          walk (locate st (path (self st))) (root st) = inr (DirNode es) ->
          Stream.open offset length blocking (Some ready) st
          = (Ret VUndefined,
             set_calls
               (calls st ++ [(VStr "ready", VErr (TypeError "NotFileException"))])
               st)).
Proof.
  intros st offset length blocking Hn. split.
  - intros e He. unfold Stream.open.
    rewrite (length_async_fail st e _ Hn He). reflexivity.
  - intros es Hq Hw. unfold Stream.open.
    rewrite (length_async_existing st _ _ Hn Hq Hw).
    cbn [is_SUCCESS SUCCESS Z.eqb Pos.eqb]. unfold bind at 1 2.
    unfold Handle.getInputStream. unfold bind at 1. cbn [get].
    unfold bind at 1. unfold Handle.open at 1. unfold bind at 1. cbn [get].
    unfold bind at 1. rewrite (isFile_async_dir st es _ Hn Hq Hw). reflexivity.
Qed.

Lemma stream_open_reports_failure_witness :
  Stream.open 0 0 true (Some ready) (sample_state "/tmp/x")
  = (Ret VUndefined,
     set_calls [(VStr "ready", VErr (TypeError "NotFileException"))]
       (sample_state "/tmp/x")).
Proof.
  exact (proj2 (stream_open_reports_failure (sample_state "/tmp/x") 0 0 true eq_refl)
           [ ("f.txt", FileNode hello) ] ltac:(discriminate) eq_refl).
Defined.

(** *** [FileInputStream.open] and the bytes read after it *)

Lemma utf16_units_ascii :
  forall d, Forall (fun b => 0 <= b <= 127) d -> flat_map utf16_units d = d.
Proof.
  induction d as [ | b r IH ]; intros H; [ reflexivity | ].
  inversion H as [ | b' r' Hb Hr ]; subst.
  cbn [flat_map]. rewrite (IH Hr). unfold utf16_units.
  destruct (Z.ltb_spec b 65536) as [ _ | Hge ]; [ reflexivity | lia ].
Qed.

Lemma ascii_stream_strings :
  forall d,
    d <> [] -> Forall (fun b => 0 <= b <= 127) d ->
    (List.length d <= highWaterMark)%nat ->
    utf8_strings Idle (chunks_of (List.length d) highWaterMark d) = [d].
Proof.
  intros [ | x r ] Hd Ha Hl; [ contradiction | ].
  change (chunks_of (List.length (x :: r)) highWaterMark (x :: r))
    with (firstn highWaterMark (x :: r)
          :: chunks_of (List.length r) highWaterMark (skipn highWaterMark (x :: r))).
  rewrite firstn_all2 by exact Hl. rewrite skipn_all2 by exact Hl.
  assert (E : chunks_of (List.length r) highWaterMark [] = [])
    by (destruct (List.length r); reflexivity).
  rewrite E. cbn [utf8_strings]. rewrite (utf8_write_ascii _ Ha).
  cbn [fst snd utf8_end]. rewrite (utf16_units_ascii _ Ha). reflexivity.
Qed.

Lemma fill_from_front :
  forall chunk pre rest,
    (List.length chunk <= List.length rest)%nat ->
    fill_from (Z.of_nat (List.length pre)) chunk (pre ++ rest)
    = (pre ++ chunk ++ skipn (List.length chunk) rest)%list.
Proof.
  induction chunk as [ | c r IH ]; intros pre rest Hl; [ reflexivity | ].
  destruct rest as [ | z rest ]; [ simpl in Hl; lia | ].
  cbn [fill_from]. unfold store.
  destruct (Z.ltb_spec (Z.of_nat (List.length pre)) 0) as [ Hneg | _ ]; [ lia | ].
  rewrite Nat2Z.id, store_nat_split by (rewrite length_app; simpl; lia).
  rewrite firstn_app, firstn_all, Nat.sub_diag. cbn [firstn].
  rewrite app_nil_r.
  replace (S (List.length pre)) with (List.length pre + 1)%nat by lia.
  rewrite skipn_app, skipn_all2 by lia.
  replace (List.length pre + 1 - List.length pre)%nat with 1%nat by lia.
  cbn [skipn app].
  replace (Z.of_nat (List.length pre) + 1)
    with (Z.of_nat (List.length (pre ++ [c]))) by (rewrite length_app; simpl; lia).
  replace (pre ++ c :: rest)%list with ((pre ++ [c]) ++ rest)%list
    by (rewrite <- app_assoc; reflexivity).
  rewrite IH by (simpl in Hl; lia).
  rewrite <- app_assoc. reflexivity.
Qed.

Lemma fill_from_whole :
  forall d, fill_from 0 d (repeat 0 (List.length d)) = d.
Proof.
  intros d.
  pose proof (fill_from_front d [] (repeat 0 (List.length d))) as H.
  cbn [List.length app Z.of_nat] in H. rewrite H by (rewrite repeat_length; lia).
  rewrite skipn_all2 by (rewrite repeat_length; lia). apply app_nil_r.
Qed.

Lemma open_ascii_file :
  forall st d offset length,
    isNaN (VStr (path (self st))) = true ->
    path (self st) <> EmptyString ->
    walk (locate st (path (self st))) (root st) = inr (FileNode d) ->
    d <> [] -> Forall (fun b => 0 <= b <= 127) d ->
    (List.length d <= highWaterMark)%nat ->
    stream (snd (Stream.open offset length true (Some ready) st))
    = set_window offset length (Z.of_nat (List.length d))
        (Stream.set_buf (Some d) (stream st)).
Proof.
  intros st d offset length Hn Hq Hw Hd Ha Hl.
  rewrite (open_on_file st offset length true d Hn Hq Hw).
  rewrite (ascii_stream_strings d Hd Ha Hl). cbv zeta.
  rewrite Nat2Z.id.
  unfold bind, Stream.update, modify, Stream.call, ready, record_call, ret.
  cbn [snd stream set_stream set_calls Stream.set_buf buf option_map].
  rewrite fill_from_whole. reflexivity.
Qed.

(** X31.  The blocking [open] on an ASCII file that is not empty and fits in one
    chunk of the read stream (65536 bytes), and the single-byte reads that
    follow.  The buffer holds the bytes of the file.  Opened without a
    window, the reads give the bytes of the file from the first to the last
    and [-1] from then on.  Opened with a window that lies within the file,
    they give the [length] bytes from [offset] on and then [-1], although
    the file goes on. *)
Theorem open_then_reads_give_the_window :
  forall st d,
    isNaN (VStr (path (self st))) = true ->
    path (self st) <> EmptyString ->
    walk (locate st (path (self st))) (root st) = inr (FileNode d) ->
    d <> [] -> Forall (fun b => 0 <= b <= 127) d ->
    (List.length d <= highWaterMark)%nat ->
    (forall j,
        let whole := stream (snd (Stream.open 0 0 true (Some ready) st)) in
        buf whole = Some d
        /\ available whole = Z.of_nat (List.length d)
        /\ fst (read_bytes (List.length d + j) whole) = (d ++ repeat (-1) j)%list)
    /\ (forall offset length j,
          0 < offset -> 0 < length ->
          offset + length <= Z.of_nat (List.length d) ->
          let window := stream (snd (Stream.open offset length true (Some ready) st)) in
          buf window = Some d
          /\ available window = length
          /\ fst (read_bytes (Z.to_nat length + j) window)
             = (firstn (Z.to_nat length) (skipn (Z.to_nat offset) d)
                ++ repeat (-1) j)%list).
Proof.
  intros st d Hn Hq Hw Hd Ha Hl.
  assert (Hreads :
    forall s k j,
      buf s = Some d -> 0 <= pos s -> pos s + Z.of_nat k = count s ->
      count s <= Z.of_nat (List.length d) ->
      fst (read_bytes (k + j) s)
      = (firstn k (skipn (Z.to_nat (pos s)) d) ++ repeat (-1) j)%list).
  { intros s k. revert s.
    induction k as [ | k IH ]; intros s j Hb Hp Hk Hc.
    - cbn [Nat.add firstn app].
      rewrite (read_bytes_at_end j s d Hb) by lia. reflexivity.
    - cbn [Nat.add read_bytes]. unfold read. rewrite Hb.
      destruct (pos s <? count s) eqn:E; [ | apply Z.ltb_ge in E; lia ].
      cbn [read_value read_stream fst].
      destruct (element_skipn d (pos s)) as (b & rest & Es & Ee); [ lia | ].
      rewrite (IH (mkStream (Some d) (pos s + 1) (count s) (markPos s)));
        cbn [buf pos count markPos]; try reflexivity; try lia.
      rewrite Ee, Es, (skipn_succ _ _ _ _ Hp Es). cbn [and_0xff firstn app].
      f_equal.
      assert (Hin : In b d).
      { rewrite <- (firstn_skipn (Z.to_nat (pos s)) d), Es.
        apply in_or_app. right. left. reflexivity. }
      pose proof (proj1 (Forall_forall _ d) Ha b Hin) as Hb'. cbv beta in Hb'.
      change 255 with (Z.ones 8). rewrite Z.land_ones by lia.
      apply Z.mod_small. lia. }
  split.
  - intros j whole. subst whole.
    rewrite (open_ascii_file st d 0 0 Hn Hq Hw Hd Ha Hl).
    unfold set_window. cbn [Z.gtb Z.compare andb].
    cbn [buf pos count markPos Stream.set_buf available].
    split; [ reflexivity | ]. split; [ unfold available; simpl; lia | ].
    rewrite Hreads; cbn [buf pos count markPos Stream.set_buf];
      try reflexivity; try lia.
    change (Z.to_nat 0) with 0%nat. rewrite skipn_O, firstn_all. reflexivity.
  - intros offset length j Ho Hlen Hfit window. subst window.
    rewrite (open_ascii_file st d offset length Hn Hq Hw Hd Ha Hl).
    unfold set_window.
    assert (E : (offset >? 0) && (length >? 0) = true).
    { apply andb_true_iff. split; apply Z.gtb_lt; assumption. }
    rewrite E. rewrite Z.min_l by lia.
    cbn [buf pos count markPos Stream.set_buf].
    split; [ reflexivity | ]. split; [ unfold available; simpl; lia | ].
    rewrite Hreads; cbn [buf pos count markPos Stream.set_buf];
      try reflexivity; lia.
Qed.

Lemma open_then_reads_give_the_window_witness :
  let st := sample_state "/tmp/x/f.txt" in
  fst (read_bytes (5 + 1) (stream (snd (Stream.open 0 0 true (Some ready) st))))
  = (char_codes "hello" ++ [-1])%list
  /\ fst (read_bytes (3 + 1) (stream (snd (Stream.open 1 3 true (Some ready) st))))
     = (char_codes "ell" ++ [-1])%list.
Proof.
  cbv zeta.
  assert (Hd : hello <> []) by discriminate.
  assert (Ha : Forall (fun b => 0 <= b <= 127) hello).
  { change hello with [104; 101; 108; 108; 111].
    repeat (apply Forall_cons; [ lia | ]). apply Forall_nil. }
  assert (Hl : (List.length hello <= highWaterMark)%nat).
  { apply Nat.lt_le_incl.
    exact (proj1 (Z2Nat.inj_lt 5 65536 ltac:(lia) ltac:(lia)) ltac:(lia)). }
  destruct (open_then_reads_give_the_window (sample_state "/tmp/x/f.txt") hello
              eq_refl ltac:(discriminate) eq_refl Hd Ha Hl) as [H1 H2].
  split.
  - exact (proj2 (proj2 (H1 1%nat))).
  - assert (H3 : 1 + 3 <= Z.of_nat (List.length hello)) by (simpl; lia).
    exact (proj2 (proj2 (H2 1 3 1%nat ltac:(lia) ltac:(lia) H3))).
Defined.
